(** * Paul Graham Essays reader: a shallow embedding of the client scripts

    The development follows the TypeScript sources:
    - [src/scripts/reader-settings.ts]  (module [ReaderSettings]),
    - [src/scripts/reading-history.ts]  (module [ReadingHistory]),
    - [src/scripts/annotations.ts]      (module [Annotations]),
    - the footnote engine               (modules [Dom], [Footnotes], [Popover]).

    Conventions of the embedding.
    - A JavaScript string is a [string]; a character stands for one code
      unit below 256.
    - A JavaScript number is an integer [Z]: the stores hold levels, word
      counts, pixel offsets and character offsets.  Fractions, exponents
      and NaN are outside the embedding; the module [Numbers] reads the
      numerals with a fraction or an exponent as far as their number is an
      integer or an infinity, for the export of the annotations.
    - A JavaScript exception is the [Throw] case of the result type [res].
    - An object used as a dictionary is the list of its own properties in
      insertion order; inherited members of [Object.prototype] are not part
      of the embedding, and the statements that depend on a lookup by a
      stored name leave the inherited names out.
    - A DOM tree is a [node], a text or an element with its attributes and
      children; what [closest] finds above the prose container is a
      [context].  The serialisation and the parsing of markup by the browser
      ([innerHTML]) are parameters of [parseFootnotes].
    - The popovers are a state machine over the variables of the engine and
      the children it gives to [document.body]; styles, positions and the
      registration of listeners are not part of the embedding. *)

From Stdlib Require Import String Ascii List ZArith Lia Bool Arith.
From Stdlib Require Import DecimalString DecimalPos DecimalFacts.
From stdpp Require Import gmap strings.
Import ListNotations.
Open Scope string_scope.
Open Scope list_scope.
Open Scope nat_scope.

(** ** Results of fallible code *)

Inductive exn : Type := SyntaxError | TypeError | RangeError | SecurityError.

Inductive res (A : Type) : Type :=
| Ok (a : A)
| Throw (e : exn).
Arguments Ok {A} a.
Arguments Throw {A} e.

#[global] Instance res_ret : MRet res := fun A a => Ok a.
#[global] Instance res_bind : MBind res :=
  fun A B f c => match c with Ok a => f a | Throw e => Throw e end.

(** [try { body } catch { handler }] *)
Definition try_catch {A} (body : res A) (handler : res A) : res A :=
  match body with
  | Ok a => Ok a
  | Throw _ => handler
  end.

Definition is_Ok {A} (r : res A) : Prop := exists a, r = Ok a.

(** ** Characters and strings *)

Definition dquote : ascii := ascii_of_nat 34.
Definition backslash : ascii := ascii_of_nat 92.
Definition newline : ascii := ascii_of_nat 10.

Definition code (c : ascii) : nat := nat_of_ascii c.

(** [\d] of a JavaScript regular expression *)
Definition is_digit (c : ascii) : bool :=
  (48 <=? code c)%nat && (code c <=? 57)%nat.

(** [\s] of a regular expression and the white space of [String.prototype.trim],
    for code units below 256: TAB, LF, VT, FF, CR, SP and NBSP. *)
Definition is_space (c : ascii) : bool :=
  let n := code c in
  ((9 <=? n)%nat && (n <=? 13)%nat) || (n =? 32)%nat || (n =? 160)%nat.

Fixpoint all_chars (p : ascii -> bool) (s : string) : bool :=
  match s with
  | EmptyString => true
  | String c r => p c && all_chars p r
  end.

Fixpoint drop_while (p : ascii -> bool) (s : string) : string :=
  match s with
  | EmptyString => EmptyString
  | String c r => if p c then drop_while p r else s
  end.

Fixpoint take_while (p : ascii -> bool) (s : string) : string :=
  match s with
  | EmptyString => EmptyString
  | String c r => if p c then String c (take_while p r) else EmptyString
  end.

Definition is_empty (s : string) : bool :=
  match s with EmptyString => true | _ => false end.

Definition trim_start (s : string) : string := drop_while is_space s.

Fixpoint trim_end (s : string) : string :=
  match s with
  | EmptyString => EmptyString
  | String c r =>
      let r' := trim_end r in
      if is_space c && is_empty r' then EmptyString else String c r'
  end.

(** [String.prototype.trim] *)
Definition trim (s : string) : string := trim_end (trim_start s).

Fixpoint join (sep : string) (l : list string) : string :=
  match l with
  | [] => EmptyString
  | [x] => x
  | x :: r => x +:+ sep +:+ join sep r
  end.

Fixpoint sconcat (l : list string) : string :=
  match l with
  | [] => EmptyString
  | x :: r => x +:+ sconcat r
  end.

Lemma sapp_nil_l (s : string) : EmptyString +:+ s = s.
Proof. reflexivity. Qed.

Lemma sapp_cons (c : ascii) (s t : string) : String c s +:+ t = String c (s +:+ t).
Proof. reflexivity. Qed.

Lemma sapp_nil_r (s : string) : s +:+ EmptyString = s.
Proof. induction s as [|c s IH]; [reflexivity|]. rewrite sapp_cons, IH. reflexivity. Qed.

Lemma sapp_assoc (a b c : string) : (a +:+ b) +:+ c = a +:+ (b +:+ c).
Proof.
  induction a as [|x a IH]; [reflexivity|].
  rewrite !sapp_cons, IH. reflexivity.
Qed.

Lemma slength_app (a b : string) :
  String.length (a +:+ b) = String.length a + String.length b.
Proof.
  induction a as [|x a IH]; [reflexivity|].
  rewrite sapp_cons. simpl. rewrite IH. reflexivity.
Qed.

(** A string [rest] stops a run of [p]-characters. *)
Definition stops (p : ascii -> bool) (rest : string) : bool :=
  match rest with
  | EmptyString => true
  | String c _ => negb (p c)
  end.

Lemma take_while_app (p : ascii -> bool) (ds rest : string) :
  all_chars p ds = true -> stops p rest = true ->
  take_while p (ds +:+ rest) = ds.
Proof.
  intros Hds Hrest. induction ds as [|c ds IH].
  - rewrite sapp_nil_l. destruct rest as [|c r]; [reflexivity|].
    simpl in *. destruct (p c); [discriminate|reflexivity].
  - simpl in Hds. apply andb_prop in Hds as [Hc Hds].
    rewrite sapp_cons. simpl. rewrite Hc, IH by assumption. reflexivity.
Qed.

Lemma drop_while_app (p : ascii -> bool) (ds rest : string) :
  all_chars p ds = true -> stops p rest = true ->
  drop_while p (ds +:+ rest) = rest.
Proof.
  intros Hds Hrest. induction ds as [|c ds IH].
  - rewrite sapp_nil_l. destruct rest as [|c r]; [reflexivity|].
    simpl in *. destruct (p c); [discriminate|reflexivity].
  - simpl in Hds. apply andb_prop in Hds as [Hc Hds].
    rewrite sapp_cons. simpl. rewrite Hc. auto.
Qed.

Lemma drop_while_stops (p : ascii -> bool) (s : string) : stops p (drop_while p s) = true.
Proof.
  induction s as [|c s IH]; [reflexivity|]. simpl.
  destruct (p c) eqn:Hc; [exact IH|]. simpl. rewrite Hc. reflexivity.
Qed.

Lemma drop_while_stopped (p : ascii -> bool) (s : string) :
  stops p s = true -> drop_while p s = s.
Proof.
  destruct s as [|c s]; [reflexivity|]. simpl. destruct (p c); [discriminate|reflexivity].
Qed.

Lemma trim_end_stops (s : string) :
  stops is_space s = true -> stops is_space (trim_end s) = true.
Proof.
  destruct s as [|c s]; [reflexivity|]. simpl. intros Hc.
  destruct (is_space c) eqn:E; [discriminate|]. simpl. rewrite E. reflexivity.
Qed.

Lemma trim_end_idempotent (s : string) : trim_end (trim_end s) = trim_end s.
Proof.
  induction s as [|c s IH]; [reflexivity|]. simpl.
  destruct (is_space c && is_empty (trim_end s)) eqn:E; [reflexivity|].
  simpl. rewrite IH, E. reflexivity.
Qed.

(** [trim] leaves a trimmed string as it is. *)
Lemma trim_idempotent (s : string) : trim (trim s) = trim s.
Proof.
  unfold trim, trim_start.
  rewrite (drop_while_stopped is_space (trim_end (drop_while is_space s))).
  - apply trim_end_idempotent.
  - apply trim_end_stops, drop_while_stops.
Qed.


(** ** JSON values, [JSON.stringify] and [JSON.parse] *)

Module Json.

#[warnings="-register-all"]
Inductive json : Type :=
| JNull
| JBool (b : bool)
| JNum (n : Z)
| JStr (s : string)
| JArr (items : list json)
| JObj (props : list (string * json)).

(** *** Objects as dictionaries: own properties in insertion order *)

(** [o[k]]; [None] is [undefined] *)
Fixpoint obj_get (o : list (string * json)) (k : string) : option json :=
  match o with
  | [] => None
  | (k', v) :: o' => if String.eqb k' k then Some v else obj_get o' k
  end.

(** [o[k] = v]: an existing property keeps its place, a new one goes last *)
Fixpoint obj_set (o : list (string * json)) (k : string) (v : json)
  : list (string * json) :=
  match o with
  | [] => [(k, v)]
  | (k', v') :: o' =>
      if String.eqb k' k then (k, v) :: o' else (k', v') :: obj_set o' k v
  end.

(** [delete o[k]] *)
Fixpoint obj_delete (o : list (string * json)) (k : string)
  : list (string * json) :=
  match o with
  | [] => []
  | (k', v') :: o' =>
      if String.eqb k' k then obj_delete o' k else (k', v') :: obj_delete o' k
  end.

Fixpoint nodupb (l : list string) : bool :=
  match l with
  | [] => true
  | x :: r => negb (existsb (String.eqb x) r) && nodupb r
  end.

(** A value of the embedding stands for a JavaScript value when no object
    lists a property twice. *)
Fixpoint wfb (v : json) : bool :=
  match v with
  | JArr items => forallb wfb items
  | JObj props =>
      nodupb (map fst props) && forallb (fun kv => wfb (snd kv)) props
  | _ => true
  end.

(** *** [JSON.stringify(value, null, gap)] (ECMA-262, SerializeJSONProperty) *)

Definition hex_digit (n : nat) : ascii :=
  if (n <? 10)%nat then ascii_of_nat (48 + n) else ascii_of_nat (87 + n).

(** QuoteJSONString, one code unit *)
Definition escape_char (c : ascii) : string :=
  let n := code c in
  if (n =? 8)%nat then "\b"
  else if (n =? 9)%nat then "\t"
  else if (n =? 10)%nat then "\n"
  else if (n =? 12)%nat then "\f"
  else if (n =? 13)%nat then "\r"
  else if (n =? 34)%nat then String backslash (String dquote EmptyString)
  else if (n =? 92)%nat then "\\"
  else if (n <? 32)%nat then
    "\u00" +:+ String (hex_digit (n / 16)) (String (hex_digit (n mod 16)) EmptyString)
  else String c EmptyString.

Fixpoint escape (s : string) : string :=
  match s with
  | EmptyString => EmptyString
  | String c r => escape_char c +:+ escape r
  end.

Definition quote (s : string) : string :=
  String dquote (escape s +:+ String dquote EmptyString).

(** Number::toString for an integer *)
Definition show_Z (n : Z) : string :=
  match n with
  | Z0 => "0"
  | Zpos p => NilEmpty.string_of_uint (Pos.to_uint p)
  | Zneg p => String "-" (NilEmpty.string_of_uint (Pos.to_uint p))
  end.

Definition nl : string := String newline EmptyString.

(** [gap] is the indentation unit ([""] for [JSON.stringify(v)], two spaces
    for [JSON.stringify(v, null, 2)]); [indent] is the current indentation. *)
Fixpoint stringify_at (gap indent : string) (v : json) : string :=
  match v with
  | JNull => "null"
  | JBool true => "true"
  | JBool false => "false"
  | JNum n => show_Z n
  | JStr s => quote s
  | JArr items =>
      let stepback := indent in
      let indent := indent +:+ gap in
      let partial := map (stringify_at gap indent) items in
      match partial with
      | [] => "[]"
      | _ =>
          if is_empty gap then "[" +:+ join "," partial +:+ "]"
          else "[" +:+ nl +:+ indent +:+ join ("," +:+ nl +:+ indent) partial
               +:+ nl +:+ stepback +:+ "]"
      end
  | JObj props =>
      let stepback := indent in
      let indent := indent +:+ gap in
      let partial :=
        map (fun kv => quote (fst kv) +:+ ":" +:+
                       (if is_empty gap then EmptyString else " ") +:+
                       stringify_at gap indent (snd kv)) props in
      match partial with
      | [] => "{}"
      | _ =>
          if is_empty gap then "{" +:+ join "," partial +:+ "}"
          else "{" +:+ nl +:+ indent +:+ join ("," +:+ nl +:+ indent) partial
               +:+ nl +:+ stepback +:+ "}"
      end
  end.

Definition JSON_stringify (v : json) : string := stringify_at EmptyString EmptyString v.
(** [JSON.stringify(v, null, n)]: the gap is [min(10, n)] spaces *)
Definition JSON_stringify_pretty (n : nat) (v : json) : string :=
  stringify_at (string_of_list_ascii (repeat " "%char (Nat.min 10 n))) EmptyString v.

(** *** [JSON.parse]: a lexer and a pushdown recogniser of the JSON grammar *)

Inductive token : Type :=
| TLBrace | TRBrace | TLBrack | TRBrack | TColon | TComma
| TScalar (v : json).

Definition is_json_ws (c : ascii) : bool :=
  let n := code c in
  (n =? 9)%nat || (n =? 10)%nat || (n =? 13)%nat || (n =? 32)%nat.

Definition hex_value (c : ascii) : option nat :=
  let n := code c in
  if is_digit c then Some (n - 48)
  else if (97 <=? n)%nat && (n <=? 102)%nat then Some (n - 87)
  else if (65 <=? n)%nat && (n <=? 70)%nat then Some (n - 55)
  else None.

Definition unescape (e : ascii) : option ascii :=
  if Ascii.eqb e dquote then Some dquote
  else if Ascii.eqb e backslash then Some backslash
  else if Ascii.eqb e "/" then Some "/"%char
  else if Ascii.eqb e "b" then Some (ascii_of_nat 8)
  else if Ascii.eqb e "f" then Some (ascii_of_nat 12)
  else if Ascii.eqb e "n" then Some (ascii_of_nat 10)
  else if Ascii.eqb e "r" then Some (ascii_of_nat 13)
  else if Ascii.eqb e "t" then Some (ascii_of_nat 9)
  else None.

(** The characters of a string literal after its opening quote, and what
    follows the closing quote.  An escape [\uXXXX] of a code unit above 255
    is outside the embedding and refused. *)
Fixpoint lex_string (s : string) : option (string * string) :=
  match s with
  | EmptyString => None
  | String c r =>
      if Ascii.eqb c dquote then Some (EmptyString, r)
      else if Ascii.eqb c backslash then
        match r with
        | EmptyString => None
        | String e r1 =>
            if Ascii.eqb e "u" then
              match r1 with
              | String h1 (String h2 (String h3 (String h4 r2))) =>
                  a ← hex_value h1; b ← hex_value h2;
                  c ← hex_value h3; d ← hex_value h4;
                  let n := ((a * 16 + b) * 16 + c) * 16 + d in
                  if (n <? 256)%nat then
                    '(str, rest) ← lex_string r2;
                    Some (String (ascii_of_nat n) str, rest)
                  else None
              | _ => None
              end
            else
              c' ← unescape e;
              '(str, rest) ← lex_string r1;
              Some (String c' str, rest)
        end
      else if (code c <? 32)%nat then None
      else '(str, rest) ← lex_string r; Some (String c str, rest)
  end.

(** An integer literal: an optional minus sign, then 0 or a digit 1-9
    followed by digits *)
Definition leading_zero (ds : string) : bool :=
  match ds with
  | String c (String _ _) => Ascii.eqb c "0"
  | _ => false
  end.

Definition lex_number (s : string) : option (Z * string) :=
  let '(neg, s1) :=
    match s with
    | String c r => if Ascii.eqb c "-" then (true, r) else (false, s)
    | EmptyString => (false, s)
    end in
  let ds := take_while is_digit s1 in
  let rest := drop_while is_digit s1 in
  if is_empty ds || leading_zero ds then None
  else
    d ← NilEmpty.uint_of_string ds;
    let n := Z.of_N (Pos.of_uint d) in
    Some (if neg then (- n)%Z else n, rest).

Fixpoint strip_prefix (p s : string) : option string :=
  match p with
  | EmptyString => Some s
  | String a p' =>
      match s with
      | String b s' => if Ascii.eqb a b then strip_prefix p' s' else None
      | EmptyString => None
      end
  end.

(** One token, or one white space character ([None]), off a non-empty input *)
Definition lex_token (s : string) : option (option token * string) :=
  match s with
  | EmptyString => None
  | String c r =>
      if is_json_ws c then Some (None, r)
      else if Ascii.eqb c "{" then Some (Some TLBrace, r)
      else if Ascii.eqb c "}" then Some (Some TRBrace, r)
      else if Ascii.eqb c "[" then Some (Some TLBrack, r)
      else if Ascii.eqb c "]" then Some (Some TRBrack, r)
      else if Ascii.eqb c ":" then Some (Some TColon, r)
      else if Ascii.eqb c "," then Some (Some TComma, r)
      else if Ascii.eqb c dquote then
        '(str, r') ← lex_string r; Some (Some (TScalar (JStr str)), r')
      else if Ascii.eqb c "-" || is_digit c then
        '(n, r') ← lex_number s; Some (Some (TScalar (JNum n)), r')
      else if Ascii.eqb c "n" then
        r' ← strip_prefix "ull" r; Some (Some (TScalar JNull), r')
      else if Ascii.eqb c "t" then
        r' ← strip_prefix "rue" r; Some (Some (TScalar (JBool true)), r')
      else if Ascii.eqb c "f" then
        r' ← strip_prefix "alse" r; Some (Some (TScalar (JBool false)), r')
      else None
  end.

Arguments lex_token : simpl never.

Fixpoint lex (fuel : nat) (s : string) : option (list token) :=
  match fuel with
  | O => None
  | S fuel' =>
      match s with
      | EmptyString => Some []
      | _ =>
          '(t, r) ← lex_token s;
          ts ← lex fuel' r;
          Some (match t with Some t => t :: ts | None => ts end)
      end
  end.

(** The recogniser keeps the enclosing arrays and objects on a stack. *)

Inductive frame : Type :=
| InArr (items_rev : list json)
| InObj (props : list (string * json)) (key : string).

Inductive pstate : Type :=
| PValue (ctx : list frame)
| PArrOpen (ctx : list frame)
| PArrNext (items_rev : list json) (ctx : list frame)
| PObjOpen (ctx : list frame)
| PObjKey (props : list (string * json)) (ctx : list frame)
| PObjColon (props : list (string * json)) (key : string) (ctx : list frame)
| PObjNext (props : list (string * json)) (ctx : list frame)
| PDone (v : json).

(** A finished value goes to the innermost open array or object; a repeated
    key overwrites the earlier property, as CreateDataProperty does. *)
Definition reduce (v : json) (ctx : list frame) : pstate :=
  match ctx with
  | [] => PDone v
  | InArr items :: ctx' => PArrNext (v :: items) ctx'
  | InObj props k :: ctx' => PObjNext (obj_set props k v) ctx'
  end.

Definition step_value (ctx : list frame) (t : token) : option pstate :=
  match t with
  | TScalar v => Some (reduce v ctx)
  | TLBrack => Some (PArrOpen ctx)
  | TLBrace => Some (PObjOpen ctx)
  | _ => None
  end.

Definition step (st : pstate) (t : token) : option pstate :=
  match st with
  | PValue ctx => step_value ctx t
  | PArrOpen ctx =>
      match t with
      | TRBrack => Some (reduce (JArr []) ctx)
      | _ => step_value (InArr [] :: ctx) t
      end
  | PArrNext items ctx =>
      match t with
      | TComma => Some (PValue (InArr items :: ctx))
      | TRBrack => Some (reduce (JArr (rev items)) ctx)
      | _ => None
      end
  | PObjOpen ctx =>
      match t with
      | TRBrace => Some (reduce (JObj []) ctx)
      | TScalar (JStr k) => Some (PObjColon [] k ctx)
      | _ => None
      end
  | PObjKey props ctx =>
      match t with
      | TScalar (JStr k) => Some (PObjColon props k ctx)
      | _ => None
      end
  | PObjColon props k ctx =>
      match t with
      | TColon => Some (PValue (InObj props k :: ctx))
      | _ => None
      end
  | PObjNext props ctx =>
      match t with
      | TComma => Some (PObjKey props ctx)
      | TRBrace => Some (reduce (JObj props) ctx)
      | _ => None
      end
  | PDone _ => None
  end.

Fixpoint run (st : pstate) (ts : list token) : option pstate :=
  match ts with
  | [] => Some st
  | t :: ts' => st' ← step st t; run st' ts'
  end.

(** [JSON.parse(s)]: the value, or a SyntaxError.  Every token takes at least
    one character, so the length of the input bounds the lexer. *)
Definition JSON_parse (s : string) : res json :=
  match lex (S (String.length s)) s with
  | Some ts =>
      match run (PValue []) ts with
      | Some (PDone v) => Ok v
      | _ => Throw SyntaxError
      end
  | None => Throw SyntaxError
  end.

(** *** Facts about objects *)

Lemma json_ind' (P : json -> Prop) :
  P JNull -> (forall b, P (JBool b)) -> (forall n, P (JNum n)) ->
  (forall s, P (JStr s)) ->
  (forall l, Forall P l -> P (JArr l)) ->
  (forall o, Forall (fun kv => P (snd kv)) o -> P (JObj o)) ->
  forall v, P v.
Proof.
  intros Hnull Hbool Hnum Hstr Harr Hobj.
  refine (fix IH (v : json) : P v :=
    match v with
    | JNull => Hnull
    | JBool b => Hbool b
    | JNum n => Hnum n
    | JStr s => Hstr s
    | JArr l =>
        Harr l ((fix go (l : list json) : Forall P l :=
                   match l with
                   | [] => @List.Forall_nil _ _
                   | x :: r => @List.Forall_cons _ _ _ _ (IH x) (go r)
                   end) l)
    | JObj o =>
        Hobj o ((fix go (o : list (string * json)) : Forall (fun kv => P (snd kv)) o :=
                   match o with
                   | [] => @List.Forall_nil _ _
                   | kv :: r => @List.Forall_cons _ _ _ _ (IH (snd kv)) (go r)
                   end) o)
    end).
Qed.

Lemma obj_get_set_eq o k v : obj_get (obj_set o k v) k = Some v.
Proof.
  induction o as [|[k' v'] o IH]; simpl.
  - rewrite String.eqb_refl. reflexivity.
  - destruct (String.eqb k' k) eqn:E; simpl.
    + rewrite String.eqb_refl. reflexivity.
    + rewrite E. exact IH.
Qed.

Lemma obj_get_set_ne o k k' v : k <> k' -> obj_get (obj_set o k v) k' = obj_get o k'.
Proof.
  intros Hne. induction o as [|[k0 v0] o IH]; simpl.
  - destruct (String.eqb_spec k k'); [contradiction|reflexivity].
  - destruct (String.eqb_spec k0 k) as [->|Hk]; simpl.
    + destruct (String.eqb_spec k k'); [contradiction|reflexivity].
    + destruct (String.eqb_spec k0 k'); [reflexivity|exact IH].
Qed.

Lemma obj_get_delete_eq o k : obj_get (obj_delete o k) k = None.
Proof.
  induction o as [|[k0 v0] o IH]; simpl; [reflexivity|].
  destruct (String.eqb_spec k0 k) as [->|Hk]; simpl; [exact IH|].
  destruct (String.eqb_spec k0 k); [contradiction|exact IH].
Qed.

Lemma obj_get_delete_ne o k k' : k <> k' -> obj_get (obj_delete o k) k' = obj_get o k'.
Proof.
  intros Hne. induction o as [|[k0 v0] o IH]; simpl; [reflexivity|].
  destruct (String.eqb_spec k0 k) as [->|Hk]; simpl.
  - destruct (String.eqb_spec k k'); [contradiction|exact IH].
  - destruct (String.eqb_spec k0 k'); [reflexivity|exact IH].
Qed.

Lemma obj_get_None_notin o k : obj_get o k = None <-> ~ In k (map fst o).
Proof.
  induction o as [|[k0 v0] o IH]; simpl; [tauto|].
  destruct (String.eqb_spec k0 k) as [->|Hk]; split; intros H.
  - discriminate.
  - exfalso. apply H. left. reflexivity.
  - intros [E|Hin]; [contradiction|]. apply IH in H. contradiction.
  - apply IH. intros Hin. apply H. right. exact Hin.
Qed.

Lemma obj_set_fresh o k v : ~ In k (map fst o) -> obj_set o k v = o ++ [(k, v)].
Proof.
  induction o as [|[k0 v0] o IH]; simpl; intros Hnin; [reflexivity|].
  destruct (String.eqb_spec k0 k) as [->|Hk]; [exfalso; apply Hnin; left; reflexivity|].
  rewrite IH; [reflexivity|]. intros Hin. apply Hnin. right. exact Hin.
Qed.

Lemma obj_set_keys o k v :
  map fst (obj_set o k v) = if existsb (String.eqb k) (map fst o) then map fst o
                            else map fst o ++ [k].
Proof.
  induction o as [|[k0 v0] o IH]; simpl; [reflexivity|].
  rewrite (String.eqb_sym k k0).
  destruct (String.eqb_spec k0 k) as [->|Hk]; simpl; [reflexivity|].
  rewrite IH. destruct (existsb (String.eqb k) (map fst o)); reflexivity.
Qed.

Lemma nodupb_NoDup l : nodupb l = true <-> NoDup l.
Proof.
  induction l as [|x l IH]; simpl.
  - split; [constructor|reflexivity].
  - rewrite andb_true_iff, negb_true_iff, IH. split.
    + intros [Hex Hnd]. constructor; [|exact Hnd].
      intros Hin. apply list_elem_of_In in Hin.
      assert (existsb (String.eqb x) l = true); [|congruence].
      apply existsb_exists. exists x. split; [exact Hin|apply String.eqb_refl].
    + intros Hnd. inversion Hnd as [|? ? Hnin Hnd']; subst. split; [|exact Hnd'].
      destruct (existsb (String.eqb x) l) eqn:E; [|reflexivity].
      apply existsb_exists in E as (y & Hy & Hxy).
      apply String.eqb_eq in Hxy. subst. apply list_elem_of_In in Hy. contradiction.
Qed.

Lemma obj_set_NoDup o k v : NoDup (map fst o) -> NoDup (map fst (obj_set o k v)).
Proof.
  intros Hnd. rewrite obj_set_keys.
  destruct (existsb (String.eqb k) (map fst o)) eqn:E; [exact Hnd|].
  apply NoDup_app. split; [exact Hnd|]. split.
  - intros x Hx Hin. apply list_elem_of_In in Hx, Hin. simpl in Hin.
    destruct Hin as [<-|[]].
    assert (existsb (String.eqb k) (map fst o) = true); [|congruence].
    apply existsb_exists. exists k. split; [exact Hx|apply String.eqb_refl].
  - apply NoDup_singleton.
Qed.

(** *** The lexer: fuel and printed tokens *)

Definition lexes (s : string) (ts : list token) : Prop :=
  exists fuel, lex fuel s = Some ts.

Lemma span_length (p : ascii -> bool) (s : string) :
  String.length (take_while p s) + String.length (drop_while p s) = String.length s.
Proof.
  induction s as [|c s IH]; simpl; [reflexivity|].
  destruct (p c); simpl; lia.
Qed.

Lemma lex_string_shorter s str r :
  lex_string s = Some (str, r) -> String.length r < String.length s.
Proof.
  remember (String.length s) as n eqn:Hn. revert s Hn str r.
  induction n as [n IH] using lt_wf_ind. intros s Hn str r H.
  destruct s as [|c s]; [discriminate|]. simpl in H, Hn.
  destruct (Ascii.eqb c dquote).
  { injection H as <- <-. lia. }
  destruct (Ascii.eqb c backslash).
  - destruct s as [|e r1]; [discriminate|]. simpl in Hn.
    destruct (Ascii.eqb e "u").
    + destruct r1 as [|h1 [|h2 [|h3 [|h4 r2]]]]; try discriminate.
      simpl in Hn.
      destruct (hex_value h1), (hex_value h2), (hex_value h3), (hex_value h4);
        try discriminate.
      simpl in H.
      match type of H with (if ?b then _ else _) = _ => destruct b end;
        [|discriminate].
      destruct (lex_string r2) as [[str' rest]|] eqn:E; [|discriminate].
      simpl in H. injection H as <- <-.
      apply (IH (String.length r2)) in E; [lia|lia|reflexivity].
    + destruct (unescape e); [|discriminate]. simpl in H.
      destruct (lex_string r1) as [[str' rest]|] eqn:E; [|discriminate].
      simpl in H. injection H as <- <-.
      apply (IH (String.length r1)) in E; [lia|lia|reflexivity].
  - match type of H with (if ?b then _ else _) = _ => destruct b end;
      [discriminate|].
    destruct (lex_string s) as [[str' rest]|] eqn:E; [|discriminate].
    simpl in H. injection H as <- <-.
    apply (IH (String.length s)) in E; [lia|lia|reflexivity].
Qed.

Lemma lex_number_shorter s n r :
  lex_number s = Some (n, r) -> String.length r < String.length s.
Proof.
  unfold lex_number. intros H.
  assert (Hgen : forall s1, String.length s1 <= String.length s ->
            (if is_empty (take_while is_digit s1) || leading_zero (take_while is_digit s1)
             then None
             else d ← NilEmpty.uint_of_string (take_while is_digit s1);
                  Some (d, drop_while is_digit s1)) <> None ->
            String.length (drop_while is_digit s1) < String.length s).
  { intros s1 Hle Hsome. pose proof (span_length is_digit s1) as Hspan.
    destruct (take_while is_digit s1); simpl in *; [congruence|lia]. }
  destruct s as [|c s'].
  - simpl in H. discriminate.
  - destruct (Ascii.eqb c "-").
    + destruct (is_empty (take_while is_digit s') || leading_zero (take_while is_digit s')) eqn:E;
        [discriminate|].
      destruct (NilEmpty.uint_of_string (take_while is_digit s')) eqn:Eu; [|discriminate].
      simpl in H. injection H as _ <-.
      pose proof (span_length is_digit s') as Hspan. simpl.
      destruct (take_while is_digit s'); simpl in *; [discriminate|lia].
    + destruct (is_empty (take_while is_digit (String c s'))
                || leading_zero (take_while is_digit (String c s'))) eqn:E;
        [discriminate|].
      destruct (NilEmpty.uint_of_string (take_while is_digit (String c s'))) eqn:Eu;
        [|discriminate].
      simpl in H. injection H as _ <-.
      pose proof (span_length is_digit (String c s')) as Hspan.
      destruct (take_while is_digit (String c s')); simpl in *; [discriminate|lia].
Qed.

Lemma strip_prefix_length p s r :
  strip_prefix p s = Some r -> String.length r <= String.length s.
Proof.
  revert s. induction p as [|a p IH]; intros s H; simpl in H.
  - injection H as <-. lia.
  - destruct s as [|b s]; [discriminate|].
    destruct (Ascii.eqb a b); [|discriminate]. apply IH in H. simpl. lia.
Qed.

Lemma lex_token_shorter s t r :
  lex_token s = Some (t, r) -> String.length r < String.length s.
Proof.
  destruct s as [|c s]; [discriminate|]. unfold lex_token. intros H.
  repeat match type of H with
         | (if ?b then _ else _) = _ =>
             let E := fresh "E" in
             destruct b eqn:E; [try (injection H as <- <-; simpl; lia)|]
         end; try discriminate.
  - destruct (lex_string s) as [[str r']|] eqn:E'; [|discriminate].
    simpl in H. injection H as _ <-. apply lex_string_shorter in E'. simpl. lia.
  - destruct (lex_number (String c s)) as [[n r']|] eqn:E'; [|discriminate].
    simpl in H. injection H as _ <-. apply lex_number_shorter in E'. exact E'.
  - destruct (strip_prefix "ull" s) as [r'|] eqn:E'; [|discriminate].
    simpl in H. injection H as _ <-. apply strip_prefix_length in E'. simpl. lia.
  - destruct (strip_prefix "rue" s) as [r'|] eqn:E'; [|discriminate].
    simpl in H. injection H as _ <-. apply strip_prefix_length in E'. simpl. lia.
  - destruct (strip_prefix "alse" s) as [r'|] eqn:E'; [|discriminate].
    simpl in H. injection H as _ <-. apply strip_prefix_length in E'. simpl. lia.
Qed.

(** The fuel of [JSON_parse] is enough: more fuel never changes the tokens. *)
Lemma lex_fuel_enough fuel s ts :
  lex fuel s = Some ts ->
  forall fuel', String.length s < fuel' -> lex fuel' s = Some ts.
Proof.
  revert s ts. induction fuel as [|fuel IH]; intros s ts H fuel' Hlen.
  - discriminate.
  - destruct fuel' as [|fuel']; [lia|]. simpl in *.
    destruct s as [|c s]; [exact H|].
    destruct (lex_token (String c s)) as [[t r]|] eqn:Et; [|discriminate].
    simpl in *. apply lex_token_shorter in Et. simpl in Et.
    destruct (lex fuel r) as [ts'|] eqn:El; [|discriminate].
    simpl in H. rewrite (IH _ _ El fuel') by lia. exact H.
Qed.

Lemma lexes_adequate s ts : lexes s ts -> lex (S (String.length s)) s = Some ts.
Proof. intros [fuel H]. apply (lex_fuel_enough _ _ _ H). lia. Qed.

(** The tokens of a printed value; the printed text differs from them only
    by white space. *)
Fixpoint tokens (v : json) : list token :=
  match v with
  | JArr items =>
      match items with
      | [] => [TLBrack; TRBrack]
      | x :: r =>
          TLBrack :: tokens x ++ flat_map (fun y => TComma :: tokens y) r ++ [TRBrack]
      end
  | JObj props =>
      match props with
      | [] => [TLBrace; TRBrace]
      | kv :: r =>
          TLBrace :: (TScalar (JStr (fst kv)) :: TColon :: tokens (snd kv)) ++
          flat_map (fun kv' => TComma :: TScalar (JStr (fst kv')) :: TColon
                               :: tokens (snd kv')) r ++ [TRBrace]
      end
  | _ => [TScalar v]
  end.

Lemma lexes_nil : lexes EmptyString [].
Proof. exists 1. reflexivity. Qed.

Lemma lexes_token s t r ts :
  lex_token s = Some (Some t, r) -> lexes r ts -> lexes s (t :: ts).
Proof.
  intros Ht [fuel Hl]. exists (S fuel). simpl.
  destruct s as [|c s]; [discriminate|]. rewrite Ht. simpl. rewrite Hl. reflexivity.
Qed.

Lemma lexes_ws c r ts : is_json_ws c = true -> lexes r ts -> lexes (String c r) ts.
Proof.
  intros Hc [fuel Hl]. exists (S fuel). simpl. unfold lex_token. rewrite Hc.
  simpl. rewrite Hl. reflexivity.
Qed.

Lemma lexes_skip w r ts :
  all_chars is_json_ws w = true -> lexes r ts -> lexes (w +:+ r) ts.
Proof.
  induction w as [|c w IH]; intros Hw Hl; [exact Hl|].
  simpl in Hw. apply andb_prop in Hw as [Hc Hw].
  rewrite sapp_cons. apply lexes_ws; auto.
Qed.

Lemma string_of_uint_digits d : all_chars is_digit (NilEmpty.string_of_uint d) = true.
Proof. induction d; simpl; auto. Qed.

Lemma to_uint_head p :
  match Pos.to_uint p with
  | Decimal.Nil | Decimal.D0 _ => False
  | _ => True
  end.
Proof.
  pose proof (Unsigned.to_of (Pos.to_uint p)) as E.
  rewrite Unsigned.of_to in E. simpl in E.
  pose proof (Unsigned.to_uint_nonzero p) as Hnz.
  unfold Decimal.unorm in E.
  destruct (Decimal.nzhead (Pos.to_uint p)) eqn:En;
    try (rewrite E; exact I).
  - contradiction.
  - exfalso. exact (nzhead_nonzero _ _ En).
Qed.

Lemma lex_number_pos p rest :
  stops is_digit rest = true ->
  lex_number (NilEmpty.string_of_uint (Pos.to_uint p) +:+ rest)
  = Some (Zpos p, rest).
Proof.
  intros Hrest. pose proof (to_uint_head p) as Hhead.
  pose proof (string_of_uint_digits (Pos.to_uint p)) as Hdig.
  pose proof (NilEmpty.usu (Pos.to_uint p)) as Husu.
  pose proof (Unsigned.of_to p) as Hof.
  unfold lex_number.
  assert (Hminus : match NilEmpty.string_of_uint (Pos.to_uint p) +:+ rest with
                   | String c r =>
                       if Ascii.eqb c "-" then (true, r)
                       else (false, NilEmpty.string_of_uint (Pos.to_uint p) +:+ rest)
                   | EmptyString => (false, NilEmpty.string_of_uint (Pos.to_uint p) +:+ rest)
                   end = (false, NilEmpty.string_of_uint (Pos.to_uint p) +:+ rest)).
  { destruct (Pos.to_uint p); try contradiction; reflexivity. }
  rewrite Hminus. rewrite take_while_app, drop_while_app by assumption.
  assert (Hok : is_empty (NilEmpty.string_of_uint (Pos.to_uint p))
                || leading_zero (NilEmpty.string_of_uint (Pos.to_uint p)) = false).
  { destruct (Pos.to_uint p) as [|u|u|u|u|u|u|u|u|u|u]; try contradiction;
      destruct u; reflexivity. }
  rewrite Hok, Husu. simpl. rewrite Hof. reflexivity.
Qed.

Lemma lex_number_show n rest :
  stops is_digit rest = true -> lex_number (show_Z n +:+ rest) = Some (n, rest).
Proof.
  intros Hrest. destruct n as [|p|p]; simpl.
  - pose proof (take_while_app is_digit EmptyString rest eq_refl Hrest) as Ht.
    pose proof (drop_while_app is_digit EmptyString rest eq_refl Hrest) as Hd.
    rewrite sapp_nil_l in Ht, Hd.
    unfold lex_number. change ("0" +:+ rest) with (String "0" rest).
    simpl. rewrite Ht, Hd. reflexivity.
  - apply lex_number_pos. exact Hrest.
  - rewrite sapp_cons. unfold lex_number.
    change (Ascii.eqb "-" "-") with true. cbv iota.
    pose proof (lex_number_pos p rest Hrest) as H. unfold lex_number in H.
    pose proof (to_uint_head p) as Hhead.
    assert (Hminus : match NilEmpty.string_of_uint (Pos.to_uint p) +:+ rest with
                   | String c r =>
                       if Ascii.eqb c "-" then (true, r)
                       else (false, NilEmpty.string_of_uint (Pos.to_uint p) +:+ rest)
                   | EmptyString => (false, NilEmpty.string_of_uint (Pos.to_uint p) +:+ rest)
                   end = (false, NilEmpty.string_of_uint (Pos.to_uint p) +:+ rest)).
    { destruct (Pos.to_uint p); try contradiction; reflexivity. }
    rewrite Hminus in H.
    destruct (is_empty _ || leading_zero _); [discriminate|].
    destruct (NilEmpty.uint_of_string _); [|discriminate].
    simpl in *. injection H as -> ->. reflexivity.
Qed.

Lemma lex_token_number_start c s :
  is_digit c = true \/ c = "-"%char ->
  lex_token (String c s)
  = '(n, r') ← lex_number (String c s); Some (Some (TScalar (JNum n)), r').
Proof.
  intros [H| ->]; [|reflexivity].
  destruct c as [[|] [|] [|] [|] [|] [|] [|] [|]]; try discriminate H; reflexivity.
Qed.

Lemma show_Z_head n :
  exists c s, show_Z n = String c s /\ (is_digit c = true \/ c = "-"%char).
Proof.
  destruct n as [|p|p]; simpl.
  - exists "0"%char, EmptyString. auto.
  - pose proof (to_uint_head p) as Hhead.
    destruct (Pos.to_uint p); try contradiction; simpl; eauto.
  - eauto.
Qed.

Lemma lex_token_show_Z n rest :
  stops is_digit rest = true ->
  lex_token (show_Z n +:+ rest) = Some (Some (TScalar (JNum n)), rest).
Proof.
  intros Hrest. destruct (show_Z_head n) as (c & s & E & Hc).
  pose proof (lex_number_show n rest Hrest) as Hn.
  rewrite E in *. rewrite sapp_cons in *.
  rewrite lex_token_number_start by exact Hc. rewrite Hn. reflexivity.
Qed.

Lemma lex_string_escape_char c tail :
  lex_string (escape_char c +:+ tail)
  = '(str, rest) ← lex_string tail; Some (String c str, rest).
Proof.
  destruct c as [[|] [|] [|] [|] [|] [|] [|] [|]]; reflexivity.
Qed.

Lemma lex_string_escape s rest :
  lex_string (escape s +:+ String dquote rest) = Some (s, rest).
Proof.
  induction s as [|c s IH]; [reflexivity|].
  simpl escape. rewrite sapp_assoc, lex_string_escape_char, IH. reflexivity.
Qed.

Lemma lex_token_quote s rest :
  lex_token (quote s +:+ rest) = Some (Some (TScalar (JStr s)), rest).
Proof.
  unfold quote. rewrite sapp_cons, sapp_assoc, sapp_cons, sapp_nil_l.
  change (lex_token (String dquote (escape s +:+ String dquote rest)))
    with ('(str, r') ← lex_string (escape s +:+ String dquote rest);
          Some (Some (TScalar (JStr str)), r')).
  rewrite lex_string_escape. reflexivity.
Qed.

Definition is_scalar (v : json) : bool :=
  match v with
  | JArr _ | JObj _ => false
  | _ => true
  end.

Lemma lexes_scalar gap indent v rest ts :
  is_scalar v = true -> stops is_digit rest = true -> lexes rest ts ->
  lexes (stringify_at gap indent v +:+ rest) (TScalar v :: ts).
Proof.
  intros Hv Hrest Hl. apply lexes_token with (r := rest); [|exact Hl].
  destruct v as [ | [|] | n | s | | ]; try discriminate; simpl.
  - reflexivity.
  - reflexivity.
  - reflexivity.
  - apply lex_token_show_Z. exact Hrest.
  - apply lex_token_quote.
Qed.

Lemma join_cons sep x r :
  join sep (x :: r) = x +:+ sconcat (map (fun y => sep +:+ y) r).
Proof.
  revert x. induction r as [|y r IH]; intros x.
  - simpl. rewrite sapp_nil_r. reflexivity.
  - change (join sep (x :: y :: r)) with (x +:+ sep +:+ join sep (y :: r)).
    rewrite IH. simpl. rewrite sapp_assoc. reflexivity.
Qed.

(** Lexing the tail of a printed array or object: each further item comes
    after a comma and white space. *)
Lemma lexes_items {A} (f : A -> string) (toks : A -> list token)
      (w : string) (l : list A) (rest : string) (ts : list token) :
  all_chars is_json_ws w = true ->
  Forall (fun x => forall rest ts, stops is_digit rest = true -> lexes rest ts ->
                   lexes (f x +:+ rest) (toks x ++ ts)) l ->
  stops is_digit rest = true -> lexes rest ts ->
  lexes (sconcat (map (fun y => ("," +:+ w) +:+ f y) l) +:+ rest)
        (flat_map (fun y => TComma :: toks y) l ++ ts)
  /\ stops is_digit (sconcat (map (fun y => ("," +:+ w) +:+ f y) l) +:+ rest) = true.
Proof.
  intros Hw Hall Hrest Hl. induction Hall as [|x l Hx Hall IH].
  - simpl. rewrite sapp_nil_l. auto.
  - destruct IH as [IH1 IH2]. simpl. split; [|reflexivity].
    rewrite !sapp_assoc. rewrite sapp_cons, sapp_nil_l.
    apply lexes_token with (r := w +:+ f x +:+ sconcat (map (fun y => ("," +:+ w) +:+ f y) l) +:+ rest);
      [reflexivity|].
    apply lexes_skip; [exact Hw|].
    rewrite <- app_assoc. apply Hx; assumption.
Qed.

Lemma all_chars_app p a b :
  all_chars p (a +:+ b) = all_chars p a && all_chars p b.
Proof.
  induction a as [|c a IH]; [reflexivity|].
  rewrite sapp_cons. simpl. rewrite IH, andb_assoc. reflexivity.
Qed.

(** The two layouts of SerializeJSONArray and SerializeJSONObject, as one. *)
Lemma container_form gap indent op cl p ps :
  (if is_empty gap then op +:+ join "," (p :: ps) +:+ cl
   else op +:+ nl +:+ (indent +:+ gap) +:+
        join ("," +:+ nl +:+ (indent +:+ gap)) (p :: ps) +:+ nl +:+ indent +:+ cl)
  = let pre := if is_empty gap then EmptyString else nl +:+ (indent +:+ gap) in
    let post := if is_empty gap then EmptyString else nl +:+ indent in
    op +:+ pre +:+ p +:+ sconcat (map (fun y => ("," +:+ pre) +:+ y) ps) +:+ post +:+ cl.
Proof.
  cbv zeta. rewrite !join_cons. destruct (is_empty gap).
  - rewrite !sapp_nil_l. rewrite sapp_assoc. reflexivity.
  - rewrite !sapp_assoc. reflexivity.
Qed.

Lemma lexes_container gap indent (opc clc : ascii) (opt clt : token)
      {A} (f : A -> string) (toks : A -> list token) x r rest ts :
  all_chars is_json_ws gap = true -> all_chars is_json_ws indent = true ->
  (forall s, lex_token (String opc s) = Some (Some opt, s)) ->
  (forall s, lex_token (String clc s) = Some (Some clt, s)) ->
  is_digit clc = false ->
  Forall (fun x => forall rest ts, stops is_digit rest = true -> lexes rest ts ->
                   lexes (f x +:+ rest) (toks x ++ ts)) (x :: r) ->
  lexes rest ts ->
  lexes ((if is_empty gap
          then String opc EmptyString +:+ join "," (map f (x :: r)) +:+ String clc EmptyString
          else String opc EmptyString +:+ nl +:+ (indent +:+ gap) +:+
               join ("," +:+ nl +:+ (indent +:+ gap)) (map f (x :: r)) +:+
               nl +:+ indent +:+ String clc EmptyString) +:+ rest)
        (opt :: toks x ++ flat_map (fun y => TComma :: toks y) r ++ clt :: ts).
Proof.
  intros Hgap Hind Hop Hcl Hclc Hall Hl.
  inversion Hall as [|? ? Hx Hr]; subst.
  change (map f (x :: r)) with (f x :: map f r).
  rewrite container_form. cbv zeta. rewrite map_map.
  set (pre := if is_empty gap then EmptyString else nl +:+ (indent +:+ gap)).
  set (post := if is_empty gap then EmptyString else nl +:+ indent).
  assert (Hpre : all_chars is_json_ws pre = true).
  { unfold pre. destruct (is_empty gap); [reflexivity|].
    rewrite !all_chars_app, Hgap, Hind. reflexivity. }
  assert (Hpost : all_chars is_json_ws post = true).
  { unfold post. destruct (is_empty gap); [reflexivity|].
    rewrite !all_chars_app, Hind. reflexivity. }
  assert (Hstop : stops is_digit (post +:+ String clc EmptyString +:+ rest) = true).
  { unfold post. destruct (is_empty gap).
    - rewrite sapp_nil_l, sapp_cons. simpl. rewrite Hclc. reflexivity.
    - reflexivity. }
  assert (Htail : lexes (post +:+ String clc EmptyString +:+ rest) (clt :: ts)).
  { apply lexes_skip; [exact Hpost|]. rewrite sapp_cons, sapp_nil_l.
    eapply lexes_token; [apply Hcl|exact Hl]. }
  destruct (lexes_items f toks pre r _ _ Hpre Hr Hstop Htail) as [Hitems Hstop'].
  rewrite !sapp_assoc. rewrite sapp_cons, sapp_nil_l.
  eapply lexes_token; [apply Hop|].
  apply lexes_skip; [exact Hpre|].
  apply Hx; assumption.
Qed.

Lemma lexes_stringify gap v :
  all_chars is_json_ws gap = true ->
  forall indent rest ts,
    all_chars is_json_ws indent = true -> stops is_digit rest = true ->
    lexes rest ts ->
    lexes (stringify_at gap indent v +:+ rest) (tokens v ++ ts).
Proof.
  intros Hgap. induction v as [ | b | n | s | l IH | o IH ] using json_ind';
    intros indent rest ts Hind Hrest Hl;
    try (apply lexes_scalar; auto; fail).
  - destruct l as [|x r].
    + simpl. eapply lexes_token; [reflexivity|].
      eapply lexes_token; [reflexivity|exact Hl].
    + cbn [stringify_at tokens].
      change (map (stringify_at gap (indent +:+ gap)) (x :: r))
        with (stringify_at gap (indent +:+ gap) x
              :: map (stringify_at gap (indent +:+ gap)) r).
      cbv iota beta.
      change (stringify_at gap (indent +:+ gap) x
              :: map (stringify_at gap (indent +:+ gap)) r)
        with (map (stringify_at gap (indent +:+ gap)) (x :: r)).
      simpl app. rewrite <- !app_assoc.
      apply (lexes_container gap indent "[" "]" TLBrack TRBrack
               (stringify_at gap (indent +:+ gap)) tokens); auto.
      eapply Forall_impl; [exact IH|]. cbv beta. intros y Hy rest' ts' Hr' Hl'.
      apply Hy; auto. rewrite all_chars_app, Hind, Hgap. reflexivity.
  - destruct o as [|kv r].
    + simpl. eapply lexes_token; [reflexivity|].
      eapply lexes_token; [reflexivity|exact Hl].
    + cbn [stringify_at tokens].
      set (f := fun kv : string * json =>
                  quote (fst kv) +:+ ":" +:+
                  (if is_empty gap then EmptyString else " ") +:+
                  stringify_at gap (indent +:+ gap) (snd kv)).
      set (toks := fun kv' : string * json =>
                     TScalar (JStr (fst kv')) :: TColon :: tokens (snd kv')).
      change (map f (kv :: r)) with (f kv :: map f r).
      cbv iota beta.
      change (f kv :: map f r) with (map f (kv :: r)).
      change (TScalar (JStr (fst kv)) :: TColon :: tokens (snd kv)) with (toks kv).
      change (fun kv' : string * json => TComma :: TScalar (JStr (fst kv')) :: TColon
                                         :: tokens (snd kv'))
        with (fun kv' => TComma :: toks kv').
      simpl app. rewrite <- !app_assoc.
      apply (lexes_container gap indent "{" "}" TLBrace TRBrace f toks); auto.
      eapply Forall_impl; [exact IH|]. cbv beta. intros [k y] Hy rest' ts' Hr' Hl'.
      unfold f, toks. simpl fst. simpl snd. rewrite !sapp_assoc.
      eapply lexes_token; [apply lex_token_quote|].
      rewrite sapp_cons, sapp_nil_l. eapply lexes_token; [reflexivity|].
      apply lexes_skip; [destruct (is_empty gap); reflexivity|].
      simpl app. apply Hy; auto. rewrite all_chars_app, Hind, Hgap. reflexivity.
Qed.

(** *** The recogniser on the tokens of a value *)

Definition value_start (t : token) : bool :=
  match t with
  | TScalar _ | TLBrack | TLBrace => true
  | _ => false
  end.

Lemma tokens_start v : exists t ts, tokens v = t :: ts /\ value_start t = true.
Proof.
  destruct v as [ | b | n | s | [|x r] | [|kv r] ]; simpl; eauto.
Qed.

Lemma run_arr_open v ctx ts :
  run (PArrOpen ctx) (tokens v ++ ts) = run (PValue (InArr [] :: ctx)) (tokens v ++ ts).
Proof.
  destruct (tokens_start v) as (t & ts' & -> & Ht).
  destruct t; try discriminate; reflexivity.
Qed.

Definition parses (v : json) : Prop :=
  forall ctx ts, run (PValue ctx) (tokens v ++ ts) = run (reduce v ctx) ts.

Lemma run_arr_rest r :
  Forall parses r ->
  forall acc ctx ts,
    run (PArrNext acc ctx) (flat_map (fun y => TComma :: tokens y) r ++ TRBrack :: ts)
    = run (reduce (JArr (rev acc ++ r)) ctx) ts.
Proof.
  induction 1 as [|y r Hy Hr IH]; intros acc ctx ts.
  - simpl. rewrite app_nil_r. reflexivity.
  - simpl. rewrite <- app_assoc. rewrite Hy. simpl.
    rewrite IH. simpl. rewrite <- app_assoc. reflexivity.
Qed.

Lemma run_obj_rest r :
  Forall (fun kv => parses (snd kv)) r ->
  forall acc ctx ts,
    NoDup (map fst (acc ++ r)) ->
    run (PObjNext acc ctx)
        (flat_map (fun kv => TComma :: TScalar (JStr (fst kv)) :: TColon
                             :: tokens (snd kv)) r ++ TRBrace :: ts)
    = run (reduce (JObj (acc ++ r)) ctx) ts.
Proof.
  induction 1 as [|[k y] r Hy Hr IH]; intros acc ctx ts Hnd.
  - simpl. rewrite app_nil_r. reflexivity.
  - simpl. rewrite <- app_assoc. simpl in Hy. rewrite Hy. simpl.
    assert (Hfresh : ~ In k (map fst acc)).
    { rewrite map_app in Hnd. simpl in Hnd. apply NoDup_app in Hnd as (_ & Hdis & _).
      intros Hin. apply list_elem_of_In in Hin. apply (Hdis k Hin). left. }
    rewrite (obj_set_fresh _ _ _ Hfresh).
    rewrite IH; rewrite <- app_assoc; [reflexivity|exact Hnd].
Qed.

Lemma forallb_Forall_impl {A} (p : A -> bool) (P : A -> Prop) l :
  Forall (fun x => p x = true -> P x) l -> forallb p l = true -> Forall P l.
Proof.
  induction 1 as [|x l Hx Hl IH]; simpl; intros Hp; constructor.
  - apply andb_prop in Hp as [Hp _]. auto.
  - apply andb_prop in Hp as [_ Hp]. auto.
Qed.

Lemma run_value v : wfb v = true -> parses v.
Proof.
  induction v as [ | b | n | s | l IH | o IH ] using json_ind'; intros Hwf;
    try (intros ctx ts; reflexivity).
  - simpl in Hwf. pose proof (forallb_Forall_impl _ _ _ IH Hwf) as Hall.
    intros ctx ts. destruct l as [|x r]; [reflexivity|].
    inversion Hall as [|? ? Hx Hr]; subst.
    simpl. rewrite <- !app_assoc. rewrite run_arr_open, Hx. simpl.
    rewrite (run_arr_rest r Hr [x] ctx ts). reflexivity.
  - simpl in Hwf. apply andb_prop in Hwf as [Hnd Hwf].
    apply nodupb_NoDup in Hnd.
    pose proof (forallb_Forall_impl (fun kv => wfb (snd kv))
                  (fun kv => parses (snd kv)) _ IH Hwf) as Hall.
    intros ctx ts. destruct o as [|[k x] r]; [reflexivity|].
    inversion Hall as [|? ? Hx Hr]; subst. simpl in Hx.
    simpl. rewrite <- !app_assoc. rewrite Hx. simpl.
    rewrite (run_obj_rest r Hr [(k, x)] ctx ts Hnd). reflexivity.
Qed.

(** Parsing what [JSON.stringify] printed gives the value back, for the
    compact and for every indented layout. *)
Lemma JSON_parse_stringify_at gap v :
  all_chars is_json_ws gap = true -> wfb v = true ->
  JSON_parse (stringify_at gap EmptyString v) = Ok v.
Proof.
  intros Hgap Hwf. unfold JSON_parse.
  pose proof (lexes_stringify gap v Hgap EmptyString EmptyString [] eq_refl eq_refl lexes_nil) as Hl.
  rewrite sapp_nil_r, app_nil_r in Hl. apply lexes_adequate in Hl. rewrite Hl.
  pose proof (run_value v Hwf [] []) as Hr. rewrite app_nil_r in Hr.
  rewrite Hr. reflexivity.
Qed.

Lemma JSON_parse_stringify v : wfb v = true -> JSON_parse (JSON_stringify v) = Ok v.
Proof. apply JSON_parse_stringify_at. reflexivity. Qed.

Lemma spaces_ws n : all_chars is_json_ws (string_of_list_ascii (repeat " "%char n)) = true.
Proof. induction n as [|n IH]; [reflexivity|exact IH]. Qed.

Lemma JSON_parse_stringify_pretty n v :
  wfb v = true -> JSON_parse (JSON_stringify_pretty n v) = Ok v.
Proof. apply JSON_parse_stringify_at. apply spaces_ws. Qed.

(** *** Every parsed value is well formed *)

Definition token_wf (t : token) : Prop :=
  match t with
  | TScalar v => wfb v = true
  | _ => True
  end.

Definition frame_wf (f : frame) : Prop :=
  match f with
  | InArr items => wfb (JArr items) = true
  | InObj props _ => wfb (JObj props) = true
  end.

Definition pstate_wf (st : pstate) : Prop :=
  match st with
  | PValue ctx | PArrOpen ctx | PObjOpen ctx => Forall frame_wf ctx
  | PArrNext items ctx => wfb (JArr items) = true /\ Forall frame_wf ctx
  | PObjKey props ctx | PObjColon props _ ctx | PObjNext props ctx =>
      wfb (JObj props) = true /\ Forall frame_wf ctx
  | PDone v => wfb v = true
  end.

Lemma lex_token_wf s t r : lex_token s = Some (Some t, r) -> token_wf t.
Proof.
  destruct s as [|c s]; [discriminate|]. unfold lex_token. intros H.
  repeat match type of H with
         | (if ?b then _ else _) = _ =>
             destruct b; [try (injection H as <- _; exact I)|]
         end; try discriminate.
  - destruct (lex_string s) as [[? ?]|]; [|discriminate]. injection H as <- _. reflexivity.
  - destruct (lex_number (String c s)) as [[? ?]|]; [|discriminate].
    injection H as <- _. reflexivity.
  - destruct (strip_prefix "ull" s); [|discriminate]. injection H as <- _. reflexivity.
  - destruct (strip_prefix "rue" s); [|discriminate]. injection H as <- _. reflexivity.
  - destruct (strip_prefix "alse" s); [|discriminate]. injection H as <- _. reflexivity.
Qed.

Lemma lex_wf fuel s ts : lex fuel s = Some ts -> Forall token_wf ts.
Proof.
  revert s ts. induction fuel as [|fuel IH]; intros s ts H; [discriminate|].
  simpl in H. destruct s as [|c s]; [injection H as <-; constructor|].
  destruct (lex_token (String c s)) as [[t r]|] eqn:Et; [|discriminate].
  simpl in H. destruct (lex fuel r) as [ts'|] eqn:El; [|discriminate].
  simpl in H. injection H as <-. apply IH in El.
  destruct t as [t|]; [|exact El]. constructor; [|exact El].
  exact (lex_token_wf _ _ _ Et).
Qed.

Lemma obj_set_forallb (p : string * json -> bool) o k v :
  forallb p o = true -> p (k, v) = true -> forallb p (obj_set o k v) = true.
Proof.
  intros Ho Hv. induction o as [|[k0 v0] o IH]; simpl in *.
  - rewrite Hv. reflexivity.
  - apply andb_prop in Ho as [H0 Ho].
    destruct (String.eqb k0 k); simpl; rewrite ?Hv, ?H0; auto.
Qed.

Lemma wfb_obj_set o k v :
  wfb (JObj o) = true -> wfb v = true -> wfb (JObj (obj_set o k v)) = true.
Proof.
  simpl. intros Ho Hv. apply andb_prop in Ho as [Hnd Hvals].
  apply andb_true_intro. split.
  - apply nodupb_NoDup, obj_set_NoDup, nodupb_NoDup, Hnd.
  - apply obj_set_forallb; assumption.
Qed.

Lemma forallb_rev {A} (p : A -> bool) l : forallb p (rev l) = forallb p l.
Proof.
  induction l as [|x l IH]; [reflexivity|].
  simpl. rewrite forallb_app, IH. simpl. rewrite andb_true_r, andb_comm. reflexivity.
Qed.

Lemma reduce_wf v ctx :
  wfb v = true -> Forall frame_wf ctx -> pstate_wf (reduce v ctx).
Proof.
  intros Hv Hctx. destruct ctx as [|[items|props k] ctx]; simpl; [exact Hv| |];
    inversion Hctx as [|? ? Hf Hctx']; subst; simpl in Hf.
  - rewrite Hv, Hf. auto.
  - split; [|exact Hctx']. apply wfb_obj_set; assumption.
Qed.

Lemma step_value_wf ctx t st :
  Forall frame_wf ctx -> token_wf t -> step_value ctx t = Some st -> pstate_wf st.
Proof.
  intros Hctx Ht H. destruct t; simpl in H; try discriminate;
    injection H as <-; simpl; auto.
  apply reduce_wf; assumption.
Qed.

Lemma step_wf st t st' :
  pstate_wf st -> token_wf t -> step st t = Some st' -> pstate_wf st'.
Proof.
  intros Hst Ht H. destruct st; simpl in *.
  - eapply step_value_wf; eauto.
  - assert (Hctx : Forall frame_wf (InArr [] :: ctx)) by (constructor; auto; reflexivity).
    destruct t;
      try (exact (step_value_wf (InArr [] :: ctx) _ _ Hctx Ht H)).
    injection H as <-. apply reduce_wf; auto.
  - destruct Hst as [Hitems Hctx]. destruct t; try discriminate; injection H as <-.
    + apply reduce_wf; [|exact Hctx]. simpl. rewrite forallb_rev. exact Hitems.
    + simpl. auto.
  - destruct t as [ | | | | | |v]; try discriminate.
    + injection H as <-. apply reduce_wf; auto.
    + destruct v; try discriminate. injection H as <-. simpl. auto.
  - destruct Hst as [Hprops Hctx].
    destruct t as [ | | | | | |v]; try discriminate.
    destruct v; try discriminate. injection H as <-. simpl. auto.
  - destruct Hst as [Hprops Hctx]. destruct t; try discriminate.
    injection H as <-. simpl. auto.
  - destruct Hst as [Hprops Hctx]. destruct t; try discriminate; injection H as <-.
    + apply reduce_wf; assumption.
    + simpl. auto.
  - discriminate.
Qed.

Lemma run_wf ts : forall st st',
  pstate_wf st -> Forall token_wf ts -> run st ts = Some st' -> pstate_wf st'.
Proof.
  induction ts as [|t ts IH]; intros st st' Hst Hts H; simpl in H.
  - injection H as <-. exact Hst.
  - inversion Hts as [|? ? Ht Hts']; subst.
    destruct (step st t) as [st1|] eqn:Es; [|discriminate]. simpl in H.
    eapply IH; [|exact Hts'|exact H]. eapply step_wf; eauto.
Qed.

Lemma JSON_parse_wf s v : JSON_parse s = Ok v -> wfb v = true.
Proof.
  unfold JSON_parse. intros H.
  destruct (lex (S (String.length s)) s) as [ts|] eqn:El; [|discriminate].
  destruct (run (PValue []) ts) as [[ | | | | | | |v']|] eqn:Er; try discriminate.
  injection H as <-. apply lex_wf in El.
  exact (run_wf ts (PValue []) (PDone v') (Forall_nil_2 _) El Er).
Qed.

Lemma JSON_parse_empty : JSON_parse EmptyString = Throw SyntaxError.
Proof. reflexivity. Qed.

Lemma JSON_stringify_nonempty v : wfb v = true -> is_empty (JSON_stringify v) = false.
Proof.
  intros Hwf. pose proof (JSON_parse_stringify v Hwf) as H.
  destruct (JSON_stringify v); [discriminate|reflexivity].
Qed.

Lemma obj_get_wf o k v : wfb (JObj o) = true -> obj_get o k = Some v -> wfb v = true.
Proof.
  simpl. intros H. apply andb_prop in H as [_ H].
  induction o as [|[k0 v0] o IH]; simpl in *; [discriminate|].
  apply andb_prop in H as [H0 H]. destruct (String.eqb k0 k).
  - intros [= <-]. exact H0.
  - apply IH, H.
Qed.

End Json.

(** ** JavaScript operations on parsed values *)

Module Js.
Import Json.

(** ToBoolean *)
Definition truthy (v : json) : bool :=
  match v with
  | JNull => false
  | JBool b => b
  | JNum n => negb (n =? 0)%Z
  | JStr s => negb (is_empty s)
  | JArr _ | JObj _ => true
  end.

(** [a || b], where [None] is [undefined] *)
Definition or_else (a : option json) (b : json) : json :=
  match a with
  | Some v => if truthy v then v else b
  | None => b
  end.

(** Mapping a fallible function over a list, left to right *)
Definition map_res {A B} (f : A -> res B) : list A -> res (list B) :=
  fix go (l : list A) : res (list B) :=
    match l with
    | [] => Ok []
    | x :: r => y ← f x; ys ← go r; Ok (y :: ys)
    end.

(** ToString of a parsed value: Array.prototype.join for an array; for an
    object Object.prototype.toString, unless an own property [toString]
    (never callable in parsed JSON) hides it, which is a TypeError. *)
Fixpoint to_string (v : json) : res string :=
  match v with
  | JNull => Ok "null"
  | JBool true => Ok "true"
  | JBool false => Ok "false"
  | JNum n => Ok (show_Z n)
  | JStr s => Ok s
  | JArr items =>
      ss ← map_res (fun x => match x with
                             | JNull => Ok EmptyString
                             | _ => to_string x
                             end) items;
      Ok (join "," ss)
  | JObj o =>
      match obj_get o "toString" with
      | Some _ => Throw TypeError
      | None => Ok "[object Object]"
      end
  end.

(** [item || "{}"], for what [getItem] returned *)
Definition or_empty_object (item : option string) : string :=
  match item with
  | Some text => if is_empty text then "{}" else text
  | None => "{}"
  end.

(** [v === s] for a string [s] *)
Definition strict_eq (v : option json) (s : string) : bool :=
  match v with
  | Some (JStr x) => String.eqb x s
  | _ => false
  end.

(** ToString of a value that may be [undefined] *)
Definition to_string_opt (v : option json) : res string :=
  match v with
  | Some v => to_string v
  | None => Ok "undefined"
  end.

(** A canonical array index: decimal digits without a leading zero, below
    2^32 - 1 *)
Definition array_index (k : string) : option nat :=
  if is_empty k || negb (all_chars is_digit k) || leading_zero k then None
  else
    d ← NilEmpty.uint_of_string k;
    if (Pos.of_uint d <? 4294967295)%N then Some (N.to_nat (Pos.of_uint d)) else None.

Definition chars_of (s : string) : list json :=
  map (fun c => JStr (String c EmptyString)) (list_ascii_of_string s).

(** Own properties of an array-like value, with [length] *)
Definition indexed_get (items : list json) (k : string) : option json :=
  if String.eqb k "length" then Some (JNum (Z.of_nat (length items)))
  else i ← array_index k; nth_error items i.

(** [v[k]] for a value [v]: a TypeError on [null]; members inherited from
    the prototypes are not part of the embedding. *)
Definition get_member (v : json) (k : string) : res (option json) :=
  match v with
  | JNull => Throw TypeError
  | JObj o => Ok (obj_get o k)
  | JArr items => Ok (indexed_get items k)
  | JStr s => Ok (indexed_get (chars_of s) k)
  | JBool _ | JNum _ => Ok None
  end.

(** [v?.k], where [v] may be [undefined] *)
Definition get_member_opt (v : option json) (k : string) : option json :=
  match v with
  | None | Some JNull => None
  | Some v => match get_member v k with Ok r => r | Throw _ => None end
  end.

Fixpoint indexed_entries (i : nat) (items : list json) : list (string * json) :=
  match items with
  | [] => []
  | x :: r => (show_Z (Z.of_nat i), x) :: indexed_entries (S i) r
  end.

(** The own enumerable properties that [{...v}] and [Object.entries(v)] read *)
Definition own_entries (v : json) : list (string * json) :=
  match v with
  | JObj o => o
  | JArr items => indexed_entries 0 items
  | JStr s => indexed_entries 0 (chars_of s)
  | _ => []
  end.

(** [{...target, ...v}], where [None] is [undefined] *)
Definition spread (target : list (string * json)) (v : option json)
  : list (string * json) :=
  match v with
  | Some v => fold_left (fun acc kv => obj_set acc (fst kv) (snd kv)) (own_entries v) target
  | None => target
  end.

(** [Object.entries(v)]: a TypeError on [null] *)
Definition Object_entries (v : json) : res (list (string * json)) :=
  match v with
  | JNull => Throw TypeError
  | _ => Ok (own_entries v)
  end.

(** The items a [for ... of] loop visits: arrays and strings are iterable *)
Definition iterate (v : option json) : res (list json) :=
  match v with
  | Some (JArr items) => Ok items
  | Some (JStr s) => Ok (chars_of s)
  | _ => Throw TypeError
  end.

(** [v[k] = {...}] in strict mode, for an object literal on the right.  A
    property that is not an index is not serialised with an array, so the
    assignment leaves the JSON value of the array as it was; an index beyond
    the end fills the hole with [null], as [JSON.stringify] prints it; an
    object is no valid [length]. *)
Definition assign_record (v : json) (k : string) (record : list (string * json))
  : res json :=
  match v with
  | JObj o => Ok (JObj (obj_set o k (JObj record)))
  | JArr items =>
      if String.eqb k "length" then Throw RangeError
      else match array_index k with
           | Some i =>
               if i <? length items
               then Ok (JArr (take i items ++ JObj record :: drop (S i) items))
               else Ok (JArr (items ++ repeat JNull (i - length items) ++ [JObj record]))
           | None => Ok (JArr items)
           end
  | JNull | JBool _ | JNum _ | JStr _ => Throw TypeError
  end.

(** *** Facts about these operations *)

Lemma spread_get_obj target o k :
  NoDup (map fst o) ->
  obj_get (spread target (Some (JObj o))) k
  = match obj_get o k with
    | Some v => Some v
    | None => obj_get target k
    end.
Proof.
  unfold spread. simpl. revert target.
  induction o as [|[k0 v0] o IH]; intros target Hnd; [reflexivity|].
  simpl in *. apply NoDup_cons in Hnd as [Hnin Hnd].
  rewrite IH by exact Hnd.
  destruct (String.eqb_spec k0 k) as [->|Hne].
  - assert (Hnone : obj_get o k = None).
    { apply obj_get_None_notin. intros Hin. apply Hnin, list_elem_of_In, Hin. }
    rewrite Hnone. apply obj_get_set_eq.
  - destruct (obj_get o k); [reflexivity|]. apply obj_get_set_ne. exact Hne.
Qed.

Lemma spread_nil_obj o : NoDup (map fst o) -> spread [] (Some (JObj o)) = o.
Proof.
  intros Hnd. unfold spread. simpl.
  assert (Hgen : forall acc, NoDup (map fst (acc ++ o)) ->
            fold_left (fun a kv => obj_set a (fst kv) (snd kv)) o acc = acc ++ o).
  { clear Hnd. induction o as [|[k v] o IH]; intros acc Hnd; simpl.
    - rewrite app_nil_r. reflexivity.
    - rewrite obj_set_fresh.
      + rewrite IH; rewrite <- app_assoc; [reflexivity|exact Hnd].
      + rewrite map_app in Hnd. simpl in Hnd.
        apply NoDup_app in Hnd as (_ & Hdis & _). intros Hin.
        apply list_elem_of_In in Hin. apply (Hdis k Hin). left. }
  apply (Hgen []). exact Hnd.
Qed.

Lemma fold_obj_set_wf entries : forall acc,
  wfb (JObj acc) = true ->
  forallb (fun kv => wfb (snd kv)) entries = true ->
  wfb (JObj (fold_left (fun a kv => obj_set a (fst kv) (snd kv)) entries acc)) = true.
Proof.
  induction entries as [|[k v] entries IH]; intros acc Hacc Hall; [exact Hacc|].
  simpl in Hall. apply andb_prop in Hall as [Hv Hall].
  simpl fold_left. apply IH; [|exact Hall]. apply wfb_obj_set; assumption.
Qed.

Lemma indexed_entries_wf items i :
  forallb wfb items = true ->
  forallb (fun kv => wfb (snd kv)) (indexed_entries i items) = true.
Proof.
  revert i. induction items as [|x r IH]; intros i H; [reflexivity|].
  simpl in *. apply andb_prop in H as [Hx Hr]. rewrite Hx. simpl. apply IH, Hr.
Qed.

Lemma chars_of_wf s : forallb wfb (chars_of s) = true.
Proof.
  unfold chars_of. induction (list_ascii_of_string s) as [|c l IH]; [reflexivity|exact IH].
Qed.

Lemma own_entries_wf v :
  wfb v = true -> forallb (fun kv => wfb (snd kv)) (own_entries v) = true.
Proof.
  destruct v; simpl; intros H; try reflexivity.
  - apply indexed_entries_wf, chars_of_wf.
  - apply indexed_entries_wf, H.
  - apply andb_prop in H as [_ H]. exact H.
Qed.

Lemma spread_wf target v :
  wfb (JObj target) = true ->
  match v with Some v => wfb v = true | None => True end ->
  wfb (JObj (spread target v)) = true.
Proof.
  intros Ht Hv. destruct v as [v|]; [|exact Ht].
  apply fold_obj_set_wf; [exact Ht|]. apply own_entries_wf, Hv.
Qed.

Lemma map_res_throws {A B} (f : A -> res B) (P : exn -> Prop) l e :
  Forall (fun x => forall e, f x = Throw e -> P e) l ->
  map_res f l = Throw e -> P e.
Proof.
  induction 1 as [|x r Hx Hr IH]; intros H; simpl in H; [discriminate|].
  destruct (f x) eqn:Ex; simpl in H; [|injection H as <-; auto].
  destruct (map_res f r) eqn:Er; simpl in H; [discriminate|].
  injection H as <-. auto.
Qed.

Lemma to_string_throws v e : to_string v = Throw e -> e = TypeError.
Proof.
  revert e. induction v as [ | [|] | n | s | l IH | o IH ] using json_ind';
    intros e H; simpl in H; try discriminate.
  - destruct (map_res _ l) eqn:Ego; simpl in H; [discriminate|].
    injection H as <-.
    refine (map_res_throws _ (fun e => e = TypeError) l e0 _ Ego).
    eapply Forall_impl; [exact IH|]. cbv beta. intros x Hx e Hxe.
    destruct x; try discriminate; apply Hx; exact Hxe.
  - destruct (obj_get o "toString"); [|discriminate]. injection H as <-. reflexivity.
Qed.

Lemma to_string_opt_throws v e : to_string_opt v = Throw e -> e = TypeError.
Proof. destruct v as [v|]; [apply to_string_throws|discriminate]. Qed.

End Js.

(** ** The browser state the stores act on *)

Module Browser.
Import Json.

(** [window.localStorage]: [Denied] when the browser refuses access to it
    (every use then throws a SecurityError). *)
Inductive localStorage : Type :=
| Denied
| Items (items : gmap string string).

(** What [applySettings] writes on the document root: the [data-theme]
    attribute and the custom properties of its style. *)
Record root_style : Type := {
  data_theme : option string;
  custom_properties : gmap string string
}.

Record world : Type := {
  storage : localStorage;
  root : root_style
}.

(** Code that reads and writes the browser state and may throw *)
Definition M (A : Type) : Type := world -> res A * world.

#[global] Instance M_ret : MRet M := fun A a w => (Ok a, w).
#[global] Instance M_bind : MBind M :=
  fun A B f c w =>
    match c w with
    | (Ok a, w') => f a w'
    | (Throw e, w') => (Throw e, w')
    end.

Definition lift {A} (r : res A) : M A := fun w => (r, w).

(** [try { body } catch { handler }]: what [body] wrote before it threw stays *)
Definition try_catchM {A} (body handler : M A) : M A :=
  fun w =>
    match body w with
    | (Ok a, w') => (Ok a, w')
    | (Throw _, w') => handler w'
    end.

Definition getItem (key : string) : M (option string) :=
  fun w =>
    match storage w with
    | Denied => (Throw SecurityError, w)
    | Items m => (Ok (m !! key), w)
    end.

(** Writes succeed while the storage is accessible (no quota). *)
Definition setItem (key value : string) : M unit :=
  fun w =>
    match storage w with
    | Denied => (Throw SecurityError, w)
    | Items m => (Ok tt, {| storage := Items (<[key := value]> m); root := root w |})
    end.

Definition empty_root : root_style :=
  {| data_theme := None; custom_properties := ∅ |}.

(** A page whose storage holds [items] *)
Definition page (items : gmap string string) : world :=
  {| storage := Items items; root := empty_root |}.

Definition stored (w : world) (key : string) : option string :=
  match storage w with
  | Denied => None
  | Items m => m !! key
  end.

End Browser.

(** ** Preference Store: [src/scripts/reader-settings.ts] *)

Module ReaderSettings.
Import Json Js Browser.

Definition STORAGE_KEY : string := "pg-reader-settings".

(** A [ReaderSettings] object, as its properties *)
Definition DEFAULTS : list (string * json) :=
  [("theme", JStr "white"); ("fontFamily", JStr "sans"); ("fontSize", JNum 2);
   ("lineHeight", JNum 1); ("contentWidth", JStr "medium")].

Definition FONT_SIZES : list string := ["14px"; "16px"; "18px"; "20px"; "22px"].
Definition LINE_HEIGHTS : list string := ["1.5"; "1.7"; "2.0"].
Definition MAX_WIDTHS : list (string * string) :=
  [("narrow", "55ch"); ("medium", "65ch"); ("wide", "80ch")].
Definition FONT_FAMILIES : list (string * string) :=
  [("sans", "system-ui, -apple-system, sans-serif");
   ("serif", "Georgia, 'Times New Roman', serif");
   ("dyslexic", "'OpenDyslexic', system-ui, sans-serif")].

(** Migrate old theme names to new ones *)
Definition THEME_MIGRATION : list (string * string) :=
  [("light", "white"); ("sepia", "tan"); ("dark", "black")].

(** [table[key]] on a constant object of strings, for a key that is none of
    the names inherited from [Object.prototype] *)
Fixpoint lookup_table (table : list (string * string)) (key : string) : option string :=
  match table with
  | [] => None
  | (k, v) :: r => if String.eqb k key then Some v else lookup_table r key
  end.

Definition loadSettings : M (list (string * json)) :=
  try_catchM
    (stored ← getItem STORAGE_KEY;
     match stored with
     | Some text =>
         if is_empty text then mret DEFAULTS
         else
           v ← lift (JSON_parse text);
           let parsed := spread DEFAULTS (Some v) in
           key ← lift (to_string_opt (obj_get parsed "theme"));
           match lookup_table THEME_MIGRATION key with
           | Some theme => mret (obj_set parsed "theme" (JStr theme))
           | None => mret parsed
           end
     | None => mret DEFAULTS
     end)
    (mret DEFAULTS).

Definition setProperty (name : string) (value : string) : M unit :=
  fun w =>
    (Ok tt,
     {| storage := storage w;
        root := {| data_theme := data_theme (root w);
                   custom_properties := <[name := value]> (custom_properties (root w)) |} |}).

Definition set_data_theme (value : option string) : M unit :=
  fun w =>
    (Ok tt,
     {| storage := storage w;
        root := {| data_theme := value;
                   custom_properties := custom_properties (root w) |} |}).

(** [table[key]] on a constant array of strings *)
Definition lookup_array (table : list string) (key : string) : option json :=
  indexed_get (map JStr table) key.

Definition applySettings (settings : list (string * json)) : M unit :=
  (* Theme: white is the :root default, so remove the attribute for it *)
  (if strict_eq (obj_get settings "theme") "white" then set_data_theme None
   else t ← lift (to_string_opt (obj_get settings "theme")); set_data_theme (Some t));;
  (* Font *)
  family ← lift (to_string_opt (obj_get settings "fontFamily"));
  setProperty "--reader-font-family"
    (default "undefined" (lookup_table FONT_FAMILIES family));;
  size ← lift (to_string_opt (obj_get settings "fontSize"));
  size_value ← lift (to_string_opt (lookup_array FONT_SIZES size));
  setProperty "--reader-font-size" size_value;;
  height ← lift (to_string_opt (obj_get settings "lineHeight"));
  height_value ← lift (to_string_opt (lookup_array LINE_HEIGHTS height));
  setProperty "--reader-line-height" height_value;;
  width ← lift (to_string_opt (obj_get settings "contentWidth"));
  setProperty "--reader-max-width"
    (default "undefined" (lookup_table MAX_WIDTHS width)).

Definition saveSettings (settings : list (string * json)) : M unit :=
  setItem STORAGE_KEY (JSON_stringify (JObj settings));;
  applySettings settings.

Definition themes : list string := ["white"; "tan"; "grey"; "black"].

(** [themes.indexOf(v)], by strict equality *)
Fixpoint indexOf (l : list string) (v : option json) : Z :=
  match l with
  | [] => (-1)%Z
  | x :: r =>
      if strict_eq v x then 0%Z
      else let i := indexOf r v in if (i <? 0)%Z then (-1)%Z else (i + 1)%Z
  end.

Definition cycleTheme : M (list (string * json)) :=
  settings ← loadSettings;
  let idx := indexOf themes (obj_get settings "theme") in
  let next := nth (Z.to_nat ((idx + 1) mod Z.of_nat (length themes))) themes "white" in
  let settings := obj_set settings "theme" (JStr next) in
  saveSettings settings;;
  mret settings.

(** [level + delta] where the level is a number, a boolean or [null].  The
    sum of anything else and a number is a string or NaN, outside the
    embedding. *)
Definition add_level (level : option json) (delta : Z) : option Z :=
  match level with
  | Some (JNum n) => Some (n + delta)%Z
  | Some (JBool b) => Some (Z.b2z b + delta)%Z
  | Some JNull => Some delta
  | _ => None
  end.

(** [None]: the stored font size is outside the embedding. *)
Definition adjustFontSize (delta : Z) (w : world)
  : option (res (list (string * json)) * world) :=
  match loadSettings w with
  | (Ok settings, w1) =>
      match add_level (obj_get settings "fontSize") delta with
      | Some n =>
          let settings := obj_set settings "fontSize" (JNum (Z.max 0 (Z.min 4 n))) in
          Some ((saveSettings settings;; mret settings) w1)
      | None => None
      end
  | (Throw e, w1) => Some (Throw e, w1)
  end.

(** Apply settings immediately on script load *)
Definition initSettings : M unit :=
  settings ← loadSettings;
  applySettings settings.

(** *** What [loadSettings] returns *)

(** The record [loadSettings] computes from the stored text *)
Definition loaded (w : world) : list (string * json) :=
  match stored w STORAGE_KEY with
  | Some text =>
      match JSON_parse text with
      | Ok v =>
          let parsed := spread DEFAULTS (Some v) in
          match to_string_opt (obj_get parsed "theme") with
          | Ok key =>
              match lookup_table THEME_MIGRATION key with
              | Some theme => obj_set parsed "theme" (JStr theme)
              | None => parsed
              end
          | Throw _ => DEFAULTS
          end
      | Throw _ => DEFAULTS
      end
  | None => DEFAULTS
  end.

(** The current name of a theme: its entry in the migration table, or itself *)
Definition migrate (theme : string) : string :=
  default theme (lookup_table THEME_MIGRATION theme).

Definition legacy_themes : list string := map fst THEME_MIGRATION.

(** An ordinal field holds a number between [lo] and [hi] *)
Definition level_in_range (lo hi : Z) (v : option json) : Prop :=
  exists n, v = Some (JNum n) /\ (lo <= n <= hi)%Z.

(** The names that every object inherits from [Object.prototype].  A table
    such as [THEME_MIGRATION] answers each of them with a function (or, for
    [__proto__], with the prototype itself), which is truthy and no value of
    the embedding; [lookup_table] reads the own entries only.  The statements
    on the theme leave these names out. *)
Definition Object_prototype : list string :=
  ["constructor"; "__defineGetter__"; "__defineSetter__"; "hasOwnProperty";
   "__lookupGetter__"; "__lookupSetter__"; "isPrototypeOf";
   "propertyIsEnumerable"; "toString"; "valueOf"; "__proto__"; "toLocaleString"].

Definition inherited (key : string) : bool :=
  existsb (String.eqb key) Object_prototype.

(** The key under which [loadSettings] looks up the theme of [s] is no
    inherited name. *)
Definition own_theme (s : list (string * json)) : bool :=
  match to_string_opt (obj_get s "theme") with
  | Ok key => negb (inherited key)
  | Throw _ => true
  end.

(** A string, or [undefined] *)
Definition string_or_missing (v : option json) : bool :=
  match v with
  | Some (JStr _) | None => true
  | Some _ => false
  end.

(** A string, a number, a boolean, [null] or [undefined]: the conversion to
    a string does not throw. *)
Definition primitive (v : option json) : bool :=
  match v with
  | Some (JArr _) | Some (JObj _) => false
  | _ => true
  end.

(** The preferences that [applySettings] converts to strings are
    primitive. *)
Definition applicable (s : list (string * json)) : bool :=
  forallb (fun field => primitive (obj_get s field))
          ["theme"; "fontFamily"; "fontSize"; "lineHeight"; "contentWidth"].

Lemma loadSettings_loaded w : loadSettings w = (Ok (loaded w), w).
Proof.
  unfold loadSettings, loaded, stored, try_catchM, getItem, mbind, M_bind, mret, M_ret, lift.
  destruct (storage w) as [|m]; [reflexivity|].
  destruct (m !! STORAGE_KEY) as [text|]; [|reflexivity].
  destruct text as [|c text]; [reflexivity|]. cbn [is_empty].
  destruct (JSON_parse (String c text)) as [v|e]; [|reflexivity].
  destruct (to_string_opt (obj_get (spread DEFAULTS (Some v)) "theme")) as [key|e];
    [|reflexivity].
  destruct (lookup_table THEME_MIGRATION key); reflexivity.
Qed.

Lemma loaded_wf w : wfb (JObj (loaded w)) = true.
Proof.
  unfold loaded. destruct (stored w STORAGE_KEY) as [text|]; [|reflexivity].
  destruct (JSON_parse text) as [v|e] eqn:Ep; [|reflexivity].
  apply JSON_parse_wf in Ep.
  assert (Hs : wfb (JObj (spread DEFAULTS (Some v))) = true)
    by (apply spread_wf; [reflexivity|exact Ep]).
  destruct (to_string_opt _); [|reflexivity].
  destruct (lookup_table _ _); [|exact Hs].
  apply wfb_obj_set; [exact Hs|reflexivity].
Qed.

Lemma loaded_theme w text o t :
  stored w STORAGE_KEY = Some text -> JSON_parse text = Ok (JObj o) ->
  obj_get o "theme" = Some (JStr t) ->
  obj_get (loaded w) "theme" = Some (JStr (migrate t)).
Proof.
  intros Hs Hp Ht. unfold loaded. rewrite Hs, Hp. cbv zeta.
  assert (Hnd : NoDup (map fst o)).
  { apply JSON_parse_wf in Hp. simpl in Hp. apply andb_prop in Hp as [Hp _].
    apply nodupb_NoDup, Hp. }
  rewrite (spread_get_obj DEFAULTS o "theme" Hnd), Ht. simpl to_string_opt.
  unfold migrate. destruct (lookup_table THEME_MIGRATION t) as [theme|]; cbn [default].
  - apply obj_get_set_eq.
  - rewrite (spread_get_obj DEFAULTS o "theme" Hnd), Ht. reflexivity.
Qed.

Lemma migrate_current t : In t (themes ++ legacy_themes) -> In (migrate t) themes.
Proof.
  simpl. intros H.
  repeat (destruct H as [<-|H]; [vm_compute; tauto|]). contradiction.
Qed.

(** *** Saving and applying *)

Lemma applySettings_outcome settings w :
  exists r root', applySettings settings w = (r, {| storage := storage w; root := root' |})
                  /\ (r = Ok tt \/ r = Throw TypeError).
Proof.
  unfold applySettings, mbind, M_bind, lift, setProperty, set_data_theme.
  repeat match goal with
         | |- context [to_string_opt ?v] =>
             let E := fresh "E" in
             destruct (to_string_opt v) eqn:E;
             [|apply to_string_opt_throws in E; subst]
         | |- context [if ?b then _ else _] => destruct b
         end; cbn; eauto.
  all: destruct w as [ls rt]; cbn; eauto.
Qed.

Lemma saveSettings_outcome settings w m :
  storage w = Items m ->
  exists r w', saveSettings settings w = (r, w')
               /\ (r = Ok tt \/ r = Throw TypeError)
               /\ stored w' STORAGE_KEY = Some (JSON_stringify (JObj settings)).
Proof.
  intros Hm. unfold saveSettings, mbind, M_bind, setItem. rewrite Hm.
  destruct (applySettings_outcome settings
              {| storage := Items (<[STORAGE_KEY:=JSON_stringify (JObj settings)]> m);
                 root := root w |}) as (r & root' & E & Hr).
  rewrite E. exists r. eexists. split; [reflexivity|]. split; [exact Hr|].
  unfold stored. cbn. apply lookup_insert_eq.
Qed.

(** *** Claims C6 and C7 *)

(** A page whose stored preferences hold the font-size level 99 *)
Definition page_with_level_99 : world :=
  page {[ STORAGE_KEY := JSON_stringify (JObj [("fontSize", JNum 99)]) ]}.

(** A page whose stored preferences name the theme [purple] *)
Definition page_with_purple_theme : world :=
  page {[ STORAGE_KEY := JSON_stringify (JObj [("theme", JStr "purple")]) ]}.

(** A page whose stored preferences name the legacy theme [light] *)
Definition page_with_light_theme : world :=
  page {[ STORAGE_KEY := JSON_stringify (JObj [("theme", JStr "light")]) ]}.

(** C6, counterexample: [loadSettings] does not clamp.  On a persisted record
    with the font-size level 99 it returns the level 99, outside 0..4. *)
Lemma loadSettings_level_out_of_range :
  exists s,
    loadSettings page_with_level_99 = (Ok s, page_with_level_99) /\
    obj_get s "fontSize" = Some (JNum 99) /\
    ~ level_in_range 0 4 (obj_get s "fontSize").
Proof.
  exists (loaded page_with_level_99). split; [apply loadSettings_loaded|].
  assert (E : obj_get (loaded page_with_level_99) "fontSize" = Some (JNum 99))
    by (vm_compute; reflexivity).
  split; [exact E|]. rewrite E. intros (n & Hn & Hrange).
  injection Hn as <-. lia.
Qed.

(** C7, counterexample: an unknown theme value is not rewritten.  A persisted
    theme [purple] loads as [purple], which is none of the current values. *)
Lemma loadSettings_keeps_unknown_theme :
  exists s,
    loadSettings page_with_purple_theme = (Ok s, page_with_purple_theme) /\
    obj_get s "theme" = Some (JStr "purple") /\
    ~ In "purple" themes.
Proof.
  exists (loaded page_with_purple_theme). split; [apply loadSettings_loaded|].
  split; [vm_compute; reflexivity|].
  simpl. intros H. repeat (destruct H as [H|H]; [discriminate H|]). exact H.
Qed.

(** C7, as amended: [loadSettings] rewrites a persisted theme that is one of
    the legacy names through the fixed migration table ([light] to [white],
    [sepia] to [tan], [dark] to [black]) and returns every other theme
    string unchanged: a current value stays, and so does an unknown one.
    Hence the loaded theme is one of [white], [tan], [grey], [black]
    exactly when the persisted theme is a legacy or a current value.  The
    names inherited from [Object.prototype] are left out. *)
Theorem loadSettings_migrates_legacy_theme w text o t :
  stored w STORAGE_KEY = Some text ->
  JSON_parse text = Ok (JObj o) ->
  obj_get o "theme" = Some (JStr t) ->
  inherited t = false ->
  exists s,
    loadSettings w = (Ok s, w) /\
    obj_get s "theme" = Some (JStr (migrate t)) /\
    (In t legacy_themes ->
       lookup_table THEME_MIGRATION t = Some (migrate t) /\ In (migrate t) themes) /\
    (~ In t legacy_themes -> migrate t = t) /\
    (In t themes -> migrate t = t) /\
    (In (migrate t) themes <-> In t (themes ++ legacy_themes)) /\
    migrate "light" = "white" /\ migrate "sepia" = "tan" /\ migrate "dark" = "black".
Proof.
  intros Hs Hp Ht _. exists (loaded w). split; [apply loadSettings_loaded|].
  split; [exact (loaded_theme w text o t Hs Hp Ht)|].
  assert (Hlegacy : In t legacy_themes ->
            lookup_table THEME_MIGRATION t = Some (migrate t) /\ In (migrate t) themes).
  { simpl. intros H.
    repeat (destruct H as [<-|H]; [split; [reflexivity|vm_compute; tauto]|]).
    contradiction. }
  assert (Hother : ~ In t legacy_themes -> migrate t = t).
  { intros Hnot. unfold migrate, THEME_MIGRATION. cbn [lookup_table].
    destruct (String.eqb_spec "light" t) as [<-|_]; [exfalso; apply Hnot; simpl; tauto|].
    destruct (String.eqb_spec "sepia" t) as [<-|_]; [exfalso; apply Hnot; simpl; tauto|].
    destruct (String.eqb_spec "dark" t) as [<-|_]; [exfalso; apply Hnot; simpl; tauto|].
    reflexivity. }
  assert (Hcurrent : In t themes -> migrate t = t).
  { simpl. intros H. repeat (destruct H as [<-|H]; [reflexivity|]). contradiction. }
  split; [exact Hlegacy|]. split; [exact Hother|]. split; [exact Hcurrent|].
  split; [|repeat split; reflexivity].
  split.
  - intros Hin. apply in_or_app.
    destruct (in_dec string_dec t legacy_themes) as [Hl|Hl]; [right; exact Hl|].
    left. rewrite (Hother Hl) in Hin. exact Hin.
  - intros Hin. apply in_app_or in Hin as [Hin|Hin].
    + rewrite (Hcurrent Hin). exact Hin.
    + apply Hlegacy, Hin.
Qed.

Lemma loadSettings_migrates_legacy_theme_witness :
  exists s,
    loadSettings page_with_light_theme = (Ok s, page_with_light_theme) /\
    obj_get s "theme" = Some (JStr "white").
Proof.
  destruct (loadSettings_migrates_legacy_theme page_with_light_theme
              (JSON_stringify (JObj [("theme", JStr "light")]))
              [("theme", JStr "light")] "light")
    as (s & Hload & Htheme & _).
  - vm_compute. reflexivity.
  - vm_compute. reflexivity.
  - reflexivity.
  - reflexivity.
  - exists s. split; [exact Hload|exact Htheme].
Defined.


(** *** What is saved is what is loaded *)

Lemma obj_set_app_notin (done l : list (string * json)) k v :
  ~ In k (map fst done) -> obj_set (done ++ l) k v = done ++ obj_set l k v.
Proof.
  induction done as [|[k0 v0] done IH]; intros Hnin; [reflexivity|].
  simpl. destruct (String.eqb_spec k0 k) as [->|Hne].
  - exfalso. apply Hnin. left. reflexivity.
  - rewrite IH; [reflexivity|]. intros Hin. apply Hnin. right. exact Hin.
Qed.

Lemma fold_set_fresh (o : list (string * json)) : forall acc,
  NoDup (map fst (acc ++ o)) ->
  fold_left (fun a kv => obj_set a (fst kv) (snd kv)) o acc = acc ++ o.
Proof.
  induction o as [|[k v] o IH]; intros acc Hnd; simpl.
  - rewrite app_nil_r. reflexivity.
  - rewrite obj_set_fresh.
    + rewrite IH; rewrite <- app_assoc; [reflexivity|exact Hnd].
    + rewrite map_app in Hnd. simpl in Hnd.
      apply NoDup_app in Hnd as (_ & Hdis & _). intros Hin.
      apply list_elem_of_In in Hin. apply (Hdis k Hin). left.
Qed.

Lemma fold_set_aligned (o : list (string * json)) : forall done rest,
  map fst o = map fst rest ->
  NoDup (map fst (done ++ rest)) ->
  fold_left (fun a kv => obj_set a (fst kv) (snd kv)) o (done ++ rest) = done ++ o.
Proof.
  induction o as [|[k v] o IH]; intros done rest Hkeys Hnd.
  - destruct rest; [reflexivity|discriminate].
  - destruct rest as [|[k0 v0] rest]; [discriminate|].
    simpl in Hkeys. injection Hkeys as <- Hkeys. cbn [fold_left fst snd].
    assert (Hnin : ~ In k (map fst done)).
    { rewrite map_app in Hnd. apply NoDup_app in Hnd as (_ & Hdis & _).
      intros Hin. apply list_elem_of_In in Hin. apply (Hdis k Hin). left. }
    rewrite (obj_set_app_notin done _ k v Hnin). cbn [obj_set].
    rewrite String.eqb_refl.
    change (done ++ (k, v) :: rest) with (done ++ [(k, v)] ++ rest).
    rewrite app_assoc, IH.
    + rewrite <- app_assoc. reflexivity.
    + exact Hkeys.
    + rewrite <- app_assoc. cbn [app]. rewrite map_app in Hnd |- *. exact Hnd.
Qed.

(** A record that [loadSettings] gives back as it is: its properties start
    with those of [DEFAULTS], in their order, and its theme is no legacy
    name. *)
Definition persistent (s : list (string * json)) : Prop :=
  wfb (JObj s) = true
  /\ (exists extra, map fst s = map fst DEFAULTS ++ extra)
  /\ (exists key, to_string_opt (obj_get s "theme") = Ok key
                  /\ lookup_table THEME_MIGRATION key = None).

Lemma spread_defaults s : persistent s -> spread DEFAULTS (Some (JObj s)) = s.
Proof.
  intros (Hwf & (extra & Hkeys) & _).
  apply map_eq_app in Hkeys as (s1 & s2 & -> & Hk1 & Hk2).
  assert (Hnd : NoDup (map fst (s1 ++ s2))).
  { simpl in Hwf. apply andb_prop in Hwf as [Hwf _]. apply nodupb_NoDup, Hwf. }
  unfold spread. cbn [own_entries]. rewrite fold_left_app.
  assert (Hd : NoDup (map fst ([] ++ DEFAULTS))) by (apply nodupb_NoDup; reflexivity).
  pose proof (fold_set_aligned s1 [] DEFAULTS Hk1 Hd) as Hal. cbn [app] in Hal.
  rewrite Hal. apply fold_set_fresh, Hnd.
Qed.

Lemma keys_extend_set (base : list string) o k v :
  (exists extra, map fst o = base ++ extra) ->
  exists extra, map fst (obj_set o k v) = base ++ extra.
Proof.
  intros (extra & Hkeys). rewrite obj_set_keys, Hkeys.
  destruct (existsb _ _); [eauto|]. exists (extra ++ [k]). symmetry. apply app_assoc.
Qed.

Lemma keys_extend_spread base v :
  exists extra, map fst (spread base (Some v)) = map fst base ++ extra.
Proof.
  unfold spread.
  assert (H : forall entries acc,
            (exists extra, map fst acc = map fst base ++ extra) ->
            exists extra,
              map fst (fold_left (fun a kv => obj_set a (fst kv) (snd kv)) entries acc)
              = map fst base ++ extra).
  { induction entries as [|[k x] entries IH]; intros acc Hacc; [exact Hacc|].
    cbn [fold_left]. apply IH, keys_extend_set, Hacc. }
  apply H. exists []. rewrite app_nil_r. reflexivity.
Qed.

Lemma loaded_persistent w : persistent (loaded w).
Proof.
  assert (Hdefaults : persistent DEFAULTS).
  { split; [reflexivity|]. split; [exists []; reflexivity|].
    exists "white". split; reflexivity. }
  split; [apply loaded_wf|]. unfold loaded.
  destruct (stored w STORAGE_KEY) as [text|]; [|apply Hdefaults].
  destruct (JSON_parse text) as [v|e]; [|apply Hdefaults]. cbv zeta.
  destruct (to_string_opt (obj_get (spread DEFAULTS (Some v)) "theme")) as [key|e] eqn:Ek;
    [|apply Hdefaults].
  destruct (lookup_table THEME_MIGRATION key) as [theme|] eqn:El.
  - split; [apply keys_extend_set, keys_extend_spread|].
    exists theme. rewrite obj_get_set_eq. split; [reflexivity|].
    simpl in El.
    repeat match type of El with
           | (if ?b then _ else _) = _ => destruct b; [injection El as <-; reflexivity|]
           end.
    discriminate.
  - split; [apply keys_extend_spread|]. exists key. auto.
Qed.

Lemma persistent_set s k v :
  persistent s -> wfb v = true -> k <> "theme" -> persistent (obj_set s k v).
Proof.
  intros (Hwf & Hkeys & Htheme) Hv Hk. split; [apply wfb_obj_set; assumption|].
  split; [apply keys_extend_set, Hkeys|]. rewrite obj_get_set_ne by exact Hk. exact Htheme.
Qed.

Lemma persistent_set_theme s t :
  persistent s -> lookup_table THEME_MIGRATION t = None ->
  persistent (obj_set s "theme" (JStr t)).
Proof.
  intros (Hwf & Hkeys & _) Ht. split; [apply wfb_obj_set; [exact Hwf|reflexivity]|].
  split; [apply keys_extend_set, Hkeys|]. exists t. rewrite obj_get_set_eq. auto.
Qed.

Lemma loaded_saved w s :
  stored w STORAGE_KEY = Some (JSON_stringify (JObj s)) -> persistent s -> loaded w = s.
Proof.
  intros Hs Hp. unfold loaded. rewrite Hs.
  rewrite (JSON_parse_stringify (JObj s)) by apply Hp. cbv zeta.
  rewrite (spread_defaults s Hp). destruct Hp as (_ & _ & key & -> & ->). reflexivity.
Qed.

(** What [applySettings] does to the [data-theme] attribute *)
Lemma applySettings_data_theme settings w t :
  obj_get settings "theme" = Some (JStr t) ->
  exists r root',
    applySettings settings w = (r, {| storage := storage w; root := root' |})
    /\ (r = Ok tt \/ r = Throw TypeError)
    /\ data_theme root' = if String.eqb t "white" then None else Some t.
Proof.
  intros Ht. unfold applySettings. rewrite Ht. cbn [strict_eq to_string_opt to_string].
  unfold mbind, M_bind, lift, setProperty, set_data_theme.
  destruct (String.eqb t "white");
    repeat match goal with
           | |- context [to_string_opt ?v] =>
               let E := fresh "E" in
               destruct (to_string_opt v) eqn:E;
               [|apply to_string_opt_throws in E; subst]
           end; cbn; eauto 10.
Qed.


Lemma saveSettings_effect settings w m t :
  storage w = Items m ->
  obj_get settings "theme" = Some (JStr t) ->
  exists r w',
    saveSettings settings w = (r, w')
    /\ (r = Ok tt \/ r = Throw TypeError)
    /\ stored w' STORAGE_KEY = Some (JSON_stringify (JObj settings))
    /\ (exists m', storage w' = Items m')
    /\ data_theme (root w') = if String.eqb t "white" then None else Some t.
Proof.
  intros Hm Ht. unfold saveSettings, mbind, M_bind, setItem. rewrite Hm.
  destruct (applySettings_data_theme settings
              {| storage := Items (<[STORAGE_KEY:=JSON_stringify (JObj settings)]> m);
                 root := root w |} t Ht) as (r & root' & E & Hr & Htheme).
  rewrite E. exists r. eexists. split; [reflexivity|]. split; [exact Hr|].
  split; [unfold stored; cbn; apply lookup_insert_eq|].
  split; [eexists; reflexivity|exact Htheme].
Qed.

(** *** Cycling the theme *)

(** The theme after the current one: [white], [tan], [grey], [black] and
    [white] again; [white] after anything else *)
Definition next_theme (current : option json) : string :=
  match current with
  | Some (JStr t) =>
      if String.eqb t "white" then "tan"
      else if String.eqb t "tan" then "grey"
      else if String.eqb t "grey" then "black"
      else "white"
  | _ => "white"
  end.

Lemma cycle_next current :
  nth (Z.to_nat ((indexOf themes current + 1) mod Z.of_nat (length themes))) themes "white"
  = next_theme current.
Proof.
  destruct current as [[ | | |t| | ]|]; try reflexivity.
  unfold next_theme, themes, indexOf, strict_eq.
  destruct (String.eqb t "white"); [reflexivity|].
  destruct (String.eqb t "tan"); [reflexivity|].
  destruct (String.eqb t "grey"); [reflexivity|].
  destruct (String.eqb t "black"); reflexivity.
Qed.

Lemma next_theme_current current : lookup_table THEME_MIGRATION (next_theme current) = None.
Proof.
  destruct current as [[ | | |t| | ]|]; try reflexivity. unfold next_theme.
  destruct (String.eqb t "white"); [reflexivity|].
  destruct (String.eqb t "tan"); [reflexivity|].
  destruct (String.eqb t "grey"); reflexivity.
Qed.

Lemma cycleTheme_step w m :
  storage w = Items m ->
  exists r w',
    cycleTheme w = (r, w')
    /\ (r = Ok (loaded w') \/ r = Throw TypeError)
    /\ loaded w' = obj_set (loaded w) "theme"
                     (JStr (next_theme (obj_get (loaded w) "theme")))
    /\ data_theme (root w')
       = (if String.eqb (next_theme (obj_get (loaded w) "theme")) "white" then None
          else Some (next_theme (obj_get (loaded w) "theme")))
    /\ (exists m', storage w' = Items m').
Proof.
  intros Hm. unfold cycleTheme, mbind, M_bind. rewrite loadSettings_loaded. cbv zeta.
  rewrite cycle_next.
  set (next := next_theme (obj_get (loaded w) "theme")).
  set (s' := obj_set (loaded w) "theme" (JStr next)).
  destruct (saveSettings_effect s' w m next Hm (obj_get_set_eq _ _ _))
    as (r & w' & Esave & Hr & Hstored & Hm' & Htheme).
  assert (Hp : persistent s').
  { apply persistent_set_theme; [apply loaded_persistent|apply next_theme_current]. }
  assert (Hl : loaded w' = s') by exact (loaded_saved w' s' Hstored Hp).
  rewrite Esave.
  exists (match r with Ok _ => Ok s' | Throw e => Throw e end), w'.
  split; [destruct r; reflexivity|].
  split; [destruct Hr as [-> | ->]; [left; rewrite Hl; reflexivity|right; reflexivity]|].
  auto.
Qed.

(** [cycleTheme] on an accessible storage: the theme of the loaded record
    moves one step along [white], [tan], [grey], [black], from [black] and
    from any other value to [white]; the other preferences stay; the new
    record is stored, so that the next [loadSettings] returns it; and the
    [data-theme] attribute of the root is removed for [white] and set to the
    theme otherwise, also when applying the rest of the record fails. *)
Theorem cycleTheme_advances w m :
  storage w = Items m ->
  exists r w',
    cycleTheme w = (r, w')
    /\ (r = Ok (obj_set (loaded w) "theme"
                  (JStr (next_theme (obj_get (loaded w) "theme"))))
        \/ r = Throw TypeError)
    /\ loadSettings w'
       = (Ok (obj_set (loaded w) "theme"
                (JStr (next_theme (obj_get (loaded w) "theme")))), w')
    /\ (forall field, field <> "theme" ->
          obj_get (loaded w') field = obj_get (loaded w) field)
    /\ obj_get (loaded w') "theme"
       = Some (JStr (next_theme (obj_get (loaded w) "theme")))
    /\ data_theme (root w')
       = (if String.eqb (next_theme (obj_get (loaded w) "theme")) "white" then None
          else Some (next_theme (obj_get (loaded w) "theme"))).
Proof.
  intros Hm. destruct (cycleTheme_step w m Hm) as (r & w' & E & Hr & Hl & Htheme & _).
  exists r, w'. split; [exact E|].
  split; [rewrite <- Hl; exact Hr|].
  split; [rewrite loadSettings_loaded, Hl; reflexivity|].
  split; [intros field Hf; rewrite Hl; apply obj_get_set_ne; congruence|].
  split; [rewrite Hl; apply obj_get_set_eq|exact Htheme].
Qed.

Lemma cycleTheme_advances_witness :
  exists r w',
    cycleTheme page_with_purple_theme = (r, w')
    /\ loadSettings w'
       = (Ok (obj_set (loaded page_with_purple_theme) "theme" (JStr "white")), w')
    /\ obj_get (loaded w') "theme" = Some (JStr "white")
    /\ data_theme (root w') = None.
Proof.
  destruct (cycleTheme_advances page_with_purple_theme _ eq_refl)
    as (r & w' & H1 & _ & H3 & _ & H5 & H6).
  exists r, w'. repeat (split; [assumption|]). assumption.
Defined.

(** The state after a press of the key [d] *)
Definition after_cycle (w : world) : world := snd (cycleTheme w).

(** Four calls of [cycleTheme] on an accessible storage bring a theme of
    the cycle back to itself, after three other themes. *)
Theorem cycleTheme_four_times w m t :
  storage w = Items m ->
  obj_get (loaded w) "theme" = Some (JStr t) ->
  In t themes ->
  obj_get (loaded (after_cycle (after_cycle (after_cycle (after_cycle w))))) "theme"
  = Some (JStr t)
  /\ obj_get (loaded (after_cycle w)) "theme" <> Some (JStr t)
  /\ obj_get (loaded (after_cycle (after_cycle w))) "theme" <> Some (JStr t)
  /\ obj_get (loaded (after_cycle (after_cycle (after_cycle w)))) "theme" <> Some (JStr t).
Proof.
  intros Hm Ht Hin.
  assert (Hstep : forall w0, (exists m0, storage w0 = Items m0) ->
            obj_get (loaded (after_cycle w0)) "theme"
            = Some (JStr (next_theme (obj_get (loaded w0) "theme")))
            /\ exists m1, storage (after_cycle w0) = Items m1).
  { intros w0 [m0 Hm0]. unfold after_cycle.
    destruct (cycleTheme_step w0 m0 Hm0) as (r & w' & E & _ & Hl & _ & Hm').
    rewrite E. cbn [snd]. rewrite Hl, obj_get_set_eq. auto. }
  destruct (Hstep w (ex_intro _ m Hm)) as [H1 Hm1].
  destruct (Hstep _ Hm1) as [H2 Hm2].
  destruct (Hstep _ Hm2) as [H3 Hm3].
  destruct (Hstep _ Hm3) as [H4 _].
  rewrite H4, H3, H2, H1, Ht.
  simpl in Hin. destruct Hin as [<-|[<-|[<-|[<-|[]]]]];
    repeat split; try reflexivity; discriminate.
Qed.


Lemma cycleTheme_four_times_witness :
  obj_get (loaded (after_cycle (after_cycle (after_cycle
             (after_cycle page_with_light_theme))))) "theme" = Some (JStr "white")
  /\ obj_get (loaded (after_cycle page_with_light_theme)) "theme" <> Some (JStr "white")
  /\ obj_get (loaded (after_cycle (after_cycle page_with_light_theme))) "theme"
     <> Some (JStr "white")
  /\ obj_get (loaded (after_cycle (after_cycle (after_cycle page_with_light_theme))))
       "theme" <> Some (JStr "white").
Proof.
  apply (cycleTheme_four_times page_with_light_theme
           {[ STORAGE_KEY := JSON_stringify (JObj [("theme", JStr "light")]) ]} "white").
  - reflexivity.
  - vm_compute. reflexivity.
  - left. reflexivity.
Defined.

(** *** Adjusting the font size again and again *)

Definition clamp_level (n : Z) : Z := Z.max 0 (Z.min 4 n).

Lemma adjustFontSize_step w m n delta :
  storage w = Items m ->
  obj_get (loaded w) "fontSize" = Some (JNum n) ->
  exists r w',
    adjustFontSize delta w = Some (r, w')
    /\ (r = Ok (loaded w') \/ r = Throw TypeError)
    /\ loaded w' = obj_set (loaded w) "fontSize" (JNum (clamp_level (n + delta)))
    /\ (exists m', storage w' = Items m').
Proof.
  intros Hm Hn. unfold adjustFontSize. rewrite loadSettings_loaded, Hn. cbn [add_level].
  fold (clamp_level (n + delta)).
  set (s' := obj_set (loaded w) "fontSize" (JNum (clamp_level (n + delta)))).
  destruct (loaded_persistent w) as (Hwf & Hkeys & key & Hkey & Hnone).
  assert (Hp : persistent s').
  { apply persistent_set; [apply loaded_persistent|reflexivity|discriminate]. }
  destruct (saveSettings_outcome s' w m Hm) as (r & w' & Esave & Hr & Hstored).
  assert (Hl : loaded w' = s') by exact (loaded_saved w' s' Hstored Hp).
  assert (Hm' : exists m', storage w' = Items m').
  { unfold stored in Hstored. destruct (storage w'); [discriminate|eauto]. }
  unfold mbind, M_bind, mret, M_ret. rewrite Esave.
  exists (match r with Ok _ => Ok s' | Throw e => Throw e end), w'.
  split; [destruct r; reflexivity|].
  split; [destruct Hr as [-> | ->]; [left; rewrite Hl; reflexivity|right; reflexivity]|].
  auto.
Qed.

(** *** Claim C6 *)

Lemma primitive_to_string v : primitive v = true -> exists k, to_string_opt v = Ok k.
Proof.
  destruct v as [[ |[|]| | | | ]|]; simpl; intros H; try discriminate; eauto.
Qed.

Lemma lookup_array_to_string table key :
  exists k, to_string_opt (lookup_array table key) = Ok k.
Proof.
  unfold lookup_array, indexed_get.
  destruct (String.eqb key "length"); [simpl; eauto|].
  destruct (array_index key) as [i|]; [|simpl; eauto]. cbn [mbind option_bind].
  destruct (nth_error (map JStr table) i) as [v|] eqn:E; [|simpl; eauto].
  apply nth_error_In, in_map_iff in E as (x & <- & _). simpl. eauto.
Qed.

(** [applySettings] returns normally on primitive preferences. *)
Lemma applySettings_applicable s w :
  applicable s = true ->
  exists root', applySettings s w = (Ok tt, {| storage := storage w; root := root' |}).
Proof.
  unfold applicable. cbn [forallb]. rewrite !andb_true_iff.
  intros (Ht & Hf & Hs & Hh & Hw & _).
  destruct (primitive_to_string _ Ht) as (kt & Et).
  destruct (primitive_to_string _ Hf) as (kf & Ef).
  destruct (primitive_to_string _ Hs) as (ks & Es).
  destruct (primitive_to_string _ Hh) as (kh & Eh).
  destruct (primitive_to_string _ Hw) as (kw & Ew).
  destruct (lookup_array_to_string FONT_SIZES ks) as (vs & Evs).
  destruct (lookup_array_to_string LINE_HEIGHTS kh) as (vh & Evh).
  unfold applySettings, mbind, M_bind, lift, setProperty, set_data_theme.
  rewrite Et, Ef, Es, Eh, Ew.
  destruct (strict_eq (obj_get s "theme") "white"); cbn; rewrite Evs; cbn; rewrite Evh;
    cbn; eauto.
Qed.

(** The levels of a persisted record reach the loaded record as they are. *)
Lemma loaded_level w text o field :
  stored w STORAGE_KEY = Some text ->
  JSON_parse text = Ok (JObj o) ->
  string_or_missing (obj_get o "theme") = true ->
  field <> "theme" ->
  obj_get (loaded w) field
  = match obj_get o field with
    | Some level => Some level
    | None => obj_get DEFAULTS field
    end.
Proof.
  intros Hs Hp Ht Hf. unfold loaded. rewrite Hs, Hp. cbv zeta.
  assert (Hnd : NoDup (map fst o)).
  { apply JSON_parse_wf in Hp. simpl in Hp. apply andb_prop in Hp as [Hp _].
    apply nodupb_NoDup, Hp. }
  assert (Hkey : exists key,
            to_string_opt (obj_get (spread DEFAULTS (Some (JObj o))) "theme") = Ok key).
  { rewrite (spread_get_obj DEFAULTS o "theme" Hnd).
    destruct (obj_get o "theme") as [[ | | |t| | ]|]; try discriminate; simpl; eauto. }
  destruct Hkey as (key & ->).
  destruct (lookup_table THEME_MIGRATION key).
  - rewrite obj_get_set_ne by congruence. apply spread_get_obj, Hnd.
  - apply spread_get_obj, Hnd.
Qed.

(** C6, as amended.  [loadSettings] does not clamp: of a persisted object
    whose theme is a string or missing it returns the font-size and the
    line-height level as they are, and the defaults where they are missing.
    [adjustFontSize(delta)] clamps: when the loaded font-size level is a
    number [n] and the theme is no name inherited from [Object.prototype],
    it sets the level to [n + delta] clamped to 0..4 and leaves the other
    preferences; the record with that level is written to the storage, the
    next [loadSettings] returns it, and [adjustFontSize] returns it unless
    applying the styles throws, which it does not on primitive
    preferences. *)
Theorem adjustFontSize_clamps w m delta :
  storage w = Items m ->
  (forall text o,
     m !! STORAGE_KEY = Some text ->
     JSON_parse text = Ok (JObj o) ->
     string_or_missing (obj_get o "theme") = true ->
     exists s,
       loadSettings w = (Ok s, w) /\
       forall field, In field ["fontSize"; "lineHeight"] ->
         obj_get s field = match obj_get o field with
                           | Some level => Some level
                           | None => obj_get DEFAULTS field
                           end) /\
  (forall s n,
     loadSettings w = (Ok s, w) ->
     obj_get s "fontSize" = Some (JNum n) ->
     own_theme s = true ->
     let level := Z.max 0 (Z.min 4 (n + delta)) in
     let s' := obj_set s "fontSize" (JNum level) in
     exists r w',
       adjustFontSize delta w = Some (r, w') /\
       (r = Ok s' \/ r = Throw TypeError) /\
       (applicable s = true -> r = Ok s') /\
       stored w' STORAGE_KEY = Some (JSON_stringify (JObj s')) /\
       loadSettings w' = (Ok s', w') /\
       obj_get s' "fontSize" = Some (JNum level) /\
       level_in_range 0 4 (obj_get s' "fontSize") /\
       (forall field, field <> "fontSize" -> obj_get s' field = obj_get s field)).
Proof.
  intros Hm. split.
  - intros text o Htext Hp Ht. exists (loaded w). split; [apply loadSettings_loaded|].
    assert (Hs : stored w STORAGE_KEY = Some text) by (unfold stored; rewrite Hm; exact Htext).
    intros field [<-|[<-|[]]]; apply (loaded_level w text o); auto; discriminate.
  - intros s n Hload Hlevel _ level s'.
    rewrite loadSettings_loaded in Hload. injection Hload as <-.
    destruct (adjustFontSize_step w m n delta Hm Hlevel)
      as (r & w' & E & Hr & Hl & m' & Hm').
    change (loaded w' = s') in Hl.
    assert (Hget : obj_get s' "fontSize" = Some (JNum level)) by apply obj_get_set_eq.
    assert (Hstored : stored w' STORAGE_KEY = Some (JSON_stringify (JObj s'))).
    { revert E. unfold adjustFontSize. rewrite loadSettings_loaded, Hlevel.
      cbn [add_level]. fold level. fold s'.
      destruct (saveSettings_outcome s' w m Hm) as (r0 & w0 & Esave & _ & Hst).
      unfold mbind, M_bind, mret, M_ret. rewrite Esave.
      destruct r0; intros E; injection E as _ <-; exact Hst. }
    exists r, w'. split; [exact E|].
    split; [rewrite Hl in Hr; exact Hr|].
    split.
    { intros Happ. revert E. unfold adjustFontSize. rewrite loadSettings_loaded, Hlevel.
      cbn [add_level]. fold level. fold s'.
      assert (Happ' : applicable s' = true).
      { revert Happ. unfold applicable. cbn [forallb]. subst s'.
        rewrite (obj_get_set_ne _ "fontSize" "theme"),
          (obj_get_set_ne _ "fontSize" "fontFamily"),
          (obj_get_set_ne _ "fontSize" "lineHeight"),
          (obj_get_set_ne _ "fontSize" "contentWidth") by discriminate.
        rewrite obj_get_set_eq. cbn [primitive].
        rewrite !andb_true_iff. intuition auto. }
      unfold saveSettings, mbind, M_bind, mret, M_ret, setItem. rewrite Hm.
      destruct (applySettings_applicable s'
                  {| storage := Items (<[STORAGE_KEY := JSON_stringify (JObj s')]> m);
                     root := root w |} Happ') as (root' & ->).
      intros E. injection E as <- _. reflexivity. }
    split; [exact Hstored|].
    split; [rewrite <- Hl; apply loadSettings_loaded|].
    split; [exact Hget|].
    split; [exists level; split; [exact Hget|unfold level; lia]|].
    intros field Hf. apply obj_get_set_ne. congruence.
Qed.

(** [adjustFontSize(-10)] from the default level 2 returns the record with
    the level 0, which the next [loadSettings] returns as well. *)
Lemma adjustFontSize_clamps_witness :
  exists w',
    adjustFontSize (-10) (page ∅)
    = Some (Ok (obj_set DEFAULTS "fontSize" (JNum 0)), w') /\
    stored w' STORAGE_KEY
    = Some (JSON_stringify (JObj (obj_set DEFAULTS "fontSize" (JNum 0)))) /\
    loadSettings w' = (Ok (obj_set DEFAULTS "fontSize" (JNum 0)), w') /\
    level_in_range 0 4 (obj_get (obj_set DEFAULTS "fontSize" (JNum 0)) "fontSize").
Proof.
  assert (Hdefaults : loadSettings (page ∅) = (Ok DEFAULTS, page ∅))
    by (vm_compute; reflexivity).
  destruct (proj2 (adjustFontSize_clamps (page ∅) ∅ (-10) eq_refl)
              DEFAULTS 2%Z Hdefaults eq_refl eq_refl)
    as (r & w' & E & _ & Happ & Hstored & Hload & _ & Hrange & _).
  rewrite (Happ eq_refl) in E. exists w'. auto.
Defined.

(** Two calls of [adjustFontSize] on an accessible storage whose font-size
    level is a number and whose theme is no name inherited from
    [Object.prototype]: the second call starts from the level the first one
    stored, so the level ends at the clamped sum of the clamped sum; the
    next [loadSettings] returns it, with the other preferences as they
    were.  At the upper bound a further step up changes nothing. *)
Theorem adjustFontSize_twice w m n delta1 delta2 :
  storage w = Items m ->
  obj_get (loaded w) "fontSize" = Some (JNum n) ->
  own_theme (loaded w) = true ->
  exists r1 w1 r2 w2 s2,
    adjustFontSize delta1 w = Some (r1, w1)
    /\ adjustFontSize delta2 w1 = Some (r2, w2)
    /\ loadSettings w2 = (Ok s2, w2)
    /\ obj_get s2 "fontSize"
       = Some (JNum (clamp_level (clamp_level (n + delta1) + delta2)))
    /\ (forall field, field <> "fontSize" -> obj_get s2 field = obj_get (loaded w) field)
    /\ (clamp_level (n + delta1) = 4%Z -> (0 <= delta2)%Z ->
        obj_get s2 "fontSize" = Some (JNum 4)).
Proof.
  intros Hm Hn _.
  destruct (adjustFontSize_step w m n delta1 Hm Hn) as (r1 & w1 & E1 & _ & Hl1 & m1 & Hm1).
  assert (Hn1 : obj_get (loaded w1) "fontSize" = Some (JNum (clamp_level (n + delta1))))
    by (rewrite Hl1; apply obj_get_set_eq).
  destruct (adjustFontSize_step w1 m1 _ delta2 Hm1 Hn1) as (r2 & w2 & E2 & _ & Hl2 & _).
  exists r1, w1, r2, w2, (loaded w2).
  split; [exact E1|]. split; [exact E2|]. split; [apply loadSettings_loaded|].
  assert (Hlevel : obj_get (loaded w2) "fontSize"
                   = Some (JNum (clamp_level (clamp_level (n + delta1) + delta2))))
    by (rewrite Hl2; apply obj_get_set_eq).
  split; [exact Hlevel|]. split.
  - intros field Hf. rewrite Hl2, obj_get_set_ne by congruence.
    rewrite Hl1. apply obj_get_set_ne. congruence.
  - intros Hmax Hup. rewrite Hlevel, Hmax. unfold clamp_level. do 2 f_equal. lia.
Qed.

Lemma adjustFontSize_twice_witness :
  exists r1 w1 r2 w2 s2,
    adjustFontSize 3 (page ∅) = Some (r1, w1)
    /\ adjustFontSize (-1) w1 = Some (r2, w2)
    /\ loadSettings w2 = (Ok s2, w2)
    /\ obj_get s2 "fontSize" = Some (JNum 3)
    /\ (forall field, field <> "fontSize" -> obj_get s2 field = obj_get DEFAULTS field).
Proof.
  assert (Hn : obj_get (loaded (page ∅)) "fontSize" = Some (JNum 2))
    by (vm_compute; reflexivity).
  assert (Ht : own_theme (loaded (page ∅)) = true) by (vm_compute; reflexivity).
  destruct (adjustFontSize_twice (page ∅) ∅ 2 3 (-1) eq_refl Hn Ht)
    as (r1 & w1 & r2 & w2 & s2 & H1 & H2 & H3 & H4 & H5 & _).
  exists r1, w1, r2, w2, s2. repeat (split; [assumption|]). assumption.
Defined.


(** *** The look that [applySettings] sets *)

(** For a record with a theme, a font family and a content width of the
    tables and levels within the bounds, [applySettings] returns normally,
    leaves the storage alone, removes [data-theme] for [white] and sets it
    to the theme otherwise, and sets the four custom properties to the
    entries of the tables, leaving every other property of the root. *)
Theorem applySettings_sets_look settings w t family size height width font max_width :
  obj_get settings "theme" = Some (JStr t) ->
  obj_get settings "fontFamily" = Some (JStr family) ->
  lookup_table FONT_FAMILIES family = Some font ->
  obj_get settings "fontSize" = Some (JNum size) ->
  (0 <= size <= 4)%Z ->
  obj_get settings "lineHeight" = Some (JNum height) ->
  (0 <= height <= 2)%Z ->
  obj_get settings "contentWidth" = Some (JStr width) ->
  lookup_table MAX_WIDTHS width = Some max_width ->
  exists w',
    applySettings settings w = (Ok tt, w')
    /\ storage w' = storage w
    /\ data_theme (root w') = (if String.eqb t "white" then None else Some t)
    /\ custom_properties (root w')
       = <["--reader-max-width" := max_width]>
           (<["--reader-line-height" := nth (Z.to_nat height) LINE_HEIGHTS EmptyString]>
              (<["--reader-font-size" := nth (Z.to_nat size) FONT_SIZES EmptyString]>
                 (<["--reader-font-family" := font]> (custom_properties (root w))))).
Proof.
  intros Ht Hfamily Hfont Hsize Hs Hheight Hh Hwidth Hmax.
  assert (Esize : to_string_opt (lookup_array FONT_SIZES (show_Z size))
                  = Ok (nth (Z.to_nat size) FONT_SIZES EmptyString)).
  { assert (Hcases : (size = 0 \/ size = 1 \/ size = 2 \/ size = 3 \/ size = 4)%Z) by lia.
    destruct Hcases as [->|[->|[->|[->| ->]]]]; reflexivity. }
  assert (Eheight : to_string_opt (lookup_array LINE_HEIGHTS (show_Z height))
                    = Ok (nth (Z.to_nat height) LINE_HEIGHTS EmptyString)).
  { assert (Hcases : (height = 0 \/ height = 1 \/ height = 2)%Z) by lia.
    destruct Hcases as [->|[->| ->]]; reflexivity. }
  unfold applySettings, mbind, M_bind, lift, setProperty, set_data_theme.
  rewrite Ht, Hfamily, Hsize, Hheight, Hwidth.
  cbn [strict_eq to_string_opt to_string]. rewrite Hfont, Hmax, Esize, Eheight.
  destruct (String.eqb t "white"); cbn; eexists; repeat split; reflexivity.
Qed.

Lemma applySettings_sets_look_witness :
  exists w',
    applySettings DEFAULTS (page ∅) = (Ok tt, w')
    /\ storage w' = storage (page ∅)
    /\ data_theme (root w') = None
    /\ custom_properties (root w')
       = <["--reader-max-width" := "65ch"]>
           (<["--reader-line-height" := "1.7"]>
              (<["--reader-font-size" := "18px"]>
                 (<["--reader-font-family" := "system-ui, -apple-system, sans-serif"]>
                    (custom_properties (root (page ∅)))))).
Proof.
  apply (applySettings_sets_look DEFAULTS (page ∅) "white" "sans" 2 1 "medium"
           "system-ui, -apple-system, sans-serif" "65ch");
    first [reflexivity | lia].
Defined.


(** *** Saving and loading a record *)

(** What [saveSettings] stored is what [loadSettings] returns, for a record
    that has the five preferences and a current theme: every property of
    the loaded record is the property of the saved one, also when applying
    the record failed after it was stored. *)
Theorem saveSettings_round_trip w m settings t :
  storage w = Items m ->
  wfb (JObj settings) = true ->
  (forall k, In k (map fst DEFAULTS) -> obj_get settings k <> None) ->
  obj_get settings "theme" = Some (JStr t) ->
  In t themes ->
  exists r w' loaded_settings,
    saveSettings settings w = (r, w')
    /\ (r = Ok tt \/ r = Throw TypeError)
    /\ loadSettings w' = (Ok loaded_settings, w')
    /\ (forall field, obj_get loaded_settings field = obj_get settings field).
Proof.
  intros Hm Hwf Hall Htheme Hin.
  destruct (saveSettings_outcome settings w m Hm) as (r & w' & Esave & Hr & Hstored).
  exists r, w', (loaded w'). split; [exact Esave|]. split; [exact Hr|].
  split; [apply loadSettings_loaded|].
  assert (Hnd : NoDup (map fst settings)).
  { simpl in Hwf. apply andb_prop in Hwf as [Hwf _]. apply nodupb_NoDup, Hwf. }
  assert (Hget : forall field,
            obj_get (spread DEFAULTS (Some (JObj settings))) field
            = obj_get settings field).
  { intros field. rewrite (spread_get_obj DEFAULTS settings field Hnd).
    destruct (obj_get settings field) as [v|] eqn:E; [reflexivity|].
    destruct (obj_get DEFAULTS field) as [v|] eqn:Ed; [|reflexivity].
    exfalso. apply (Hall field); [|exact E].
    clear -Ed. induction DEFAULTS as [|[k0 v0] o IH]; [discriminate|].
    simpl in *. destruct (String.eqb_spec k0 field); [left; assumption|right; auto]. }
  unfold loaded. rewrite Hstored, (JSON_parse_stringify (JObj settings) Hwf). cbv zeta.
  rewrite (Hget "theme"), Htheme. cbn [to_string_opt to_string].
  assert (Hnone : lookup_table THEME_MIGRATION t = None).
  { simpl in Hin. destruct Hin as [<-|[<-|[<-|[<-|[]]]]]; reflexivity. }
  rewrite Hnone. exact Hget.
Qed.

Lemma saveSettings_round_trip_witness :
  exists r w' loaded_settings,
    saveSettings
      [("contentWidth", JStr "wide"); ("lineHeight", JNum 2); ("fontSize", JNum 4);
       ("fontFamily", JStr "serif"); ("theme", JStr "grey")] (page ∅) = (r, w')
    /\ (r = Ok tt \/ r = Throw TypeError)
    /\ loadSettings w' = (Ok loaded_settings, w')
    /\ (forall field,
          obj_get loaded_settings field
          = obj_get [("contentWidth", JStr "wide"); ("lineHeight", JNum 2);
                     ("fontSize", JNum 4); ("fontFamily", JStr "serif");
                     ("theme", JStr "grey")] field).
Proof.
  apply (saveSettings_round_trip (page ∅) ∅ _ "grey").
  - reflexivity.
  - reflexivity.
  - intros k Hk. simpl in Hk.
    destruct Hk as [<-|[<-|[<-|[<-|[<-|[]]]]]]; discriminate.
  - reflexivity.
  - right. right. left. reflexivity.
Defined.

End ReaderSettings.

(** ** Progress Store: [src/scripts/reading-history.ts] *)

Module ReadingHistory.
Import Json Js Browser.

Definition HISTORY_KEY : string := "pg-reading-history".

Definition getHistory : M json :=
  try_catchM
    (item ← getItem HISTORY_KEY; lift (JSON_parse (or_empty_object item)))
    (mret (JObj [])).

Definition saveHistory (history : json) : M unit :=
  setItem HISTORY_KEY (JSON_stringify history).

(** [now] is the reading of the clock, [new Date().toISOString()]. *)
Definition markAsRead (slug : string) (wordCount : Z) (now : string) : M unit :=
  history ← getHistory;
  old ← lift (get_member history slug);
  let record :=
    obj_set (obj_set (obj_set (spread [] old)
      "read" (JBool true))
      "lastReadAt" (JStr now))
      "wordCount" (JNum wordCount) in
  history ← lift (assign_record history slug record);
  saveHistory history.

Definition saveScrollPosition (slug : string) (position : Z) (now : string) : M unit :=
  history ← getHistory;
  old ← lift (get_member history slug);
  let record :=
    obj_set (obj_set (obj_set (obj_set (spread [] old)
      "scrollPosition" (JNum position))
      "read" (or_else (get_member_opt old "read") (JBool false)))
      "lastReadAt" (or_else (get_member_opt old "lastReadAt") (JStr now)))
      "wordCount" (or_else (get_member_opt old "wordCount") (JNum 0)) in
  history ← lift (assign_record history slug record);
  saveHistory history.

Definition getScrollPosition (slug : string) : M json :=
  history ← getHistory;
  old ← lift (get_member history slug);
  mret (or_else (get_member_opt old "scrollPosition") (JNum 0)).

Definition isRead (slug : string) : M json :=
  history ← getHistory;
  old ← lift (get_member history slug);
  mret (or_else (get_member_opt old "read") (JBool false)).

(** [scrollY / scrollable > 0.9], on integers: the quotient of a division by
    zero is an infinity or NaN.  The rounding of the floating-point quotient
    is not part of the embedding. *)
Definition exceeds_90_percent (scrollY scrollable : Z) : bool :=
  if (scrollable =? 0)%Z then (0 <? scrollY)%Z
  else if (0 <? scrollable)%Z then (9 * scrollable <? 10 * scrollY)%Z
  else (10 * scrollY <? 9 * scrollable)%Z.

(** One frame of the scroll handler that [initScrollTracking] installs *)
Definition scroll_frame (slug : string) (wordCount : Z)
    (scrollY scrollHeight innerHeight : Z) (now : string) : M unit :=
  saveScrollPosition slug scrollY now;;
  (* Mark as read at 90% scroll *)
  if exceeds_90_percent scrollY (scrollHeight - innerHeight)
  then markAsRead slug wordCount now
  else mret tt.

(** What happens to the store: calls of its operations and scroll frames *)
Inductive event : Type :=
| MarkAsRead (slug : string) (wordCount : Z) (now : string)
| SaveScrollPosition (slug : string) (position : Z) (now : string)
| ScrollFrame (slug : string) (wordCount : Z)
    (scrollY scrollHeight innerHeight : Z) (now : string).

Definition handle (e : event) : M unit :=
  match e with
  | MarkAsRead slug wordCount now => markAsRead slug wordCount now
  | SaveScrollPosition slug position now => saveScrollPosition slug position now
  | ScrollFrame slug wordCount scrollY scrollHeight innerHeight now =>
      scroll_frame slug wordCount scrollY scrollHeight innerHeight now
  end.

(** Events are separate callbacks: each runs on the state the previous left. *)
Fixpoint run_events (es : list event) (w : world) : world :=
  match es with
  | [] => w
  | e :: es' => run_events es' (snd (handle e w))
  end.

(** *** The store as a function of its object *)

(** The record [markAsRead] builds from the old record [old] *)
Definition read_record (old : option json) (wordCount : Z) (now : string)
  : list (string * json) :=
  obj_set (obj_set (obj_set (spread [] old)
    "read" (JBool true))
    "lastReadAt" (JStr now))
    "wordCount" (JNum wordCount).

(** The record [saveScrollPosition] builds from the old record [old] *)
Definition position_record (old : option json) (position : Z) (now : string)
  : list (string * json) :=
  obj_set (obj_set (obj_set (obj_set (spread [] old)
    "scrollPosition" (JNum position))
    "read" (or_else (get_member_opt old "read") (JBool false)))
    "lastReadAt" (or_else (get_member_opt old "lastReadAt") (JStr now)))
    "wordCount" (or_else (get_member_opt old "wordCount") (JNum 0)).

Definition marked (o : list (string * json)) slug wordCount now :=
  obj_set o slug (JObj (read_record (obj_get o slug) wordCount now)).

Definition positioned (o : list (string * json)) slug position now :=
  obj_set o slug (JObj (position_record (obj_get o slug) position now)).

(** The history object after an event, when it was the object [o] before *)
Definition after_event (e : event) (o : list (string * json)) : list (string * json) :=
  match e with
  | MarkAsRead slug wordCount now => marked o slug wordCount now
  | SaveScrollPosition slug position now => positioned o slug position now
  | ScrollFrame slug wordCount scrollY scrollHeight innerHeight now =>
      let o' := positioned o slug scrollY now in
      if exceeds_90_percent scrollY (scrollHeight - innerHeight)
      then marked o' slug wordCount now
      else o'
  end.

(** What [isRead] answers on the history object [o] *)
Definition read_flag (o : list (string * json)) (slug : string) : json :=
  or_else (get_member_opt (obj_get o slug) "read") (JBool false).

(** The storage is accessible and holds the history object [o]. *)
Definition holds (w : world) (o : list (string * json)) : Prop :=
  (exists m, storage w = Items m) /\ getHistory w = (Ok (JObj o), w).

Lemma getHistory_outcome w : exists v, getHistory w = (Ok v, w) /\ wfb v = true.
Proof.
  unfold getHistory, try_catchM, getItem, mbind, M_bind, mret, M_ret, lift.
  destruct (storage w) as [|m]; [exists (JObj []); auto|].
  destruct (JSON_parse (or_empty_object (m !! HISTORY_KEY))) as [v|e] eqn:E.
  - exists v. split; [reflexivity|]. exact (JSON_parse_wf _ _ E).
  - exists (JObj []). auto.
Qed.

Lemma getHistory_saved m rt h :
  wfb h = true ->
  getHistory {| storage := Items (<[HISTORY_KEY := JSON_stringify h]> m); root := rt |}
  = (Ok h, {| storage := Items (<[HISTORY_KEY := JSON_stringify h]> m); root := rt |}).
Proof.
  intros Hwf.
  unfold getHistory, try_catchM, getItem, mbind, M_bind, mret, M_ret, lift.
  cbn [storage]. rewrite lookup_insert_eq. unfold or_empty_object.
  rewrite (JSON_stringify_nonempty h Hwf), (JSON_parse_stringify h Hwf). reflexivity.
Qed.

Lemma holds_wf w o : holds w o -> wfb (JObj o) = true.
Proof.
  intros [_ H]. destruct (getHistory_outcome w) as (v & E & Hwf).
  rewrite E in H. injection H as ->. exact Hwf.
Qed.

Lemma option_wf o k :
  wfb (JObj o) = true ->
  match obj_get o k with Some v => wfb v = true | None => True end.
Proof.
  intros H. destruct (obj_get o k) eqn:E; [|exact I]. exact (obj_get_wf _ _ _ H E).
Qed.

Lemma or_else_wf a b :
  match a with Some v => wfb v = true | None => True end -> wfb b = true ->
  wfb (or_else a b) = true.
Proof. destruct a as [v|]; simpl; [|auto]. destruct (truthy v); auto. Qed.

Lemma indexed_get_wf items k :
  forallb wfb items = true ->
  match indexed_get items k with Some v => wfb v = true | None => True end.
Proof.
  intros H. unfold indexed_get. destruct (String.eqb k "length"); [reflexivity|].
  destruct (array_index k) as [i|]; [|exact I]. simpl.
  destruct (nth_error items i) eqn:E; [|exact I].
  apply nth_error_In in E. rewrite forallb_forall in H. auto.
Qed.

Lemma get_member_opt_wf old k :
  match old with Some v => wfb v = true | None => True end ->
  match get_member_opt old k with Some v => wfb v = true | None => True end.
Proof.
  destruct old as [[ | b | n | s | l | o ]|]; simpl; auto.
  - intros _. apply indexed_get_wf, chars_of_wf.
  - apply indexed_get_wf.
  - intros H. apply option_wf. exact H.
Qed.

Lemma read_record_wf old wordCount now :
  match old with Some v => wfb v = true | None => True end ->
  wfb (JObj (read_record old wordCount now)) = true.
Proof.
  intros H. unfold read_record.
  repeat (apply wfb_obj_set; [|reflexivity]). apply spread_wf; [reflexivity|exact H].
Qed.

Lemma position_record_wf old position now :
  match old with Some v => wfb v = true | None => True end ->
  wfb (JObj (position_record old position now)) = true.
Proof.
  intros H. unfold position_record.
  repeat (apply wfb_obj_set;
          [|first [reflexivity
                  |apply or_else_wf; [apply get_member_opt_wf, H|reflexivity]]]).
  apply spread_wf; [reflexivity|exact H].
Qed.

Lemma markAsRead_holds w o slug wordCount now :
  holds w o ->
  fst (markAsRead slug wordCount now w) = Ok tt /\
  holds (snd (markAsRead slug wordCount now w)) (marked o slug wordCount now).
Proof.
  intros Hw. pose proof (holds_wf w o Hw) as Hwf. destruct Hw as [[m Hm] Hget].
  unfold markAsRead, mbind, M_bind. rewrite Hget. cbn [lift get_member assign_record].
  unfold saveHistory, setItem. rewrite Hm. cbn [fst snd].
  split; [reflexivity|]. split; [eexists; reflexivity|].
  apply getHistory_saved. apply wfb_obj_set; [exact Hwf|].
  apply read_record_wf, option_wf, Hwf.
Qed.

Lemma saveScrollPosition_holds w o slug position now :
  holds w o ->
  fst (saveScrollPosition slug position now w) = Ok tt /\
  holds (snd (saveScrollPosition slug position now w)) (positioned o slug position now).
Proof.
  intros Hw. pose proof (holds_wf w o Hw) as Hwf. destruct Hw as [[m Hm] Hget].
  unfold saveScrollPosition, mbind, M_bind. rewrite Hget.
  cbn [lift get_member assign_record].
  unfold saveHistory, setItem. rewrite Hm. cbn [fst snd].
  split; [reflexivity|]. split; [eexists; reflexivity|].
  apply getHistory_saved. apply wfb_obj_set; [exact Hwf|].
  apply position_record_wf, option_wf, Hwf.
Qed.

Lemma handle_holds e w o :
  holds w o -> fst (handle e w) = Ok tt /\ holds (snd (handle e w)) (after_event e o).
Proof.
  intros Hw. destruct e as [slug wc now|slug pos now|slug wc y h ih now]; simpl.
  - apply markAsRead_holds, Hw.
  - apply saveScrollPosition_holds, Hw.
  - unfold scroll_frame, mbind, M_bind.
    destruct (saveScrollPosition_holds w o slug y now Hw) as [Hok Hw'].
    destruct (saveScrollPosition slug y now w) as [r w'] eqn:E. simpl in Hok, Hw'.
    subst r. destruct (exceeds_90_percent y (h - ih)).
    + apply markAsRead_holds, Hw'.
    + split; [reflexivity|exact Hw'].
Qed.

Lemma run_events_holds es : forall w o,
  holds w o -> holds (run_events es w) (fold_left (fun o e => after_event e o) es o).
Proof.
  induction es as [|e es IH]; intros w o Hw; [exact Hw|].
  simpl. apply IH. apply handle_holds, Hw.
Qed.

Lemma isRead_holds w o slug : holds w o -> isRead slug w = (Ok (read_flag o slug), w).
Proof.
  intros [_ Hget]. unfold isRead, mbind, M_bind. rewrite Hget. reflexivity.
Qed.

(** *** The read flag *)

Lemma read_record_read old wordCount now :
  obj_get (read_record old wordCount now) "read" = Some (JBool true).
Proof.
  unfold read_record. rewrite !obj_get_set_ne by discriminate. apply obj_get_set_eq.
Qed.

Lemma position_record_read old position now :
  obj_get (position_record old position now) "read"
  = Some (or_else (get_member_opt old "read") (JBool false)).
Proof.
  unfold position_record. rewrite !obj_get_set_ne by discriminate. apply obj_get_set_eq.
Qed.

Lemma or_else_false_idem a :
  or_else (Some (or_else a (JBool false))) (JBool false) = or_else a (JBool false).
Proof.
  destruct a as [v|]; simpl; [|reflexivity].
  destruct (truthy v) eqn:E; simpl; [rewrite E|]; reflexivity.
Qed.

Lemma read_flag_marked o slug wordCount now :
  read_flag (marked o slug wordCount now) slug = JBool true.
Proof.
  unfold read_flag, marked. rewrite obj_get_set_eq. simpl.
  rewrite read_record_read. reflexivity.
Qed.

Lemma read_flag_marked_other o slug slug' wordCount now :
  slug' <> slug -> read_flag (marked o slug' wordCount now) slug = read_flag o slug.
Proof.
  intros Hne. unfold read_flag, marked. rewrite obj_get_set_ne by exact Hne. reflexivity.
Qed.

Lemma read_flag_positioned o slug slug' position now :
  read_flag (positioned o slug' position now) slug = read_flag o slug.
Proof.
  unfold read_flag, positioned. destruct (String.eqb_spec slug' slug) as [->|Hne].
  - rewrite obj_get_set_eq. simpl. rewrite position_record_read.
    apply or_else_false_idem.
  - rewrite obj_get_set_ne by exact Hne. reflexivity.
Qed.

(** An event that does not mark [slug] as read: a call of [markAsRead] for
    another document, any call of [saveScrollPosition], a scroll frame of
    another document or one whose fraction does not exceed 0.9. *)
Definition quiet (slug : string) (e : event) : bool :=
  match e with
  | MarkAsRead s _ _ => negb (String.eqb s slug)
  | SaveScrollPosition _ _ _ => true
  | ScrollFrame s _ scrollY scrollHeight innerHeight _ =>
      negb (String.eqb s slug)
      || negb (exceeds_90_percent scrollY (scrollHeight - innerHeight))
  end.

Lemma read_flag_quiet e o slug :
  quiet slug e = true -> read_flag (after_event e o) slug = read_flag o slug.
Proof.
  destruct e as [s wc now|s pos now|s wc y h ih now]; simpl; intros Hq.
  - apply read_flag_marked_other. apply negb_true_iff, String.eqb_neq in Hq. exact Hq.
  - apply read_flag_positioned.
  - destruct (exceeds_90_percent y (h - ih)).
    + rewrite orb_false_r in Hq. apply negb_true_iff, String.eqb_neq in Hq.
      rewrite read_flag_marked_other by exact Hq. apply read_flag_positioned.
    + apply read_flag_positioned.
Qed.

Lemma read_flag_sticky e o slug :
  read_flag o slug = JBool true -> read_flag (after_event e o) slug = JBool true.
Proof.
  intros Hread.
  assert (Hmark : forall o' s wc now, read_flag o' slug = JBool true ->
                  read_flag (marked o' s wc now) slug = JBool true).
  { intros o' s wc now H. destruct (String.eqb_spec s slug) as [->|Hne].
    - apply read_flag_marked.
    - rewrite read_flag_marked_other by exact Hne. exact H. }
  destruct e as [s wc now|s pos now|s wc y h ih now]; simpl.
  - apply Hmark, Hread.
  - rewrite read_flag_positioned. exact Hread.
  - destruct (exceeds_90_percent y (h - ih)).
    + apply Hmark. rewrite read_flag_positioned. exact Hread.
    + rewrite read_flag_positioned. exact Hread.
Qed.

Lemma read_flag_quiet_all es : forall o slug,
  forallb (quiet slug) es = true ->
  read_flag (fold_left (fun o e => after_event e o) es o) slug = read_flag o slug.
Proof.
  induction es as [|e es IH]; intros o slug H; [reflexivity|].
  simpl in *. apply andb_prop in H as [He Hes].
  rewrite IH by exact Hes. apply read_flag_quiet, He.
Qed.

Lemma read_flag_sticky_all es : forall o slug,
  read_flag o slug = JBool true ->
  read_flag (fold_left (fun o e => after_event e o) es o) slug = JBool true.
Proof.
  induction es as [|e es IH]; intros o slug H; [exact H|].
  simpl. apply IH, read_flag_sticky, H.
Qed.

(** *** Claims C3 and C10 *)

(** C3: while only quiet events happen, [isRead] stays false; the scroll
    frame whose fraction exceeds 0.9 makes it true; and after that frame it
    stays true whatever calls of [saveScrollPosition] and [markAsRead] and
    whatever scroll frames, of any fraction, follow. *)
Theorem read_flag_flips_once_and_sticks
    w o slug before wordCount scrollY scrollHeight innerHeight now after :
  holds w o ->
  fst (isRead slug w) = Ok (JBool false) ->
  forallb (quiet slug) before = true ->
  exceeds_90_percent scrollY (scrollHeight - innerHeight) = true ->
  let frame := ScrollFrame slug wordCount scrollY scrollHeight innerHeight now in
  fst (isRead slug (run_events before w)) = Ok (JBool false) /\
  fst (isRead slug (run_events (before ++ [frame]) w)) = Ok (JBool true) /\
  fst (isRead slug (run_events (before ++ frame :: after) w)) = Ok (JBool true).
Proof.
  intros Hw Hfalse Hquiet Hexceeds frame.
  rewrite (isRead_holds w o slug Hw) in Hfalse. injection Hfalse as Hfalse.
  assert (Hframe : forall o', read_flag (after_event frame o') slug = JBool true).
  { intros o'. simpl. rewrite Hexceeds. apply read_flag_marked. }
  repeat split.
  - rewrite (isRead_holds _ _ slug (run_events_holds before w o Hw)). cbn [fst].
    rewrite read_flag_quiet_all by exact Hquiet. rewrite Hfalse. reflexivity.
  - rewrite (isRead_holds _ _ slug (run_events_holds (before ++ [frame]) w o Hw)).
    cbn [fst]. rewrite fold_left_app. cbn [fold_left]. rewrite Hframe. reflexivity.
  - rewrite (isRead_holds _ _ slug (run_events_holds (before ++ frame :: after) w o Hw)).
    cbn [fst]. rewrite fold_left_app. cbn [fold_left].
    rewrite read_flag_sticky_all by apply Hframe. reflexivity.
Qed.

(** A scroll frame of the essay [avg] at the offset [y] of 1000 scrollable
    pixels *)
Definition frame_at (y : Z) : event :=
  ScrollFrame "avg" 3000 y 1500 500 "2026-02-09T10:00:00.000Z".

(** A fresh page: one frame at 20%, one at 95%, then one at 10%. *)
Lemma read_flag_flips_once_and_sticks_witness :
  fst (isRead "avg" (run_events [frame_at 200] (page ∅))) = Ok (JBool false) /\
  fst (isRead "avg" (run_events ([frame_at 200] ++ [frame_at 950]) (page ∅)))
  = Ok (JBool true) /\
  fst (isRead "avg" (run_events ([frame_at 200] ++ frame_at 950 :: [frame_at 100]) (page ∅)))
  = Ok (JBool true).
Proof.
  apply (read_flag_flips_once_and_sticks (page ∅) [] "avg" [frame_at 200]
           3000 950 1500 500 "2026-02-09T10:00:00.000Z" [frame_at 100]).
  - split; [exists ∅; reflexivity|reflexivity].
  - reflexivity.
  - reflexivity.
  - reflexivity.
Defined.

(** C10: [markAsRead(id, w)] changes nothing but the [read], [lastReadAt] and
    [wordCount] fields of the record of [id]: the records of the other
    documents are as they were, and when [id] had a record, every other field
    of it, the [scrollPosition] among them, is as it was. *)
Theorem markAsRead_frame w o slug wordCount now :
  holds w o ->
  exists w' o' record',
    markAsRead slug wordCount now w = (Ok tt, w') /\
    holds w' o' /\
    (forall other, other <> slug -> obj_get o' other = obj_get o other) /\
    obj_get o' slug = Some (JObj record') /\
    obj_get record' "read" = Some (JBool true) /\
    obj_get record' "lastReadAt" = Some (JStr now) /\
    obj_get record' "wordCount" = Some (JNum wordCount) /\
    (forall record, obj_get o slug = Some (JObj record) ->
       obj_get record' "scrollPosition" = obj_get record "scrollPosition" /\
       forall field, field <> "read" -> field <> "lastReadAt" -> field <> "wordCount" ->
                     obj_get record' field = obj_get record field).
Proof.
  intros Hw. pose proof (holds_wf w o Hw) as Hwf.
  destruct (markAsRead_holds w o slug wordCount now Hw) as [Hok Hw'].
  destruct (markAsRead slug wordCount now w) as [r w'] eqn:E. simpl in Hok, Hw'. subst r.
  exists w', (marked o slug wordCount now), (read_record (obj_get o slug) wordCount now).
  split; [reflexivity|]. split; [exact Hw'|].
  split; [intros other Hne; unfold marked; apply obj_get_set_ne; congruence|].
  split; [apply obj_get_set_eq|].
  split; [apply read_record_read|].
  split; [unfold read_record; rewrite obj_get_set_ne by discriminate; apply obj_get_set_eq|].
  split; [apply obj_get_set_eq|].
  intros record Hrec.
  assert (Hfield : forall field, field <> "read" -> field <> "lastReadAt" ->
                   field <> "wordCount" ->
                   obj_get (read_record (obj_get o slug) wordCount now) field
                   = obj_get record field).
  { intros field H1 H2 H3. unfold read_record.
    rewrite !obj_get_set_ne by congruence. rewrite Hrec.
    rewrite spread_nil_obj; [reflexivity|].
    pose proof (obj_get_wf _ _ _ Hwf Hrec) as Hr. simpl in Hr.
    apply andb_prop in Hr as [Hr _]. apply nodupb_NoDup, Hr. }
  split; [apply Hfield; discriminate|exact Hfield].
Qed.

(** A history of two essays, both half read *)
Definition two_essays : list (string * json) :=
  [("avg", JObj [("scrollPosition", JNum 420); ("read", JBool false);
                 ("lastReadAt", JStr "2026-02-08T09:00:00.000Z"); ("wordCount", JNum 0)]);
   ("say", JObj [("scrollPosition", JNum 77); ("read", JBool false);
                 ("lastReadAt", JStr "2026-02-08T09:30:00.000Z"); ("wordCount", JNum 0)])].

Lemma markAsRead_frame_witness :
  exists w' o' record',
    markAsRead "avg" 3000 "2026-02-09T10:00:00.000Z"
      (page {[ HISTORY_KEY := JSON_stringify (JObj two_essays) ]}) = (Ok tt, w') /\
    holds w' o' /\
    obj_get o' "say" = obj_get two_essays "say" /\
    obj_get o' "avg" = Some (JObj record') /\
    obj_get record' "read" = Some (JBool true) /\
    obj_get record' "scrollPosition" = Some (JNum 420).
Proof.
  destruct (markAsRead_frame
              (page {[ HISTORY_KEY := JSON_stringify (JObj two_essays) ]})
              two_essays "avg" 3000 "2026-02-09T10:00:00.000Z")
    as (w' & o' & record' & Hrun & Hholds & Hother & Hrec & Hread & _ & _ & Hfields).
  - split; [eexists; reflexivity|vm_compute; reflexivity].
  - exists w', o', record'. split; [exact Hrun|]. split; [exact Hholds|].
    split; [apply Hother; discriminate|]. split; [exact Hrec|]. split; [exact Hread|].
    destruct (Hfields _ eq_refl) as [Hpos _]. exact Hpos.
Defined.


(** *** The scroll position *)

(** What [getScrollPosition] answers on the history object [o] *)
Definition position_of (o : list (string * json)) (slug : string) : json :=
  or_else (get_member_opt (obj_get o slug) "scrollPosition") (JNum 0).

Lemma getScrollPosition_holds w o slug :
  holds w o -> getScrollPosition slug w = (Ok (position_of o slug), w).
Proof.
  intros [_ Hget]. unfold getScrollPosition, mbind, M_bind. rewrite Hget. reflexivity.
Qed.

Lemma position_record_position old position now :
  obj_get (position_record old position now) "scrollPosition" = Some (JNum position).
Proof.
  unfold position_record. rewrite !obj_get_set_ne by discriminate. apply obj_get_set_eq.
Qed.

(** The position that [saveScrollPosition] stored is the one that
    [getScrollPosition] returns, zero included; the positions of the other
    documents and the read flags of all documents are as before. *)
Theorem scroll_position_round_trip w o slug position now :
  holds w o ->
  exists w',
    saveScrollPosition slug position now w = (Ok tt, w')
    /\ getScrollPosition slug w' = (Ok (JNum position), w')
    /\ (forall other, other <> slug ->
          fst (getScrollPosition other w') = fst (getScrollPosition other w))
    /\ (forall any, fst (isRead any w') = fst (isRead any w)).
Proof.
  intros Hw. destruct (saveScrollPosition_holds w o slug position now Hw) as [Hok Hw'].
  destruct (saveScrollPosition slug position now w) as [r w'] eqn:E.
  simpl in Hok, Hw'. subst r. exists w'. split; [reflexivity|]. split.
  - rewrite (getScrollPosition_holds w' _ slug Hw'). unfold position_of, positioned.
    rewrite obj_get_set_eq. cbn [get_member_opt get_member].
    rewrite position_record_position. simpl.
    destruct (position =? 0)%Z eqn:Ez; [|reflexivity].
    apply Z.eqb_eq in Ez. subst position. reflexivity.
  - split.
    + intros other Hne. rewrite (getScrollPosition_holds w' _ other Hw').
      rewrite (getScrollPosition_holds w o other Hw). cbn [fst].
      unfold position_of, positioned. rewrite obj_get_set_ne by congruence. reflexivity.
    + intros any. rewrite (isRead_holds w' _ any Hw'), (isRead_holds w o any Hw).
      cbn [fst]. rewrite read_flag_positioned. reflexivity.
Qed.

Lemma scroll_position_round_trip_witness :
  exists w',
    saveScrollPosition "avg" 0 "2026-02-09T10:00:00.000Z"
      (page {[ HISTORY_KEY := JSON_stringify (JObj two_essays) ]}) = (Ok tt, w')
    /\ getScrollPosition "avg" w' = (Ok (JNum 0), w')
    /\ (forall other, other <> "avg" ->
          fst (getScrollPosition other w')
          = fst (getScrollPosition other
                   (page {[ HISTORY_KEY := JSON_stringify (JObj two_essays) ]})))
    /\ (forall any,
          fst (isRead any w')
          = fst (isRead any (page {[ HISTORY_KEY := JSON_stringify (JObj two_essays) ]}))).
Proof.
  apply (scroll_position_round_trip
           (page {[ HISTORY_KEY := JSON_stringify (JObj two_essays) ]})
           two_essays "avg" 0 "2026-02-09T10:00:00.000Z").
  split; [eexists; reflexivity|vm_compute; reflexivity].
Defined.

(** [saveScrollPosition] keeps what the record of the document says beside
    the position: a [read], [lastReadAt] or [wordCount] that is truthy stays,
    one that is missing or falsy becomes [false], the time of the call or
    zero; every other field stays; a document without record gets one that
    is not read. *)
Theorem saveScrollPosition_keeps_record w o slug position now :
  holds w o ->
  exists w' o' record',
    saveScrollPosition slug position now w = (Ok tt, w')
    /\ holds w' o'
    /\ (forall other, other <> slug -> obj_get o' other = obj_get o other)
    /\ obj_get o' slug = Some (JObj record')
    /\ obj_get record' "scrollPosition" = Some (JNum position)
    /\ obj_get record' "read"
       = Some (or_else (get_member_opt (obj_get o slug) "read") (JBool false))
    /\ obj_get record' "lastReadAt"
       = Some (or_else (get_member_opt (obj_get o slug) "lastReadAt") (JStr now))
    /\ obj_get record' "wordCount"
       = Some (or_else (get_member_opt (obj_get o slug) "wordCount") (JNum 0))
    /\ (forall record field,
          obj_get o slug = Some (JObj record) ->
          field <> "scrollPosition" -> field <> "read" ->
          field <> "lastReadAt" -> field <> "wordCount" ->
          obj_get record' field = obj_get record field).
Proof.
  intros Hw. pose proof (holds_wf w o Hw) as Hwf.
  destruct (saveScrollPosition_holds w o slug position now Hw) as [Hok Hw'].
  destruct (saveScrollPosition slug position now w) as [r w'] eqn:E.
  simpl in Hok, Hw'. subst r.
  exists w', (positioned o slug position now),
    (position_record (obj_get o slug) position now).
  split; [reflexivity|]. split; [exact Hw'|].
  split; [intros other Hne; unfold positioned; apply obj_get_set_ne; congruence|].
  split; [apply obj_get_set_eq|].
  split; [apply position_record_position|].
  split; [apply position_record_read|].
  split; [unfold position_record; rewrite obj_get_set_ne by discriminate;
          apply obj_get_set_eq|].
  split; [apply obj_get_set_eq|].
  intros record field Hrec H1 H2 H3 H4. unfold position_record.
  rewrite !obj_get_set_ne by congruence. rewrite Hrec.
  rewrite spread_nil_obj; [reflexivity|].
  pose proof (obj_get_wf _ _ _ Hwf Hrec) as Hr. simpl in Hr.
  apply andb_prop in Hr as [Hr _]. apply nodupb_NoDup, Hr.
Qed.

(** A history where [avg] is read and [say] is not *)
Definition one_read : list (string * json) :=
  [("avg", JObj [("scrollPosition", JNum 420); ("read", JBool true);
                 ("lastReadAt", JStr "2026-02-08T09:00:00.000Z");
                 ("wordCount", JNum 3000)]);
   ("say", JObj [("scrollPosition", JNum 77); ("read", JBool false);
                 ("lastReadAt", JStr "2026-02-08T09:30:00.000Z"); ("wordCount", JNum 0)])].

Lemma saveScrollPosition_keeps_record_witness :
  exists w' o' record',
    saveScrollPosition "avg" 10 "2026-02-09T10:00:00.000Z"
      (page {[ HISTORY_KEY := JSON_stringify (JObj one_read) ]}) = (Ok tt, w')
    /\ holds w' o'
    /\ obj_get o' "avg" = Some (JObj record')
    /\ obj_get record' "scrollPosition" = Some (JNum 10)
    /\ obj_get record' "read" = Some (JBool true)
    /\ obj_get record' "lastReadAt" = Some (JStr "2026-02-08T09:00:00.000Z")
    /\ obj_get record' "wordCount" = Some (JNum 3000).
Proof.
  destruct (saveScrollPosition_keeps_record
              (page {[ HISTORY_KEY := JSON_stringify (JObj one_read) ]})
              one_read "avg" 10 "2026-02-09T10:00:00.000Z")
    as (w' & o' & record' & H1 & H2 & _ & H4 & H5 & H6 & H7 & H8 & _).
  - split; [eexists; reflexivity|vm_compute; reflexivity].
  - exists w', o', record'. repeat (split; [assumption|]). assumption.
Defined.


(** *** Statistics: [getStats] *)

Definition truthy_opt (v : option json) : bool :=
  match v with
  | Some v => truthy v
  | None => false
  end.

(** [total + x] for a number [total] and an [x] that is truthy or zero.  A
    number or [true] is added; the sum with a string, an array or an object
    is a string, outside the embedding. *)
Definition add_words (total : Z) (x : json) : option Z :=
  match x with
  | JNum n => Some (total + n)%Z
  | JBool b => Some (total + Z.b2z b)%Z
  | JNull => Some total
  | JStr _ | JArr _ | JObj _ => None
  end.

(** The body of the loop over [Object.values(history)]: the state is
    [essaysRead] and [wordsRead], or [None] once [wordsRead] is outside the
    embedding. *)
Definition count_record (acc : res (option (Z * Z))) (record : json)
  : res (option (Z * Z)) :=
  stats ← acc;
  read ← get_member record "read";
  if truthy_opt read then
    wordCount ← get_member record "wordCount";
    Ok ('(essaysRead, wordsRead) ← stats;
        total ← add_words wordsRead (or_else wordCount (JNum 0));
        Some ((essaysRead + 1)%Z, total))
  else Ok stats.

(** [Object.values(v)]: a TypeError on [null] *)
Definition Object_values (v : json) : res (list json) :=
  entries ← Object_entries v; Ok (map snd entries).

Definition getStats : M (option (Z * Z)) :=
  history ← getHistory;
  records ← lift (Object_values history);
  lift (fold_left count_record records (Ok (Some (0, 0)%Z))).

(** A record as the store types it: [read] is a boolean and [wordCount] a
    number.  The answer is the pair of them. *)
Definition counted (record : json) : option (bool * Z) :=
  match record with
  | JObj fields =>
      match obj_get fields "read", obj_get fields "wordCount" with
      | Some (JBool read), Some (JNum wordCount) => Some (read, wordCount)
      | _, _ => None
      end
  | _ => None
  end.

Definition typed_history (o : list (string * json)) : bool :=
  forallb (fun entry => bool_decide (is_Some (counted (snd entry)))) o.

(** What a record adds to the statistics: one essay and its words when it
    is read *)
Definition contribution (record : option json) : Z * Z :=
  match record with
  | Some record =>
      match counted record with
      | Some (true, wordCount) => (1, wordCount)%Z
      | _ => (0, 0)%Z
      end
  | None => (0, 0)%Z
  end.

Fixpoint essays_read (o : list (string * json)) : Z :=
  match o with
  | [] => 0
  | entry :: r => (fst (contribution (Some (snd entry))) + essays_read r)%Z
  end.

Fixpoint words_read (o : list (string * json)) : Z :=
  match o with
  | [] => 0
  | entry :: r => (snd (contribution (Some (snd entry))) + words_read r)%Z
  end.

Lemma count_record_typed record essays words :
  is_Some (counted record) ->
  count_record (Ok (Some (essays, words))) record
  = Ok (Some ((essays + fst (contribution (Some record)))%Z,
              (words + snd (contribution (Some record)))%Z)).
Proof.
  intros [[read n] Hc]. unfold contribution. rewrite Hc.
  destruct record as [ | | | | |fields]; try discriminate.
  cbn [counted] in Hc. unfold count_record. cbn [mbind res_bind get_member].
  destruct (obj_get fields "read") as [[ |b| | | | ]|]; try discriminate.
  destruct (obj_get fields "wordCount") as [[ | |m| | | ]|]; try discriminate.
  injection Hc as -> ->. destruct read; cbn [truthy_opt truthy fst snd].
  - cbn [mbind res_bind option_bind]. unfold or_else, truthy.
    destruct (n =? 0)%Z eqn:Ez; cbn [negb add_words mbind option_bind].
    + apply Z.eqb_eq in Ez. subst n. reflexivity.
    + reflexivity.
  - rewrite !Z.add_0_r. reflexivity.
Qed.

Lemma fold_count_record o : forall essays words,
  typed_history o = true ->
  fold_left count_record (map snd o) (Ok (Some (essays, words)))
  = Ok (Some ((essays + essays_read o)%Z, (words + words_read o)%Z)).
Proof.
  induction o as [|entry o IH]; intros essays words Ht.
  - simpl. rewrite !Z.add_0_r. reflexivity.
  - simpl in Ht. apply andb_prop in Ht as [He Ht]. apply bool_decide_eq_true_1 in He.
    cbn [map fold_left]. rewrite (count_record_typed _ essays words He).
    rewrite (IH _ _ Ht). cbn [essays_read words_read]. rewrite !Z.add_assoc. reflexivity.
Qed.

Lemma getStats_holds w o :
  holds w o -> typed_history o = true ->
  getStats w = (Ok (Some (essays_read o, words_read o)), w).
Proof.
  intros [_ Hget] Ht. unfold getStats, mbind, M_bind. rewrite Hget.
  cbn [lift Object_values Object_entries own_entries mbind res_bind].
  rewrite (fold_count_record o 0 0 Ht). reflexivity.
Qed.

Lemma essays_read_set o k v :
  (essays_read (obj_set o k v)
   = essays_read o - fst (contribution (obj_get o k)) + fst (contribution (Some v)))%Z.
Proof.
  induction o as [|[k0 v0] o IH]; cbn [obj_set obj_get essays_read].
  - cbn [contribution fst snd]. lia.
  - destruct (String.eqb k0 k); cbn [essays_read snd]; [lia|]. rewrite IH. lia.
Qed.

Lemma words_read_set o k v :
  (words_read (obj_set o k v)
   = words_read o - snd (contribution (obj_get o k)) + snd (contribution (Some v)))%Z.
Proof.
  induction o as [|[k0 v0] o IH]; cbn [obj_set obj_get words_read].
  - cbn [contribution fst snd]. lia.
  - destruct (String.eqb k0 k); cbn [words_read snd]; [lia|]. rewrite IH. lia.
Qed.

Lemma counted_read_record old wordCount now :
  counted (JObj (read_record old wordCount now)) = Some (true, wordCount).
Proof.
  cbn [counted]. rewrite read_record_read. unfold read_record.
  rewrite obj_get_set_eq. reflexivity.
Qed.

Lemma typed_history_get o k v :
  typed_history o = true -> obj_get o k = Some v -> is_Some (counted v).
Proof.
  induction o as [|[k0 v0] o IH]; simpl; [discriminate|].
  intros Ht. apply andb_prop in Ht as [H0 Ht]. destruct (String.eqb k0 k).
  - intros [= <-]. apply bool_decide_eq_true_1 in H0. exact H0.
  - apply IH, Ht.
Qed.

Lemma counted_position_record old position now :
  match old with Some v => is_Some (counted v) | None => True end ->
  counted (JObj (position_record old position now))
  = Some (default (false, 0%Z) (old ≫= counted)).
Proof.
  intros Hold. cbn [counted]. rewrite position_record_read. unfold position_record.
  rewrite obj_get_set_eq. destruct old as [v|]; [|reflexivity].
  destruct Hold as [[read n] Hc]. cbn [mbind option_bind]. rewrite Hc. cbn [default].
  destruct v as [ | | | | |fields]; try discriminate. cbn [counted] in Hc.
  cbn [get_member_opt get_member].
  destruct (obj_get fields "read") as [[ |b| | | | ]|]; try discriminate.
  destruct (obj_get fields "wordCount") as [[ | |m| | | ]|]; try discriminate.
  injection Hc as -> ->. unfold or_else, truthy.
  destruct read; destruct (n =? 0)%Z eqn:Ez; cbn [negb]; try reflexivity;
    apply Z.eqb_eq in Ez; subst n; reflexivity.
Qed.

Lemma typed_history_set o k v :
  typed_history o = true -> is_Some (counted v) -> typed_history (obj_set o k v) = true.
Proof.
  intros Ht Hv. apply obj_set_forallb; [exact Ht|].
  apply bool_decide_eq_true_2. exact Hv.
Qed.


Lemma marked_typed o slug wordCount now :
  typed_history o = true -> typed_history (marked o slug wordCount now) = true.
Proof.
  intros Ht. apply typed_history_set; [exact Ht|].
  rewrite counted_read_record. eauto.
Qed.

Lemma positioned_typed o slug position now :
  typed_history o = true -> typed_history (positioned o slug position now) = true.
Proof.
  intros Ht. apply typed_history_set; [exact Ht|].
  rewrite counted_position_record; [eauto|].
  destruct (obj_get o slug) as [v|] eqn:E; [|exact I].
  exact (typed_history_get o slug v Ht E).
Qed.

Lemma contribution_position_record o slug position now :
  typed_history o = true ->
  contribution (Some (JObj (position_record (obj_get o slug) position now)))
  = contribution (obj_get o slug).
Proof.
  intros Ht. unfold contribution at 1. rewrite counted_position_record.
  - destruct (obj_get o slug) as [v|] eqn:E; [|reflexivity].
    destruct (typed_history_get o slug v Ht E) as [[read n] Hc].
    cbn [mbind option_bind]. rewrite Hc. cbn [default contribution]. rewrite Hc.
    reflexivity.
  - destruct (obj_get o slug) as [v|] eqn:E; [|exact I].
    exact (typed_history_get o slug v Ht E).
Qed.

(** On a history whose records have a boolean [read] and a number
    [wordCount], [getStats] returns the number of read essays and the sum
    of their word counts; and after [markAsRead] the essay counts once,
    with the word count of the call, whatever its record said before. *)
Theorem getStats_after_markAsRead w o slug wordCount now :
  holds w o ->
  typed_history o = true ->
  exists w',
    getStats w = (Ok (Some (essays_read o, words_read o)), w)
    /\ markAsRead slug wordCount now w = (Ok tt, w')
    /\ getStats w'
       = (Ok (Some ((essays_read o - fst (contribution (obj_get o slug)) + 1)%Z,
                    (words_read o - snd (contribution (obj_get o slug)) + wordCount)%Z)),
          w')
    /\ (0 <= fst (contribution (obj_get o slug)) <= 1)%Z.
Proof.
  intros Hw Ht. destruct (markAsRead_holds w o slug wordCount now Hw) as [Hok Hw'].
  destruct (markAsRead slug wordCount now w) as [r w'] eqn:E. simpl in Hok, Hw'. subst r.
  exists w'. split; [exact (getStats_holds w o Hw Ht)|]. split; [reflexivity|]. split.
  - rewrite (getStats_holds w' _ Hw' (marked_typed o slug wordCount now Ht)).
    unfold marked. rewrite essays_read_set, words_read_set.
    unfold contribution at 2 4. rewrite counted_read_record. reflexivity.
  - unfold contribution. destruct (obj_get o slug) as [v|]; [|simpl; lia].
    destruct (counted v) as [[[|] n]|]; simpl; lia.
Qed.

Lemma getStats_after_markAsRead_witness :
  exists w',
    getStats (page {[ HISTORY_KEY := JSON_stringify (JObj one_read) ]})
    = (Ok (Some (1, 3000)%Z), page {[ HISTORY_KEY := JSON_stringify (JObj one_read) ]})
    /\ markAsRead "say" 1200 "2026-02-09T10:00:00.000Z"
         (page {[ HISTORY_KEY := JSON_stringify (JObj one_read) ]}) = (Ok tt, w')
    /\ getStats w' = (Ok (Some (2, 4200)%Z), w')
    /\ (0 <= 0 <= 1)%Z.
Proof.
  apply (getStats_after_markAsRead
           (page {[ HISTORY_KEY := JSON_stringify (JObj one_read) ]})
           one_read "say" 1200 "2026-02-09T10:00:00.000Z").
  - split; [eexists; reflexivity|vm_compute; reflexivity].
  - reflexivity.
Defined.

(** On such a history the statistics change only when an essay becomes
    read or its word count changes: [saveScrollPosition] leaves them as they
    are, and so does [markAsRead] of an essay that is read with the same
    word count. *)
Theorem getStats_unchanged_by_scrolling w o slug position wordCount now :
  holds w o ->
  typed_history o = true ->
  exists w1,
    saveScrollPosition slug position now w = (Ok tt, w1)
    /\ fst (getStats w1) = fst (getStats w)
    /\ (contribution (obj_get o slug) = (1, wordCount)%Z ->
        exists w2, markAsRead slug wordCount now w = (Ok tt, w2)
                   /\ fst (getStats w2) = fst (getStats w)).
Proof.
  intros Hw Ht.
  destruct (saveScrollPosition_holds w o slug position now Hw) as [Hok Hw1].
  destruct (saveScrollPosition slug position now w) as [r w1] eqn:E.
  simpl in Hok, Hw1. subst r. exists w1. split; [reflexivity|].
  rewrite (getStats_holds w o Hw Ht). split.
  - rewrite (getStats_holds w1 _ Hw1 (positioned_typed o slug position now Ht)).
    cbn [fst]. unfold positioned. rewrite essays_read_set, words_read_set.
    rewrite (contribution_position_record o slug position now Ht).
    do 3 f_equal; lia.
  - intros Hread. destruct (markAsRead_holds w o slug wordCount now Hw) as [Hok Hw2].
    destruct (markAsRead slug wordCount now w) as [r w2] eqn:E2.
    simpl in Hok, Hw2. subst r. exists w2. split; [reflexivity|].
    rewrite (getStats_holds w2 _ Hw2 (marked_typed o slug wordCount now Ht)).
    cbn [fst]. unfold marked. rewrite essays_read_set, words_read_set, Hread.
    unfold contribution. rewrite counted_read_record. cbn [fst snd].
    do 3 f_equal; lia.
Qed.

Lemma getStats_unchanged_by_scrolling_witness :
  exists w1,
    saveScrollPosition "avg" 900 "2026-02-09T10:00:00.000Z"
      (page {[ HISTORY_KEY := JSON_stringify (JObj one_read) ]}) = (Ok tt, w1)
    /\ fst (getStats w1)
       = fst (getStats (page {[ HISTORY_KEY := JSON_stringify (JObj one_read) ]})).
Proof.
  destruct (getStats_unchanged_by_scrolling
              (page {[ HISTORY_KEY := JSON_stringify (JObj one_read) ]})
              one_read "avg" 900 3000 "2026-02-09T10:00:00.000Z")
    as (w1 & H1 & H2 & _).
  - split; [eexists; reflexivity|vm_compute; reflexivity].
  - reflexivity.
  - exists w1. split; assumption.
Defined.


Lemma after_event_typed e o :
  typed_history o = true -> typed_history (after_event e o) = true.
Proof.
  intros Ht. destruct e as [s wc now|s pos now|s wc y h ih now]; cbn [after_event].
  - apply marked_typed, Ht.
  - apply positioned_typed, Ht.
  - destruct (exceeds_90_percent y (h - ih)).
    + apply marked_typed, positioned_typed, Ht.
    + apply positioned_typed, Ht.
Qed.

Lemma essays_read_bounds o : (0 <= essays_read o <= Z.of_nat (length o))%Z.
Proof.
  induction o as [|[k v] o IH]; [simpl; lia|].
  cbn [essays_read length snd]. unfold contribution.
  destruct (counted v) as [[[|] n]|]; cbn [fst]; lia.
Qed.

(** The operations of the store keep its records typed: after any calls of
    [markAsRead] and [saveScrollPosition] and any scroll frames on a typed
    history, an empty one for instance, every record has a boolean [read]
    and a number [wordCount], and [getStats] returns the count of the read
    essays, at most the number of records, and the sum of their words. *)
Theorem getStats_defined_after_events es w o :
  holds w o ->
  typed_history o = true ->
  exists o',
    holds (run_events es w) o'
    /\ typed_history o' = true
    /\ getStats (run_events es w)
       = (Ok (Some (essays_read o', words_read o')), run_events es w)
    /\ (0 <= essays_read o' <= Z.of_nat (length o'))%Z.
Proof.
  intros Hw Ht. exists (fold_left (fun o e => after_event e o) es o).
  pose proof (run_events_holds es w o Hw) as Hw'.
  assert (Ht' : typed_history (fold_left (fun o e => after_event e o) es o) = true).
  { clear Hw Hw'. revert o Ht. induction es as [|e es IH]; intros o Ht; [exact Ht|].
    cbn [fold_left]. apply IH, after_event_typed, Ht. }
  split; [exact Hw'|]. split; [exact Ht'|].
  split; [exact (getStats_holds _ _ Hw' Ht')|apply essays_read_bounds].
Qed.

Lemma getStats_defined_after_events_witness :
  exists o',
    holds (run_events [frame_at 200; frame_at 950] (page ∅)) o'
    /\ typed_history o' = true
    /\ getStats (run_events [frame_at 200; frame_at 950] (page ∅))
       = (Ok (Some (essays_read o', words_read o')),
          run_events [frame_at 200; frame_at 950] (page ∅))
    /\ (0 <= essays_read o' <= Z.of_nat (length o'))%Z.
Proof.
  apply (getStats_defined_after_events [frame_at 200; frame_at 950] (page ∅) []).
  - split; [exists ∅; reflexivity|reflexivity].
  - reflexivity.
Defined.


(** *** The scroll listener of [initScrollTracking] *)

(** The variable [ticking] of the listener, and the number of callbacks
    that [requestAnimationFrame] was given and that have not run yet *)
Record tracker : Type := {
  ticking : bool;
  requested : nat
}.

Definition idle : tracker := {| ticking := false; requested := 0 |}.

(** What the browser does: it fires a scroll event, or it runs the frame
    callback that was requested first, at the time when the window is at
    [scrollY]. *)
Inductive signal : Type :=
| Scroll
| Frame (scrollY scrollHeight innerHeight : Z) (now : string).

(** The listener requests a frame unless one is on its way; the frame
    callback saves, and sets [ticking] back when nothing threw before. *)
Definition track (slug : string) (wordCount : Z) (state : tracker * world) (s : signal)
  : tracker * world :=
  let '(t, w) := state in
  match s with
  | Scroll =>
      if ticking t then (t, w)
      else ({| ticking := true; requested := S (requested t) |}, w)
  | Frame scrollY scrollHeight innerHeight now =>
      match requested t with
      | O => (t, w)
      | S n =>
          match scroll_frame slug wordCount scrollY scrollHeight innerHeight now w with
          | (Ok _, w') => ({| ticking := false; requested := n |}, w')
          | (Throw _, w') => ({| ticking := ticking t; requested := n |}, w')
          end
      end
  end.

Definition tracking (slug : string) (wordCount : Z) (signals : list signal) (w : world)
  : tracker * world :=
  fold_left (track slug wordCount) signals (idle, w).

(** The frames that a sequence of signals runs at most: one for each scroll
    event that found no frame on its way *)
Lemma track_throttles slug wordCount signals : forall t w,
  (requested t <= 1 /\ (requested t = 1 -> ticking t = true)) ->
  let t' := fst (fold_left (track slug wordCount) signals (t, w)) in
  requested t' <= 1 /\ (requested t' = 1 -> ticking t' = true).
Proof.
  induction signals as [|s signals IH]; intros t w Ht; [exact Ht|].
  cbn [fold_left]. destruct s as [|y h ih now]; cbn [track].
  - destruct Ht as [Hle Himp]. destruct (ticking t) eqn:Et.
    + apply IH. split; [exact Hle|intros _; exact Et].
    + apply IH. cbn [requested ticking].
      destruct (requested t) as [|[|n]]; [auto|specialize (Himp eq_refl); congruence|lia].
  - destruct (requested t) as [|n] eqn:En; [apply IH; rewrite En; exact Ht|].
    destruct (scroll_frame slug wordCount y h ih now w) as [[u|e] w'];
      apply IH; cbn [requested ticking]; split; lia.
Qed.

(** However many scroll events fire, at most one frame callback is on its
    way, and then [ticking] is set; and on a storage that holds a history,
    a frame that runs sets [ticking] back, so that the next scroll event
    requests a frame again. *)
Theorem scroll_listener_throttles slug wordCount signals w o y h ih now :
  holds w o ->
  requested (fst (tracking slug wordCount signals w)) <= 1
  /\ (requested (fst (tracking slug wordCount signals w)) = 1 ->
      ticking (fst (tracking slug wordCount signals w)) = true)
  /\ fst (tracking slug wordCount [Scroll; Scroll; Scroll; Frame y h ih now] w) = idle
  /\ snd (tracking slug wordCount [Scroll; Scroll; Scroll; Frame y h ih now] w)
     = snd (scroll_frame slug wordCount y h ih now w)
  /\ requested (fst (tracking slug wordCount
                       [Scroll; Frame y h ih now; Scroll] w)) = 1.
Proof.
  intros Hw.
  pose proof (track_throttles slug wordCount signals idle w
                (conj (Nat.le_0_l 1) (fun H => match Nat.neq_0_succ 0 H with end))) as Hth.
  cbv zeta in Hth. split; [apply Hth|]. split; [apply Hth|].
  destruct (handle_holds (ScrollFrame slug wordCount y h ih now) w o Hw) as [Hok _].
  cbn [handle] in Hok.
  unfold tracking. cbn [fold_left track idle ticking requested].
  destruct (scroll_frame slug wordCount y h ih now w) as [[u|e] w'];
    [|discriminate Hok].
  cbn [fst snd ticking requested]. auto.
Qed.

Lemma scroll_listener_throttles_witness :
  requested (fst (tracking "avg" 3000 [Scroll; Scroll] (page ∅))) <= 1
  /\ (requested (fst (tracking "avg" 3000 [Scroll; Scroll] (page ∅))) = 1 ->
      ticking (fst (tracking "avg" 3000 [Scroll; Scroll] (page ∅))) = true)
  /\ fst (tracking "avg" 3000
            [Scroll; Scroll; Scroll; Frame 950 1500 500 "2026-02-09T10:00:00.000Z"]
            (page ∅)) = idle
  /\ snd (tracking "avg" 3000
            [Scroll; Scroll; Scroll; Frame 950 1500 500 "2026-02-09T10:00:00.000Z"]
            (page ∅))
     = snd (scroll_frame "avg" 3000 950 1500 500 "2026-02-09T10:00:00.000Z" (page ∅))
  /\ requested (fst (tracking "avg" 3000
                       [Scroll; Frame 950 1500 500 "2026-02-09T10:00:00.000Z"; Scroll]
                       (page ∅))) = 1.
Proof.
  apply (scroll_listener_throttles "avg" 3000 [Scroll; Scroll] (page ∅) []
           950 1500 500 "2026-02-09T10:00:00.000Z").
  split; [exists ∅; reflexivity|reflexivity].
Defined.

(** On a storage that refuses access the first frame throws before it sets
    [ticking] back: from then on no scroll event requests a frame, and
    nothing is ever saved. *)
Theorem scroll_listener_stops_when_denied slug wordCount w y h ih now signals :
  storage w = Denied ->
  tracking slug wordCount (Scroll :: Frame y h ih now :: signals) w
  = ({| ticking := true; requested := 0 |}, w).
Proof.
  intros Hd.
  assert (Hframe : forall y h ih now,
            scroll_frame slug wordCount y h ih now w = (Throw SecurityError, w)).
  { intros y0 h0 ih0 now0.
    assert (Hhistory : getHistory w = (Ok (JObj []), w)).
    { unfold getHistory, try_catchM, getItem, mbind, M_bind. rewrite Hd. reflexivity. }
    unfold scroll_frame, saveScrollPosition, mbind, M_bind. rewrite Hhistory.
    cbn [lift get_member assign_record]. unfold saveHistory, setItem.
    rewrite Hd. reflexivity. }
  unfold tracking. cbn [fold_left track idle ticking requested]. rewrite Hframe.
  induction signals as [|s signals IH]; [reflexivity|].
  cbn [fold_left track ticking requested]. destruct s; exact IH.
Qed.

Lemma scroll_listener_stops_when_denied_witness :
  tracking "avg" 3000
    [Scroll; Frame 950 1500 500 "2026-02-09T10:00:00.000Z"; Scroll; Scroll;
     Frame 990 1500 500 "2026-02-09T10:00:05.000Z"]
    {| storage := Denied; root := empty_root |}
  = ({| ticking := true; requested := 0 |}, {| storage := Denied; root := empty_root |}).
Proof.
  apply (scroll_listener_stops_when_denied "avg" 3000
           {| storage := Denied; root := empty_root |} 950 1500 500
           "2026-02-09T10:00:00.000Z"). reflexivity.
Defined.

End ReadingHistory.

(** ** JSON with numbers beyond the integers

    [Json] reads and prints the integers, which is what the stores hold.
    This module follows [JSON.parse] and [JSON.stringify] one step further:
    a numeral may have a fraction and an exponent, and a numeral beyond the
    range of the doubles is read as an infinity, which [JSON.stringify]
    prints as [null]. *)

Module Numbers.
Import Json.

(** A number that [JSON.parse] returns, as far as the embedding follows
    them: an integer that a double holds exactly (at most 2^53 in absolute
    value, the two zeros taken as one), or an infinity. *)
Inductive number : Type :=
| Finite (n : Z)
| Infinity (negative : bool).

#[warnings="-register-all"]
Inductive value : Type :=
| VNull
| VBool (b : bool)
| VNum (x : number)
| VStr (s : string)
| VArr (items : list value)
| VObj (props : list (string * value)).

(** The value of the embedding of the integers, among these values *)
Fixpoint wide (v : json) : value :=
  match v with
  | JNull => VNull
  | JBool b => VBool b
  | JNum n => VNum (Finite n)
  | JStr s => VStr s
  | JArr items => VArr (map wide items)
  | JObj props => VObj (map (fun kv => (fst kv, wide (snd kv))) props)
  end.

(** *** [JSON.stringify(value, null, gap)] *)

(** SerializeJSONProperty on a number: a number that is not finite is
    printed as [null]. *)
Definition show_number (x : number) : string :=
  match x with
  | Finite n => show_Z n
  | Infinity _ => "null"
  end.

Fixpoint stringify_at (gap indent : string) (v : value) : string :=
  match v with
  | VNull => "null"
  | VBool true => "true"
  | VBool false => "false"
  | VNum x => show_number x
  | VStr s => quote s
  | VArr items =>
      let stepback := indent in
      let indent := indent +:+ gap in
      let partial := map (stringify_at gap indent) items in
      match partial with
      | [] => "[]"
      | _ =>
          if is_empty gap then "[" +:+ join "," partial +:+ "]"
          else "[" +:+ nl +:+ indent +:+ join ("," +:+ nl +:+ indent) partial
               +:+ nl +:+ stepback +:+ "]"
      end
  | VObj props =>
      let stepback := indent in
      let indent := indent +:+ gap in
      let partial :=
        map (fun kv => quote (fst kv) +:+ ":" +:+
                       (if is_empty gap then EmptyString else " ") +:+
                       stringify_at gap indent (snd kv)) props in
      match partial with
      | [] => "{}"
      | _ =>
          if is_empty gap then "{" +:+ join "," partial +:+ "}"
          else "{" +:+ nl +:+ indent +:+ join ("," +:+ nl +:+ indent) partial
               +:+ nl +:+ stepback +:+ "}"
      end
  end.

Definition JSON_stringify (v : value) : string := stringify_at EmptyString EmptyString v.

Definition JSON_stringify_pretty (n : nat) (v : value) : string :=
  stringify_at (string_of_list_ascii (repeat " "%char (Nat.min 10 n))) EmptyString v.

(** *** Numerals *)

(** A numeral of the JSON grammar: an optional minus sign, the integer part
    (0, or a digit 1-9 followed by digits), an optional fraction and an
    optional exponent.  It stands for [digits * 10 ^ scale], negated when
    [negative]. *)
Record numeral : Type := {
  negative : bool;
  digits : Z;
  scale : Z
}.

Definition digits_value (ds : string) : option Z :=
  d ← NilEmpty.uint_of_string ds; Some (Z.of_N (Pos.of_uint d)).

(** The fraction: a point and at least one digit *)
Definition lex_fraction (s : string) : option (string * string) :=
  match s with
  | String c r =>
      if Ascii.eqb c "." then
        let ds := take_while is_digit r in
        if is_empty ds then None else Some (ds, drop_while is_digit r)
      else Some (EmptyString, s)
  | EmptyString => Some (EmptyString, s)
  end.

(** The exponent: [e] or [E], an optional sign and at least one digit *)
Definition lex_exponent (s : string) : option (Z * string) :=
  match s with
  | String c r =>
      if Ascii.eqb c "e" || Ascii.eqb c "E" then
        let '(neg, r1) :=
          match r with
          | String sign r' =>
              if Ascii.eqb sign "-" then (true, r')
              else if Ascii.eqb sign "+" then (false, r')
              else (false, r)
          | EmptyString => (false, r)
          end in
        let ds := take_while is_digit r1 in
        if is_empty ds then None
        else e ← digits_value ds;
             Some (if neg then (- e)%Z else e, drop_while is_digit r1)
      else Some (0%Z, s)
  | EmptyString => Some (0%Z, s)
  end.

Definition lex_numeral (s : string) : option (numeral * string) :=
  let '(neg, s1) :=
    match s with
    | String c r => if Ascii.eqb c "-" then (true, r) else (false, s)
    | EmptyString => (false, s)
    end in
  let int := take_while is_digit s1 in
  if is_empty int || leading_zero int then None
  else
    '(frac, r2) ← lex_fraction (drop_while is_digit s1);
    '(exponent, r3) ← lex_exponent r2;
    d ← digits_value (int +:+ frac);
    Some ({| negative := neg; digits := d;
             scale := (exponent - Z.of_nat (String.length frac))%Z |}, r3).

(** The least magnitude that rounds to an infinity: half an ulp above the
    largest double, [(2^53 - 1) * 2^971].  The tie goes to the even
    neighbour, which is 2^1024. *)
Definition overflow_bound : Z := ((2 ^ 54 - 1) * 2 ^ 970)%Z.

(** The integers up to this bound are doubles, one by one. *)
Definition safe_bound : Z := (2 ^ 53)%Z.

(** The number of a numeral, or [None] for a number that the embedding
    does not follow: a fraction, or a finite number above [safe_bound]. *)
Definition number_of (x : numeral) : option number :=
  let num := if (0 <=? scale x)%Z then (digits x * 10 ^ scale x)%Z else digits x in
  let den := if (0 <=? scale x)%Z then 1%Z else (10 ^ (- scale x))%Z in
  if (overflow_bound * den <=? num)%Z then Some (Infinity (negative x))
  else if ((num mod den =? 0) && (num / den <=? safe_bound))%Z
       then Some (Finite (if negative x then (- (num / den))%Z else (num / den)%Z))
       else None.

(** *** [JSON.parse] *)

Inductive token : Type :=
| TLBrace | TRBrace | TLBrack | TRBrack | TColon | TComma
| TScalar (v : value)
| TOther.

(** One token, or one white space character ([None]), off a non-empty
    input.  [TOther] is a numeral whose number the embedding does not
    follow. *)
Definition lex_token (s : string) : option (option token * string) :=
  match s with
  | EmptyString => None
  | String c r =>
      if is_json_ws c then Some (None, r)
      else if Ascii.eqb c "{" then Some (Some TLBrace, r)
      else if Ascii.eqb c "}" then Some (Some TRBrace, r)
      else if Ascii.eqb c "[" then Some (Some TLBrack, r)
      else if Ascii.eqb c "]" then Some (Some TRBrack, r)
      else if Ascii.eqb c ":" then Some (Some TColon, r)
      else if Ascii.eqb c "," then Some (Some TComma, r)
      else if Ascii.eqb c dquote then
        '(str, r') ← lex_string r; Some (Some (TScalar (VStr str)), r')
      else if Ascii.eqb c "-" || is_digit c then
        '(x, r') ← lex_numeral s;
        Some (Some (match number_of x with
                    | Some n => TScalar (VNum n)
                    | None => TOther
                    end), r')
      else if Ascii.eqb c "n" then
        r' ← strip_prefix "ull" r; Some (Some (TScalar VNull), r')
      else if Ascii.eqb c "t" then
        r' ← strip_prefix "rue" r; Some (Some (TScalar (VBool true)), r')
      else if Ascii.eqb c "f" then
        r' ← strip_prefix "alse" r; Some (Some (TScalar (VBool false)), r')
      else None
  end.

Fixpoint lex (fuel : nat) (s : string) : option (list token) :=
  match fuel with
  | O => None
  | S fuel' =>
      match s with
      | EmptyString => Some []
      | _ =>
          '(t, r) ← lex_token s;
          ts ← lex fuel' r;
          Some (match t with Some t => t :: ts | None => ts end)
      end
  end.

(** [o[k] = v] on the properties read so far *)
Fixpoint set_property (o : list (string * value)) (k : string) (v : value)
  : list (string * value) :=
  match o with
  | [] => [(k, v)]
  | (k', v') :: o' =>
      if String.eqb k' k then (k, v) :: o' else (k', v') :: set_property o' k v
  end.

Inductive frame : Type :=
| InArr (items_rev : list value)
| InObj (props : list (string * value)) (key : string).

Inductive pstate : Type :=
| PValue (ctx : list frame)
| PArrOpen (ctx : list frame)
| PArrNext (items_rev : list value) (ctx : list frame)
| PObjOpen (ctx : list frame)
| PObjKey (props : list (string * value)) (ctx : list frame)
| PObjColon (props : list (string * value)) (key : string) (ctx : list frame)
| PObjNext (props : list (string * value)) (ctx : list frame)
| PDone (v : value).

Definition reduce (v : value) (ctx : list frame) : pstate :=
  match ctx with
  | [] => PDone v
  | InArr items :: ctx' => PArrNext (v :: items) ctx'
  | InObj props k :: ctx' => PObjNext (set_property props k v) ctx'
  end.

(** For the grammar a numeral that is not followed is a number like any
    other; it stands as 0 until the parse is given up. *)
Definition step_value (ctx : list frame) (t : token) : option pstate :=
  match t with
  | TScalar v => Some (reduce v ctx)
  | TOther => Some (reduce (VNum (Finite 0)) ctx)
  | TLBrack => Some (PArrOpen ctx)
  | TLBrace => Some (PObjOpen ctx)
  | _ => None
  end.

Definition step (st : pstate) (t : token) : option pstate :=
  match st with
  | PValue ctx => step_value ctx t
  | PArrOpen ctx =>
      match t with
      | TRBrack => Some (reduce (VArr []) ctx)
      | _ => step_value (InArr [] :: ctx) t
      end
  | PArrNext items ctx =>
      match t with
      | TComma => Some (PValue (InArr items :: ctx))
      | TRBrack => Some (reduce (VArr (rev items)) ctx)
      | _ => None
      end
  | PObjOpen ctx =>
      match t with
      | TRBrace => Some (reduce (VObj []) ctx)
      | TScalar (VStr k) => Some (PObjColon [] k ctx)
      | _ => None
      end
  | PObjKey props ctx =>
      match t with
      | TScalar (VStr k) => Some (PObjColon props k ctx)
      | _ => None
      end
  | PObjColon props k ctx =>
      match t with
      | TColon => Some (PValue (InObj props k :: ctx))
      | _ => None
      end
  | PObjNext props ctx =>
      match t with
      | TComma => Some (PObjKey props ctx)
      | TRBrace => Some (reduce (VObj props) ctx)
      | _ => None
      end
  | PDone _ => None
  end.

Fixpoint run (st : pstate) (ts : list token) : option pstate :=
  match ts with
  | [] => Some st
  | t :: ts' => st' ← step st t; run st' ts'
  end.

Definition followed (t : token) : bool :=
  match t with TOther => false | _ => true end.

(** [JSON.parse(s)]: the value or a SyntaxError; [None] when the text is
    well formed and holds a numeral whose number the embedding does not
    follow. *)
Definition JSON_parse (s : string) : option (res value) :=
  match lex (S (String.length s)) s with
  | Some ts =>
      match run (PValue []) ts with
      | Some (PDone v) => if forallb followed ts then Some (Ok v) else None
      | _ => Some (Throw SyntaxError)
      end
  | None => Some (Throw SyntaxError)
  end.

(** *** The integers among the values: where both readings agree *)

(** The integers of a value are doubles, one by one. *)
Fixpoint safe (v : json) : bool :=
  match v with
  | JNum n => (Z.abs n <=? safe_bound)%Z
  | JArr items => forallb safe items
  | JObj props => forallb (fun kv => safe (snd kv)) props
  | _ => true
  end.

Definition wide_token (t : Json.token) : token :=
  match t with
  | Json.TLBrace => TLBrace
  | Json.TRBrace => TRBrace
  | Json.TLBrack => TLBrack
  | Json.TRBrack => TRBrack
  | Json.TColon => TColon
  | Json.TComma => TComma
  | Json.TScalar v => TScalar (wide v)
  end.

Definition safe_token (t : Json.token) : bool :=
  match t with
  | Json.TScalar v => safe v
  | _ => true
  end.

Lemma stringify_wide gap v : forall indent,
  stringify_at gap indent (wide v) = Json.stringify_at gap indent v.
Proof.
  induction v as [ | [|] | n | s | l IH | o IH ] using json_ind'; intros indent;
    try reflexivity.
  - cbn [wide stringify_at Json.stringify_at]. rewrite map_map.
    assert (E : map (fun x => stringify_at gap (indent +:+ gap) (wide x)) l
                = map (Json.stringify_at gap (indent +:+ gap)) l).
    { apply map_ext_Forall. eapply Forall_impl; [exact IH|]. cbv beta. auto. }
    rewrite E. reflexivity.
  - cbn [wide stringify_at Json.stringify_at]. rewrite map_map. cbn [fst snd].
    assert (E : map (fun kv => quote (fst kv) +:+ ":" +:+
                               (if is_empty gap then EmptyString else " ") +:+
                               stringify_at gap (indent +:+ gap) (wide (snd kv))) o
                = map (fun kv => quote (fst kv) +:+ ":" +:+
                                 (if is_empty gap then EmptyString else " ") +:+
                                 Json.stringify_at gap (indent +:+ gap) (snd kv)) o).
    { apply map_ext_Forall. eapply Forall_impl; [exact IH|]. cbv beta.
      intros kv Hkv. rewrite Hkv. reflexivity. }
    rewrite E. reflexivity.
Qed.

(** A text that the lexer takes up starts with no point and no exponent. *)
Definition no_tail (r : string) : bool :=
  match r with
  | String c _ => negb (Ascii.eqb c "." || Ascii.eqb c "e" || Ascii.eqb c "E")
  | EmptyString => true
  end.

Lemma lex_token_no_tail r t r' : Json.lex_token r = Some (t, r') -> no_tail r = true.
Proof.
  destruct r as [|c r]; [reflexivity|]. cbn [no_tail].
  destruct (Ascii.eqb c ".") eqn:E1; [apply Ascii.eqb_eq in E1; subst c; discriminate|].
  destruct (Ascii.eqb c "e") eqn:E2; [apply Ascii.eqb_eq in E2; subst c; discriminate|].
  destruct (Ascii.eqb c "E") eqn:E3; [apply Ascii.eqb_eq in E3; subst c; discriminate|].
  reflexivity.
Qed.

Lemma lex_no_tail fuel r ts : Json.lex fuel r = Some ts -> no_tail r = true.
Proof.
  destruct fuel as [|fuel]; [discriminate|]. destruct r as [|c r]; [reflexivity|].
  cbn [Json.lex]. destruct (Json.lex_token (String c r)) as [[t r']|] eqn:E; [|discriminate].
  intros _. exact (lex_token_no_tail _ _ _ E).
Qed.

Lemma lex_fraction_none r : no_tail r = true -> lex_fraction r = Some (EmptyString, r).
Proof.
  destruct r as [|c r]; [reflexivity|]. cbn [no_tail lex_fraction].
  destruct (Ascii.eqb c "."); [discriminate|reflexivity].
Qed.

Lemma lex_exponent_none r : no_tail r = true -> lex_exponent r = Some (0%Z, r).
Proof.
  destruct r as [|c r]; [reflexivity|]. cbn [no_tail lex_exponent].
  destruct (Ascii.eqb c "."); [discriminate|].
  destruct (Ascii.eqb c "e"); [discriminate|].
  destruct (Ascii.eqb c "E"); [discriminate|reflexivity].
Qed.

Lemma number_of_integer neg d :
  (0 <= d <= safe_bound)%Z ->
  number_of {| negative := neg; digits := d; scale := 0 |}
  = Some (Finite (if neg then (- d)%Z else d)).
Proof.
  intros Hd. unfold number_of. cbn [scale digits negative].
  change (0 <=? 0)%Z with true. cbv iota.
  replace (d * 10 ^ 0)%Z with d by (change (10 ^ 0)%Z with 1%Z; lia).
  rewrite Z.mod_1_r, Z.div_1_r.
  assert (Hbig : (safe_bound < overflow_bound)%Z) by reflexivity.
  destruct (Z.leb_spec (overflow_bound * 1) d); [lia|].
  destruct (Z.leb_spec d safe_bound); [reflexivity|lia].
Qed.

(** On an integer numeral that the lexer of [Json] takes up, and that is a
    double, both lexers agree. *)
Lemma lex_numeral_integer s n r :
  Json.lex_number s = Some (n, r) -> no_tail r = true ->
  (Z.abs n <=? safe_bound)%Z = true ->
  exists x, lex_numeral s = Some (x, r) /\ number_of x = Some (Finite n).
Proof.
  unfold Json.lex_number, lex_numeral. intros H Htail Hsafe.
  destruct (match s with
            | String c r0 => if Ascii.eqb c "-" then (true, r0) else (false, s)
            | EmptyString => (false, s)
            end) as [neg s1].
  destruct (is_empty (take_while is_digit s1) || leading_zero (take_while is_digit s1));
    [discriminate|].
  destruct (NilEmpty.uint_of_string (take_while is_digit s1)) as [d|] eqn:Ed;
    [|discriminate].
  cbn [mbind option_bind] in H. injection H as <- <-.
  rewrite (lex_fraction_none _ Htail). cbn [mbind option_bind].
  rewrite (lex_exponent_none _ Htail). cbn [mbind option_bind].
  unfold digits_value. rewrite sapp_nil_r, Ed. cbn [mbind option_bind String.length].
  eexists. split; [reflexivity|].
  change (0 - Z.of_nat 0)%Z with 0%Z. apply number_of_integer.
  apply Z.leb_le in Hsafe. destruct neg; lia.
Qed.

Lemma lex_token_wide s t r :
  Json.lex_token s = Some (t, r) -> no_tail r = true ->
  match t with Some t => safe_token t | None => true end = true ->
  lex_token s = Some (option_map wide_token t, r).
Proof.
  destruct s as [|c s]; [discriminate|]. unfold Json.lex_token, lex_token.
  intros H Htail Hsafe.
  repeat match type of H with
         | (if ?b then _ else _) = _ =>
             destruct b; [try (injection H as <- <-; reflexivity)|]
         end; try discriminate.
  - destruct (lex_string s) as [[str r']|]; [|discriminate].
    cbn [mbind option_bind] in H |- *. injection H as <- <-. reflexivity.
  - destruct (Json.lex_number (String c s)) as [[n r']|] eqn:En; [|discriminate].
    cbn [mbind option_bind] in H. injection H as <- <-. cbn [safe_token safe] in Hsafe.
    destruct (lex_numeral_integer _ _ _ En Htail Hsafe) as (x & Ex & Ex').
    rewrite Ex. cbn [mbind option_bind]. rewrite Ex'. reflexivity.
  - destruct (strip_prefix "ull" s) as [r'|]; [|discriminate].
    cbn [mbind option_bind] in H |- *. injection H as <- <-. reflexivity.
  - destruct (strip_prefix "rue" s) as [r'|]; [|discriminate].
    cbn [mbind option_bind] in H |- *. injection H as <- <-. reflexivity.
  - destruct (strip_prefix "alse" s) as [r'|]; [|discriminate].
    cbn [mbind option_bind] in H |- *. injection H as <- <-. reflexivity.
Qed.

Lemma lex_wide fuel : forall s ts,
  Json.lex fuel s = Some ts -> forallb safe_token ts = true ->
  lex fuel s = Some (map wide_token ts).
Proof.
  induction fuel as [|fuel IH]; intros s ts H Hsafe; [discriminate|].
  destruct s as [|c s]; [injection H as <-; reflexivity|].
  cbn [Json.lex lex] in H |- *.
  destruct (Json.lex_token (String c s)) as [[t r]|] eqn:Et; [|discriminate].
  cbn [mbind option_bind] in H.
  destruct (Json.lex fuel r) as [ts'|] eqn:Er; [|discriminate].
  cbn [mbind option_bind] in H. injection H as <-.
  assert (Hsplit : match t with Some t => safe_token t | None => true end = true
                   /\ forallb safe_token ts' = true).
  { destruct t as [t|]; [|auto]. cbn [forallb] in Hsafe.
    apply andb_prop in Hsafe. exact Hsafe. }
  destruct Hsplit as [Ht Hts'].
  rewrite (lex_token_wide _ _ _ Et (lex_no_tail _ _ _ Er) Ht). cbn [mbind option_bind].
  rewrite (IH r ts' Er Hts'). cbn [mbind option_bind].
  destruct t; reflexivity.
Qed.

(** The recogniser of [Json] and this one go step by step. *)
Definition wide_props (props : list (string * json)) : list (string * value) :=
  map (fun kv => (fst kv, wide (snd kv))) props.

Definition wide_frame (f : Json.frame) : frame :=
  match f with
  | Json.InArr items => InArr (map wide items)
  | Json.InObj props k => InObj (wide_props props) k
  end.

Definition wide_state (st : Json.pstate) : pstate :=
  match st with
  | Json.PValue ctx => PValue (map wide_frame ctx)
  | Json.PArrOpen ctx => PArrOpen (map wide_frame ctx)
  | Json.PArrNext items ctx => PArrNext (map wide items) (map wide_frame ctx)
  | Json.PObjOpen ctx => PObjOpen (map wide_frame ctx)
  | Json.PObjKey props ctx => PObjKey (wide_props props) (map wide_frame ctx)
  | Json.PObjColon props k ctx => PObjColon (wide_props props) k (map wide_frame ctx)
  | Json.PObjNext props ctx => PObjNext (wide_props props) (map wide_frame ctx)
  | Json.PDone v => PDone (wide v)
  end.

Lemma set_property_wide props k v :
  set_property (wide_props props) k (wide v) = wide_props (obj_set props k v).
Proof.
  induction props as [|[k' v'] props IH]; [reflexivity|].
  cbn [wide_props map obj_set set_property fst snd].
  destruct (String.eqb k' k); [reflexivity|].
  cbn [map fst snd]. f_equal. exact IH.
Qed.

Lemma reduce_wide v ctx :
  reduce (wide v) (map wide_frame ctx) = wide_state (Json.reduce v ctx).
Proof.
  destruct ctx as [|[items|props k] ctx]; cbn [map wide_frame reduce Json.reduce wide_state].
  - reflexivity.
  - reflexivity.
  - rewrite set_property_wide. reflexivity.
Qed.

Lemma step_value_wide ctx t st :
  Json.step_value ctx t = Some st ->
  step_value (map wide_frame ctx) (wide_token t) = Some (wide_state st).
Proof.
  destruct t; cbn [Json.step_value wide_token step_value]; intros H;
    try discriminate; injection H as <-; try reflexivity.
  rewrite reduce_wide. reflexivity.
Qed.

Lemma step_wide st t st' :
  Json.step st t = Some st' -> step (wide_state st) (wide_token t) = Some (wide_state st').
Proof.
  destruct st; cbn [Json.step wide_state step]; intros H.
  - apply step_value_wide, H.
  - destruct t; try (apply (step_value_wide (Json.InArr [] :: ctx)), H).
    injection H as <-. cbn [wide_token]. rewrite <- reduce_wide. reflexivity.
  - destruct t; try discriminate; injection H as <-; cbn [wide_token wide_state]; 
      [|reflexivity].
    rewrite <- reduce_wide. cbn [wide]. rewrite map_rev. reflexivity.
  - destruct t as [ | | | | | |v]; try discriminate.
    + injection H as <-. cbn [wide_token]. rewrite <- reduce_wide. reflexivity.
    + destruct v; try discriminate. injection H as <-. reflexivity.
  - destruct t as [ | | | | | |v]; try discriminate.
    destruct v; try discriminate. injection H as <-. reflexivity.
  - destruct t; try discriminate. injection H as <-. reflexivity.
  - destruct t; try discriminate; injection H as <-; cbn [wide_token wide_state];
      [|reflexivity].
    rewrite <- reduce_wide. reflexivity.
  - discriminate.
Qed.

Lemma run_wide ts : forall st st',
  Json.run st ts = Some st' -> run (wide_state st) (map wide_token ts) = Some (wide_state st').
Proof.
  induction ts as [|t ts IH]; intros st st' H.
  - injection H as <-. reflexivity.
  - cbn [Json.run map run] in H |- *.
    destruct (Json.step st t) as [st1|] eqn:E; [|discriminate].
    cbn [mbind option_bind] in H. rewrite (step_wide _ _ _ E). cbn [mbind option_bind].
    apply IH, H.
Qed.

Lemma followed_wide ts : forallb followed (map wide_token ts) = true.
Proof. induction ts as [|[] ts IH]; auto. Qed.

Lemma safe_tokens v : safe v = true -> forallb safe_token (tokens v) = true.
Proof.
  induction v as [ | b | n | s | l IH | o IH ] using json_ind'; intros Hs;
    try (cbn [tokens forallb safe_token]; rewrite Hs; reflexivity); try reflexivity.
  - cbn [safe] in Hs. destruct l as [|x r]; [reflexivity|].
    cbn [forallb] in Hs. apply andb_prop in Hs as [Hx Hr].
    inversion IH as [|? ? IHx IHr]; subst.
    cbn [tokens forallb safe_token]. rewrite !forallb_app, (IHx Hx). cbn [andb forallb].
    rewrite andb_true_r. clear IHx Hx IH.
    induction IHr as [|y r IHy _ IHrest]; [reflexivity|].
    cbn [forallb] in Hr. apply andb_prop in Hr as [Hy Hr].
    cbn [flat_map]. rewrite forallb_app. cbn [forallb safe_token andb].
    rewrite (IHy Hy). apply IHrest, Hr.
  - cbn [safe] in Hs. destruct o as [|kv r]; [reflexivity|].
    cbn [forallb] in Hs. apply andb_prop in Hs as [Hx Hr].
    inversion IH as [|? ? IHx IHr]; subst.
    cbn [tokens forallb safe_token safe app]. rewrite !forallb_app, (IHx Hx).
    cbn [andb forallb]. rewrite andb_true_r. clear IHx Hx IH.
    induction IHr as [|y r IHy _ IHrest]; [reflexivity|].
    cbn [forallb] in Hr. apply andb_prop in Hr as [Hy Hr].
    cbn [flat_map]. rewrite forallb_app. cbn [forallb safe_token safe andb].
    rewrite (IHy Hy). apply IHrest, Hr.
Qed.

(** Parsing what [JSON.stringify] printed of a value of integers gives the
    value back, here as in [Json]. *)
Lemma JSON_parse_stringify_wide gap v :
  all_chars is_json_ws gap = true -> wfb v = true -> safe v = true ->
  JSON_parse (stringify_at gap EmptyString (wide v)) = Some (Ok (wide v)).
Proof.
  intros Hgap Hwf Hsafe. rewrite stringify_wide. unfold JSON_parse.
  pose proof (lexes_stringify gap v Hgap EmptyString EmptyString [] eq_refl eq_refl lexes_nil)
    as Hl.
  rewrite sapp_nil_r, app_nil_r in Hl. apply lexes_adequate in Hl.
  rewrite (lex_wide _ _ _ Hl (safe_tokens v Hsafe)).
  pose proof (run_value v Hwf [] []) as Hr. rewrite app_nil_r in Hr.
  cbn [Json.reduce Json.run] in Hr.
  rewrite (run_wide _ _ _ Hr : run (PValue []) _ = _).
  cbn [wide_state]. rewrite followed_wide. reflexivity.
Qed.

End Numbers.

(** ** Annotation Store: [src/scripts/annotations.ts] *)

Module Annotations.
Import Json Js Browser.

Definition STORAGE_KEY : string := "pg-annotations".

Definition getStore : M json :=
  try_catchM
    (item ← getItem STORAGE_KEY; lift (JSON_parse (or_empty_object item)))
    (mret (JObj [])).

Definition saveStore (store : json) : M unit :=
  setItem STORAGE_KEY (JSON_stringify store).

Definition getAnnotations (slug : string) : M json :=
  store ← getStore;
  annotations ← lift (get_member store slug);
  mret (or_else annotations (JArr [])).

Definition getAllAnnotations : M json := getStore.

Inductive format : Type := json_format | text_format.

Definition contains (out part : string) : Prop :=
  exists before after, out = before +:+ part +:+ after.

Section TextExport.

(** [new Date(v).toLocaleDateString()] for a primitive [v] or [undefined];
    what it prints depends on the locale of the browser. *)
Variable toLocaleDateString : option json -> string.

Definition heading : string := "Paul Graham Essays — My Highlights" +:+ nl +:+ nl.

(** [new Date(v).toLocaleDateString()]: an array or an object is first
    converted to a string. *)
Definition date_of (v : option json) : res string :=
  match v with
  | Some (JArr items) =>
      s ← to_string (JArr items); Ok (toLocaleDateString (Some (JStr s)))
  | Some (JObj o) =>
      s ← to_string (JObj o); Ok (toLocaleDateString (Some (JStr s)))
  | _ => Ok (toLocaleDateString v)
  end.

(** The two lines of one highlight *)
Definition highlight_lines (a : json) : res string :=
  text ← get_member a "text";
  text ← to_string_opt text;
  color ← get_member a "color";
  color ← to_string_opt color;
  createdAt ← get_member a "createdAt";
  date ← date_of createdAt;
  Ok ("> " +:+ text +:+ nl +:+
      "  [" +:+ color +:+ "] — " +:+ date +:+ nl +:+ nl).

(** The loops append to [text] *)
Definition append_highlight (text : res string) (a : json) : res string :=
  t ← text; lines ← highlight_lines a; Ok (t +:+ lines).

Definition append_document (text : res string) (entry : string * json) : res string :=
  t ← text;
  annotations ← iterate (Some (snd entry));
  fold_left append_highlight annotations (Ok (t +:+ "## " +:+ fst entry +:+ nl +:+ nl)).

Definition exportAnnotations (f : format) : M string :=
  store ← getStore;
  match f with
  | json_format => mret (JSON_stringify_pretty 2 store)
  | text_format =>
      entries ← lift (Object_entries store);
      lift (fold_left append_document entries (Ok heading))
  end.

End TextExport.

(** *** Containment of strings *)

Lemma contains_refl s : contains s s.
Proof. exists EmptyString, EmptyString. rewrite sapp_nil_r. reflexivity. Qed.

Lemma contains_app_l a b part : contains b part -> contains (a +:+ b) part.
Proof.
  intros (x & y & ->). exists (a +:+ x), y. rewrite sapp_assoc. reflexivity.
Qed.

Lemma contains_app_r a b part : contains a part -> contains (a +:+ b) part.
Proof.
  intros (x & y & ->). exists x, (y +:+ b). rewrite !sapp_assoc. reflexivity.
Qed.

Lemma contains_sconcat {A} (f : A -> string) l x :
  In x l -> contains (sconcat (map f l)) (f x).
Proof.
  induction l as [|y l IH]; simpl; [contradiction|]. intros [->|Hin].
  - apply contains_app_r, contains_refl.
  - apply contains_app_l, IH, Hin.
Qed.

(** *** The text digest of a store of highlights *)

(** A highlight as the store types it: an object whose [text], [color] and
    [createdAt] are strings *)
Definition is_highlight (a : json) : bool :=
  match a with
  | JObj fields =>
      match obj_get fields "text", obj_get fields "color", obj_get fields "createdAt" with
      | Some (JStr _), Some (JStr _), Some (JStr _) => true
      | _, _, _ => false
      end
  | _ => false
  end.

(** An [AnnotationStore]: every document has an array of highlights. *)
Definition typed_store (docs : list (string * json)) : bool :=
  forallb (fun entry => match snd entry with
                        | JArr annotations => forallb is_highlight annotations
                        | _ => false
                        end) docs.

Section Digest.

Variable toLocaleDateString : option json -> string.

Definition lines_of (a : json) : string :=
  match highlight_lines toLocaleDateString a with
  | Ok s => s
  | Throw _ => EmptyString
  end.

Definition block_of (entry : string * json) : string :=
  "## " +:+ fst entry +:+ nl +:+ nl +:+
  match snd entry with
  | JArr annotations => sconcat (map lines_of annotations)
  | _ => EmptyString
  end.

Lemma highlight_lines_typed fields text color :
  is_highlight (JObj fields) = true ->
  obj_get fields "text" = Some (JStr text) ->
  obj_get fields "color" = Some (JStr color) ->
  exists date,
    highlight_lines toLocaleDateString (JObj fields)
    = Ok ("> " +:+ text +:+ nl +:+ "  [" +:+ color +:+ "] — " +:+ date +:+ nl +:+ nl).
Proof.
  unfold is_highlight, highlight_lines. intros Hh Ht Hc. cbn [get_member].
  rewrite Ht, Hc in *.
  destruct (obj_get fields "createdAt") as [[ | | |created| | ]|]; try discriminate.
  eexists. reflexivity.
Qed.

Lemma highlight_lines_ok a :
  is_highlight a = true -> highlight_lines toLocaleDateString a = Ok (lines_of a).
Proof.
  intros Hh. destruct a as [ | | | | |fields]; try discriminate.
  pose proof Hh as Hh'. unfold is_highlight in Hh'.
  destruct (obj_get fields "text") as [[ | | |text| | ]|] eqn:Et; try discriminate.
  destruct (obj_get fields "color") as [[ | | |color| | ]|] eqn:Ec; try discriminate.
  destruct (highlight_lines_typed fields text color Hh Et Ec) as (date & E).
  unfold lines_of. rewrite E. reflexivity.
Qed.

Lemma fold_highlights annotations : forall t,
  forallb is_highlight annotations = true ->
  fold_left (append_highlight toLocaleDateString) annotations (Ok t)
  = Ok (t +:+ sconcat (map lines_of annotations)).
Proof.
  induction annotations as [|a r IH]; intros t H; simpl.
  - rewrite sapp_nil_r. reflexivity.
  - simpl in H. apply andb_prop in H as [Ha Hr].
    rewrite (highlight_lines_ok a Ha). cbn [mbind res_bind].
    rewrite IH by exact Hr. rewrite sapp_assoc. reflexivity.
Qed.

Lemma fold_documents docs : forall t,
  typed_store docs = true ->
  fold_left (append_document toLocaleDateString) docs (Ok t)
  = Ok (t +:+ sconcat (map block_of docs)).
Proof.
  induction docs as [|[slug v] docs IH]; intros t H; simpl.
  - rewrite sapp_nil_r. reflexivity.
  - simpl in H. apply andb_prop in H as [Hv Hdocs].
    destruct v as [ | | | |annotations| ]; try discriminate.
    cbn [mbind res_bind].
    rewrite fold_highlights by exact Hv. rewrite IH by exact Hdocs.
    unfold block_of. cbn [fst snd]. rewrite !sapp_assoc. reflexivity.
Qed.

End Digest.

Lemma getStore_outcome w : exists v, getStore w = (Ok v, w) /\ wfb v = true.
Proof.
  unfold getStore, try_catchM, getItem, mbind, M_bind, mret, M_ret, lift.
  destruct (storage w) as [|m]; [exists (JObj []); auto|].
  destruct (JSON_parse (or_empty_object (m !! STORAGE_KEY))) as [v|e] eqn:E.
  - exists v. split; [reflexivity|]. exact (JSON_parse_wf _ _ E).
  - exists (JObj []). auto.
Qed.

(** *** Claim C8 *)

(** [getStore], where [JSON.parse] reads every numeral of the grammar and a
    numeral beyond the range of the doubles as an infinity.  [None]: the
    stored text holds a number that the embedding does not follow. *)
Definition getStore_numbers (w : world) : option Numbers.value :=
  match getItem STORAGE_KEY w with
  | (Ok item, _) =>
      match Numbers.JSON_parse (or_empty_object item) with
      | Some (Ok store) => Some store
      | Some (Throw _) => Some (Numbers.VObj [])
      | None => None
      end
  | (Throw _, _) => Some (Numbers.VObj [])
  end.

(** [exportAnnotations("json")] on that store *)
Definition exportAnnotations_json_numbers (w : world) : option string :=
  store ← getStore_numbers w; Some (Numbers.JSON_stringify_pretty 2 store).

(** A page whose stored highlight has the offset [1e999] *)
Definition page_with_overflow : world :=
  page {[ STORAGE_KEY :=
            "{" +:+ quote "avg" +:+ ":[{" +:+ quote "startOffset" +:+ ":1e999}]}" ]}.

(** C8, counterexample: a store that holds an infinity does not round-trip.
    The numeral [1e999] is read as [Infinity], which
    [exportAnnotations("json")] prints as [null]; parsing the export gives
    [null] where the store in memory has [Infinity]. *)
Lemma export_loses_infinity :
  exists out,
    getStore_numbers page_with_overflow
    = Some (Numbers.VObj
              [("avg", Numbers.VArr
                         [Numbers.VObj
                            [("startOffset", Numbers.VNum (Numbers.Infinity false))]])]) /\
    exportAnnotations_json_numbers page_with_overflow = Some out /\
    Numbers.JSON_parse out
    = Some (Ok (Numbers.VObj
                  [("avg", Numbers.VArr [Numbers.VObj [("startOffset", Numbers.VNull)]])])) /\
    Numbers.JSON_parse out <> option_map Ok (getStore_numbers page_with_overflow).
Proof.
  eexists. split; [vm_compute; reflexivity|].
  split; [vm_compute; reflexivity|].
  split; [vm_compute; reflexivity|].
  vm_compute. discriminate.
Qed.

(** C8, as amended.  Let the store be a value of integers that are doubles,
    read alike with and without the numerals beyond the integers.  Parsing
    the string that [exportAnnotations("json")] returns gives the store
    back, in either reading; and on a store of highlights the string that
    [exportAnnotations("text")] returns contains, for every highlight of
    every document, the quoted text and the color tag. *)
Theorem export_round_trips_and_lists_highlights
    (toLocaleDateString : option json -> string) (w : world) (store : json) :
  getStore w = (Ok store, w) ->
  getStore_numbers w = Some (Numbers.wide store) ->
  Numbers.safe store = true ->
  (exists out,
     exportAnnotations toLocaleDateString json_format w = (Ok out, w) /\
     JSON_parse out = Ok store /\
     exportAnnotations_json_numbers w = Some out /\
     Numbers.JSON_parse out = Some (Ok (Numbers.wide store))) /\
  (forall docs,
     store = JObj docs -> typed_store docs = true ->
     exists out,
       exportAnnotations toLocaleDateString text_format w = (Ok out, w) /\
       forall slug annotations fields text color,
         In (slug, JArr annotations) docs -> In (JObj fields) annotations ->
         obj_get fields "text" = Some (JStr text) ->
         obj_get fields "color" = Some (JStr color) ->
         contains out ("> " +:+ text +:+ nl) /\
         contains out ("[" +:+ color +:+ "]")).
Proof.
  intros Hget Hnumbers Hsafe.
  assert (Hwf : wfb store = true).
  { destruct (getStore_outcome w) as (store' & Hget' & Hwf).
    rewrite Hget in Hget'. injection Hget' as <-. exact Hwf. }
  split.
  - exists (JSON_stringify_pretty 2 store).
    split; [unfold exportAnnotations, mbind, M_bind; rewrite Hget; reflexivity|].
    split; [apply JSON_parse_stringify_pretty, Hwf|].
    assert (Hout : Numbers.JSON_stringify_pretty 2 (Numbers.wide store)
                   = JSON_stringify_pretty 2 store) by apply Numbers.stringify_wide.
    split.
    + unfold exportAnnotations_json_numbers. rewrite Hnumbers. cbn [mbind option_bind].
      rewrite Hout. reflexivity.
    + rewrite <- Hout.
      apply Numbers.JSON_parse_stringify_wide; [apply spaces_ws|exact Hwf|exact Hsafe].
  - intros docs -> Htyped.
    exists (heading +:+ sconcat (map (block_of toLocaleDateString) docs)). split.
    + unfold exportAnnotations, mbind, M_bind. rewrite Hget. cbn [Object_entries lift own_entries].
      rewrite fold_documents by exact Htyped. reflexivity.
    + intros slug annotations fields text color Hdoc Ha Ht Hc.
      assert (Hh : is_highlight (JObj fields) = true).
      { unfold typed_store in Htyped. rewrite forallb_forall in Htyped.
        specialize (Htyped _ Hdoc). cbn [snd] in Htyped.
        rewrite forallb_forall in Htyped. exact (Htyped _ Ha). }
      destruct (highlight_lines_typed toLocaleDateString fields text color Hh Ht Hc)
        as (date & Hlines).
      assert (Hblock : forall part,
                contains (lines_of toLocaleDateString (JObj fields)) part ->
                contains (heading +:+ sconcat (map (block_of toLocaleDateString) docs)) part).
      { intros part Hpart. apply contains_app_l.
        destruct (contains_sconcat (block_of toLocaleDateString) docs _ Hdoc)
          as (x & y & ->).
        apply contains_app_l, contains_app_r.
        unfold block_of. cbn [fst snd]. do 4 apply contains_app_l.
        destruct (contains_sconcat (lines_of toLocaleDateString) annotations _ Ha)
          as (x' & y' & ->).
        apply contains_app_l, contains_app_r, Hpart. }
      unfold lines_of in Hblock. rewrite Hlines in Hblock. split; apply Hblock.
      * exists EmptyString. eexists. rewrite sapp_nil_l, !sapp_assoc. reflexivity.
      * exists ("> " +:+ text +:+ nl +:+ "  "). eexists.
        rewrite !sapp_assoc. reflexivity.
Qed.


(** A store with one yellow and one green highlight *)
Definition sample_store : json :=
  JObj [("avg", JArr [JObj [("id", JStr "0b5f3c1e-6f6e-4a53-9a39-0d1c4f5b7a10");
                            ("essaySlug", JStr "avg");
                            ("text", JStr "Lisp is a powerful language");
                            ("color", JStr "yellow");
                            ("startOffset", JNum 0); ("endOffset", JNum 0);
                            ("parentSelector", JStr EmptyString);
                            ("createdAt", JStr "2026-02-09T10:00:00.000Z")]]);
        ("say", JArr [JObj [("id", JStr "7d0f2a44-3b1c-4c8e-8f55-2e9a6a1d3c77");
                            ("essaySlug", JStr "say");
                            ("text", JStr "Keep your identity small");
                            ("color", JStr "green");
                            ("startOffset", JNum 0); ("endOffset", JNum 0);
                            ("parentSelector", JStr EmptyString);
                            ("createdAt", JStr "2026-02-09T11:00:00.000Z")]])].

Definition sample_page : world :=
  page {[ STORAGE_KEY := JSON_stringify sample_store ]}.

Lemma export_round_trips_and_lists_highlights_witness :
  (exists out,
     exportAnnotations (fun _ => "2/9/2026") json_format sample_page = (Ok out, sample_page) /\
     JSON_parse out = Ok sample_store /\
     exportAnnotations_json_numbers sample_page = Some out /\
     Numbers.JSON_parse out = Some (Ok (Numbers.wide sample_store))) /\
  (exists out,
     exportAnnotations (fun _ => "2/9/2026") text_format sample_page = (Ok out, sample_page) /\
     contains out ("> " +:+ "Keep your identity small" +:+ nl) /\
     contains out ("[" +:+ "green" +:+ "]")).
Proof.
  assert (Hstore : getStore sample_page = (Ok sample_store, sample_page))
    by (vm_compute; reflexivity).
  assert (Hnumbers : getStore_numbers sample_page = Some (Numbers.wide sample_store))
    by (vm_compute; reflexivity).
  destruct (export_round_trips_and_lists_highlights (fun _ => "2/9/2026") sample_page
              sample_store Hstore Hnumbers eq_refl) as [Hjson Htext].
  split; [exact Hjson|].
  destruct (Htext _ eq_refl eq_refl) as (out' & Hexport' & Hall).
  exists out'. split; [exact Hexport'|].
  eapply (Hall "say"); [right; left; reflexivity|left; reflexivity| |]; reflexivity.
Defined.


(** *** Adding and removing highlights *)

(** The store after [if (!store[slug]) store[slug] = []] and
    [store[slug].push(full)], as [JSON.stringify] will print it.
    - On [null] the read of [store[slug]] is a TypeError.
    - On a number, a boolean or a string the property is a character or a
      length, which has no [push], or it is missing and the assignment of
      [[]] fails in strict mode.
    - On an array the length has no [push]; an index beyond the end leaves
      holes, printed as [null]; a property that is not an index is not
      printed with the array. *)
Definition push_annotation (store : json) (slug : string) (full : json) : res json :=
  match store with
  | JNull | JBool _ | JNum _ | JStr _ => Throw TypeError
  | JObj o =>
      match obj_get o slug with
      | Some (JArr items) => Ok (JObj (obj_set o slug (JArr (items ++ [full]))))
      | Some v =>
          if truthy v then Throw TypeError
          else Ok (JObj (obj_set o slug (JArr [full])))
      | None => Ok (JObj (obj_set o slug (JArr [full])))
      end
  | JArr items =>
      if String.eqb slug "length" then Throw TypeError
      else
        match array_index slug with
        | Some i =>
            match nth_error items i with
            | Some (JArr sub) =>
                Ok (JArr (take i items ++ JArr (sub ++ [full]) :: drop (S i) items))
            | Some v =>
                if truthy v then Throw TypeError
                else Ok (JArr (take i items ++ JArr [full] :: drop (S i) items))
            | None =>
                Ok (JArr (items ++ repeat JNull (i - length items) ++ [JArr [full]]))
            end
        | None => Ok (JArr items)
        end
  end.

(** [uuid] is what [crypto.randomUUID()] returns and [now] is the reading of
    the clock, [new Date().toISOString()]. *)
Definition addAnnotation (slug : string) (annotation : list (string * json))
    (uuid now : string) : M (list (string * json)) :=
  store ← getStore;
  let full :=
    obj_set (obj_set (spread [] (Some (JObj annotation)))
      "id" (JStr uuid))
      "createdAt" (JStr now) in
  store ← lift (push_annotation store slug (JObj full));
  saveStore store;;
  mret full.

(** The callback [(a) => a.id !== id] *)
Definition other_id (id : string) (a : json) : res bool :=
  v ← get_member a "id"; Ok (negb (strict_eq v id)).

(** [items.filter(p)] for a callback that may throw *)
Fixpoint filter_res {A} (p : A -> res bool) (l : list A) : res (list A) :=
  match l with
  | [] => Ok []
  | x :: r =>
      b ← p x; kept ← filter_res p r; Ok (if b : bool then x :: kept else kept)
  end.

Definition is_nil {A} (l : list A) : bool :=
  match l with [] => true | _ => false end.

(** The store that [removeAnnotation] saves, or [None] when [store[slug]] is
    not truthy and nothing is saved.  A truthy value that is no array has no
    [filter]; the list left empty is deleted from an object, and from an
    array it leaves a hole, printed as [null]. *)
Definition without_annotation (store : json) (slug id : string) : res (option json) :=
  match store with
  | JNull => Throw TypeError
  | JBool _ | JNum _ => Ok None
  | JStr s =>
      match indexed_get (chars_of s) slug with
      | Some v => if truthy v then Throw TypeError else Ok None
      | None => Ok None
      end
  | JObj o =>
      match obj_get o slug with
      | Some (JArr items) =>
          kept ← filter_res (other_id id) items;
          let o := obj_set o slug (JArr kept) in
          Ok (Some (JObj (if is_nil kept then obj_delete o slug else o)))
      | Some v => if truthy v then Throw TypeError else Ok None
      | None => Ok None
      end
  | JArr items =>
      match indexed_get items slug with
      | Some (JArr sub) =>
          kept ← filter_res (other_id id) sub;
          match array_index slug with
          | Some i =>
              Ok (Some (JArr (take i items
                              ++ (if is_nil kept then JNull else JArr kept)
                              :: drop (S i) items)))
          | None => Ok None
          end
      | Some v => if truthy v then Throw TypeError else Ok None
      | None => Ok None
      end
  end.

Definition removeAnnotation (slug id : string) : M unit :=
  store ← getStore;
  store ← lift (without_annotation store slug id);
  match store with
  | Some store => saveStore store
  | None => mret tt
  end.


(** *** The store as a function of its object *)

(** The storage is accessible and holds the store object [o]. *)
Definition holds (w : world) (o : list (string * json)) : Prop :=
  (exists m, storage w = Items m) /\ getStore w = (Ok (JObj o), w).

(** The record that [addAnnotation] stores and returns *)
Definition full_annotation (annotation : list (string * json)) (uuid now : string)
  : list (string * json) :=
  obj_set (obj_set annotation "id" (JStr uuid)) "createdAt" (JStr now).

(** The highlights that [store[slug].push] extends: none when the entry is
    missing or falsy; [None] when the entry is truthy and no array. *)
Definition listed (o : list (string * json)) (slug : string) : option (list json) :=
  match obj_get o slug with
  | Some (JArr items) => Some items
  | Some v => if truthy v then None else Some []
  | None => Some []
  end.

(** [a.id === id] for a highlight [a] *)
Definition has_id (id : string) (a : json) : bool :=
  strict_eq (get_member_opt (Some a) "id") id.

Definition without_id (id : string) (items : list json) : list json :=
  List.filter (fun a => negb (has_id id a)) items.

Lemma getStore_saved m rt v :
  wfb v = true ->
  getStore {| storage := Items (<[STORAGE_KEY := JSON_stringify v]> m); root := rt |}
  = (Ok v, {| storage := Items (<[STORAGE_KEY := JSON_stringify v]> m); root := rt |}).
Proof.
  intros Hwf.
  unfold getStore, try_catchM, getItem, mbind, M_bind, mret, M_ret, lift.
  cbn [storage]. rewrite lookup_insert_eq. unfold or_empty_object.
  rewrite (JSON_stringify_nonempty v Hwf), (JSON_parse_stringify v Hwf). reflexivity.
Qed.

Lemma held_store_wf w o : holds w o -> wfb (JObj o) = true.
Proof.
  intros [_ H]. destruct (getStore_outcome w) as (v & E & Hwf).
  rewrite E in H. injection H as ->. exact Hwf.
Qed.

Lemma getAnnotations_holds w o slug :
  holds w o -> getAnnotations slug w = (Ok (or_else (obj_get o slug) (JArr [])), w).
Proof.
  intros [_ Hget]. unfold getAnnotations, mbind, M_bind. rewrite Hget. reflexivity.
Qed.

Lemma obj_set_set o k v v' : obj_set (obj_set o k v) k v' = obj_set o k v'.
Proof.
  induction o as [|[k0 v0] o IH]; simpl.
  - rewrite String.eqb_refl. reflexivity.
  - destruct (String.eqb k0 k) eqn:E; simpl.
    + rewrite String.eqb_refl. reflexivity.
    + rewrite E, IH. reflexivity.
Qed.

Lemma obj_set_same o k v : obj_get o k = Some v -> obj_set o k v = o.
Proof.
  induction o as [|[k0 v0] o IH]; simpl; [discriminate|].
  destruct (String.eqb_spec k0 k) as [->|Hne].
  - intros [= ->]. reflexivity.
  - intros H. rewrite (IH H). reflexivity.
Qed.

Lemma obj_delete_absent o k : obj_get o k = None -> obj_delete o k = o.
Proof.
  induction o as [|[k0 v0] o IH]; simpl; [reflexivity|].
  destruct (String.eqb k0 k); [discriminate|]. intros H. rewrite (IH H). reflexivity.
Qed.

Lemma obj_delete_set_absent o k v :
  obj_get o k = None -> obj_delete (obj_set o k v) k = o.
Proof.
  induction o as [|[k0 v0] o IH]; simpl.
  - rewrite String.eqb_refl. reflexivity.
  - destruct (String.eqb k0 k) eqn:E; [discriminate|]. intros H.
    simpl. rewrite E, (IH H). reflexivity.
Qed.

Lemma obj_delete_In o k x : In x (obj_delete o k) -> In x o.
Proof.
  induction o as [|[k0 v0] o IH]; simpl; [auto|].
  destruct (String.eqb k0 k); simpl; intuition.
Qed.

Lemma wfb_obj_delete o k : wfb (JObj o) = true -> wfb (JObj (obj_delete o k)) = true.
Proof.
  simpl. intros H. apply andb_prop in H as [Hnd Hall].
  apply nodupb_NoDup in Hnd. apply andb_true_intro. split.
  - apply nodupb_NoDup. clear Hall. induction o as [|[k0 v0] o IH]; simpl; [constructor|].
    simpl in Hnd. apply NoDup_cons in Hnd as [Hnin Hnd].
    destruct (String.eqb k0 k); [exact (IH Hnd)|]. simpl. apply NoDup_cons.
    split; [|exact (IH Hnd)]. intros Hin. apply Hnin.
    apply list_elem_of_In in Hin. apply list_elem_of_In.
    apply in_map_iff in Hin as (x & <- & Hx). apply in_map, (obj_delete_In _ _ _ Hx).
  - rewrite forallb_forall in Hall |- *. intros x Hx.
    exact (Hall x (obj_delete_In _ _ _ Hx)).
Qed.

Lemma filter_res_other_id id items :
  ~ In JNull items -> filter_res (other_id id) items = Ok (without_id id items).
Proof.
  induction items as [|a items IH]; intros Hnull; [reflexivity|].
  cbn [filter_res]. unfold without_id in *. cbn [List.filter].
  rewrite IH by (intros H; apply Hnull; right; exact H).
  assert (Ha : other_id id a = Ok (negb (has_id id a))).
  { unfold other_id, has_id. destruct a; try reflexivity.
    exfalso. apply Hnull. left. reflexivity. }
  rewrite Ha. cbn [mbind res_bind]. destruct (negb (has_id id a)); reflexivity.
Qed.

Lemma without_id_wf id items :
  forallb wfb items = true -> forallb wfb (without_id id items) = true.
Proof.
  intros H. rewrite forallb_forall in H |- *. intros x Hx.
  apply filter_In in Hx as [Hx _]. exact (H x Hx).
Qed.

Lemma full_annotation_wf annotation uuid now :
  wfb (JObj annotation) = true -> wfb (JObj (full_annotation annotation uuid now)) = true.
Proof.
  intros H. unfold full_annotation. repeat (apply wfb_obj_set; [|reflexivity]). exact H.
Qed.

Lemma listed_wf o slug items :
  wfb (JObj o) = true -> listed o slug = Some items -> forallb wfb items = true.
Proof.
  intros Hwf. unfold listed. destruct (obj_get o slug) as [v|] eqn:E.
  - pose proof (obj_get_wf o slug v Hwf E) as Hv.
    destruct v; try (destruct (truthy _); intros [= <-]; reflexivity).
    intros [= <-]. exact Hv.
  - intros [= <-]. reflexivity.
Qed.

(** The store object after [addAnnotation] *)
Definition added (o : list (string * json)) (slug : string) (items : list json)
    (full : list (string * json)) : list (string * json) :=
  obj_set o slug (JArr (items ++ [JObj full])).

Lemma addAnnotation_holds w o slug annotation uuid now items :
  holds w o -> wfb (JObj annotation) = true -> listed o slug = Some items ->
  exists w',
    addAnnotation slug annotation uuid now w
    = (Ok (full_annotation annotation uuid now), w')
    /\ holds w' (added o slug items (full_annotation annotation uuid now))
    /\ root w' = root w.
Proof.
  intros Hw Ha Hl. pose proof (held_store_wf w o Hw) as Hwf. destruct Hw as [[m Hm] Hget].
  assert (Hspread : spread [] (Some (JObj annotation)) = annotation).
  { apply spread_nil_obj. simpl in Ha. apply andb_prop in Ha as [Ha _].
    apply nodupb_NoDup, Ha. }
  assert (Hpush : push_annotation (JObj o) slug (JObj (full_annotation annotation uuid now))
                  = Ok (JObj (added o slug items (full_annotation annotation uuid now)))).
  { unfold push_annotation, added. unfold listed in Hl.
    destruct (obj_get o slug) as [v|]; [|injection Hl as <-; reflexivity].
    destruct v; try (destruct (truthy _); [discriminate|injection Hl as <-; reflexivity]).
    injection Hl as <-. reflexivity. }
  unfold addAnnotation, mbind, M_bind. rewrite Hget, Hspread. cbn [lift].
  fold (full_annotation annotation uuid now). rewrite Hpush.
  unfold saveStore, setItem. rewrite Hm. unfold mret, M_ret.
  eexists. split; [reflexivity|]. split; [|reflexivity].
  split; [eexists; reflexivity|]. apply getStore_saved.
  apply wfb_obj_set; [exact Hwf|]. cbn [wfb]. rewrite forallb_app.
  rewrite (listed_wf o slug items Hwf Hl). cbn [forallb].
  rewrite (full_annotation_wf annotation uuid now Ha). reflexivity.
Qed.

(** The store object after [removeAnnotation] *)
Definition removed (o : list (string * json)) (slug : string) (kept : list json)
  : list (string * json) :=
  if is_nil kept then obj_delete (obj_set o slug (JArr kept)) slug
  else obj_set o slug (JArr kept).

Lemma removeAnnotation_holds w o slug id items :
  holds w o -> obj_get o slug = Some (JArr items) -> ~ In JNull items ->
  exists w',
    removeAnnotation slug id w = (Ok tt, w')
    /\ holds w' (removed o slug (without_id id items))
    /\ stored w' STORAGE_KEY
       = Some (JSON_stringify (JObj (removed o slug (without_id id items))))
    /\ root w' = root w.
Proof.
  intros Hw Hslug Hnull. pose proof (held_store_wf w o Hw) as Hwf. destruct Hw as [[m Hm] Hget].
  unfold removeAnnotation, mbind, M_bind. rewrite Hget. cbn [lift without_annotation].
  rewrite Hslug, (filter_res_other_id id items Hnull). cbn [mbind res_bind].
  fold (removed o slug (without_id id items)).
  unfold saveStore, setItem. rewrite Hm.
  eexists. split; [reflexivity|].
  split; [|split; [unfold stored; cbn [storage]; apply lookup_insert_eq|reflexivity]].
  split; [eexists; reflexivity|]. apply getStore_saved.
  assert (Hset : wfb (JObj (obj_set o slug (JArr (without_id id items)))) = true).
  { apply wfb_obj_set; [exact Hwf|]. cbn [wfb]. apply without_id_wf.
    exact (obj_get_wf o slug _ Hwf Hslug). }
  unfold removed. destruct (is_nil (without_id id items)); [|exact Hset].
  apply wfb_obj_delete, Hset.
Qed.


(** *** What adding and removing do to the store *)

Lemma without_id_all id items :
  Forall (fun a => has_id id a = false) items -> without_id id items = items.
Proof.
  unfold without_id. induction 1 as [|a l Ha Hl IH]; [reflexivity|].
  cbn [List.filter]. rewrite Ha. cbn [negb]. rewrite IH. reflexivity.
Qed.

(** [addAnnotation] puts the new highlight behind the highlights of its
    document: it returns the record of the caller with a new [id] and
    [createdAt], [getAnnotations] then lists it last, and the other
    documents keep their highlights. *)
Theorem addAnnotation_appends w o slug annotation uuid now items :
  holds w o ->
  wfb (JObj annotation) = true ->
  listed o slug = Some items ->
  exists w' o',
    addAnnotation slug annotation uuid now w
    = (Ok (full_annotation annotation uuid now), w')
    /\ holds w' o'
    /\ getAnnotations slug w'
       = (Ok (JArr (items ++ [JObj (full_annotation annotation uuid now)])), w')
    /\ (forall other, other <> slug -> obj_get o' other = obj_get o other)
    /\ obj_get (full_annotation annotation uuid now) "id" = Some (JStr uuid)
    /\ obj_get (full_annotation annotation uuid now) "createdAt" = Some (JStr now)
    /\ (forall field, field <> "id" -> field <> "createdAt" ->
          obj_get (full_annotation annotation uuid now) field = obj_get annotation field).
Proof.
  intros Hw Ha Hl.
  destruct (addAnnotation_holds w o slug annotation uuid now items Hw Ha Hl)
    as (w' & Hadd & Hw' & _).
  exists w', (added o slug items (full_annotation annotation uuid now)).
  split; [exact Hadd|]. split; [exact Hw'|]. split.
  { rewrite (getAnnotations_holds w' _ slug Hw'). unfold added.
    rewrite obj_get_set_eq. reflexivity. }
  split; [intros other Hne; unfold added; apply obj_get_set_ne; congruence|].
  unfold full_annotation. split.
  { rewrite obj_get_set_ne by discriminate. apply obj_get_set_eq. }
  split; [apply obj_get_set_eq|].
  intros field Hid Hcreated. rewrite !obj_get_set_ne by congruence. reflexivity.
Qed.

(** A highlight of the reader, as the color buttons pass it *)
Definition sample_highlight : list (string * json) :=
  [("essaySlug", JStr "say"); ("text", JStr "Politics is identity");
   ("color", JStr "pink"); ("startOffset", JNum 0); ("endOffset", JNum 0);
   ("parentSelector", JStr EmptyString)].

Definition sample_objects : list (string * json) :=
  match sample_store with
  | JObj o => o
  | _ => []
  end.

Lemma sample_page_holds : holds sample_page sample_objects.
Proof. split; [eexists; reflexivity|vm_compute; reflexivity]. Qed.

Lemma addAnnotation_appends_witness :
  exists w' o',
    addAnnotation "say" sample_highlight "c1e0" "2026-02-10T09:00:00.000Z" sample_page
    = (Ok (full_annotation sample_highlight "c1e0" "2026-02-10T09:00:00.000Z"), w')
    /\ holds w' o'
    /\ getAnnotations "say" w'
       = (Ok (JArr (default [] (listed sample_objects "say")
                    ++ [JObj (full_annotation sample_highlight "c1e0"
                                "2026-02-10T09:00:00.000Z")])), w')
    /\ (forall other, other <> "say" -> obj_get o' other = obj_get sample_objects other)
    /\ obj_get (full_annotation sample_highlight "c1e0" "2026-02-10T09:00:00.000Z") "id"
       = Some (JStr "c1e0")
    /\ obj_get (full_annotation sample_highlight "c1e0" "2026-02-10T09:00:00.000Z")
         "createdAt" = Some (JStr "2026-02-10T09:00:00.000Z")
    /\ (forall field, field <> "id" -> field <> "createdAt" ->
          obj_get (full_annotation sample_highlight "c1e0" "2026-02-10T09:00:00.000Z") field
          = obj_get sample_highlight field).
Proof.
  exact (addAnnotation_appends sample_page sample_objects "say" sample_highlight
           "c1e0" "2026-02-10T09:00:00.000Z" _ sample_page_holds eq_refl eq_refl).
Defined.

(** [removeAnnotation] on a document whose entry is a list of highlights,
    none of them [null]: [getAnnotations] then lists the highlights with another [id],
    in their order; the entry of the document is deleted when none is left;
    the other documents keep their highlights; and when no highlight has the
    [id], all highlights stay. *)
Theorem removeAnnotation_removes w o slug id items :
  holds w o ->
  obj_get o slug = Some (JArr items) ->
  ~ In JNull items ->
  exists w' o',
    removeAnnotation slug id w = (Ok tt, w')
    /\ holds w' o'
    /\ getAnnotations slug w' = (Ok (JArr (without_id id items)), w')
    /\ obj_get o' slug
       = (if is_nil (without_id id items) then None
          else Some (JArr (without_id id items)))
    /\ (forall other, other <> slug -> obj_get o' other = obj_get o other)
    /\ Forall (fun a => has_id id a = false /\ In a items) (without_id id items)
    /\ (Forall (fun a => has_id id a = false) items -> without_id id items = items).
Proof.
  intros Hw Hslug Hnull.
  destruct (removeAnnotation_holds w o slug id items Hw Hslug Hnull)
    as (w' & Hrm & Hw' & _ & _).
  exists w', (removed o slug (without_id id items)).
  split; [exact Hrm|]. split; [exact Hw'|].
  assert (Hentry : obj_get (removed o slug (without_id id items)) slug
                   = if is_nil (without_id id items) then None
                     else Some (JArr (without_id id items))).
  { unfold removed. destruct (is_nil (without_id id items)).
    - apply obj_get_delete_eq.
    - apply obj_get_set_eq. }
  split.
  { rewrite (getAnnotations_holds w' _ slug Hw'), Hentry.
    destruct (without_id id items); reflexivity. }
  split; [exact Hentry|]. split.
  { intros other Hne. unfold removed. destruct (is_nil (without_id id items)).
    - rewrite obj_get_delete_ne by congruence. apply obj_get_set_ne. congruence.
    - apply obj_get_set_ne. congruence. }
  split.
  { apply List.Forall_forall. intros a Ha. apply filter_In in Ha as [Ha Hid].
    apply negb_true_iff in Hid. auto. }
  apply without_id_all.
Qed.

Lemma removeAnnotation_removes_witness :
  exists w' o',
    removeAnnotation "say" "7d0f2a44-3b1c-4c8e-8f55-2e9a6a1d3c77" sample_page = (Ok tt, w')
    /\ holds w' o'
    /\ getAnnotations "say" w' = (Ok (JArr []), w')
    /\ obj_get o' "say" = None
    /\ (forall other, other <> "say" -> obj_get o' other = obj_get sample_objects other).
Proof.
  destruct (removeAnnotation_removes sample_page sample_objects "say"
              "7d0f2a44-3b1c-4c8e-8f55-2e9a6a1d3c77" _ sample_page_holds eq_refl)
    as (w' & o' & H1 & H2 & H3 & H4 & H5 & _).
  { simpl. intros [H|[]]. discriminate H. }
  exists w', o'. auto.
Defined.


Lemma has_id_full annotation uuid now :
  has_id uuid (JObj (full_annotation annotation uuid now)) = true.
Proof.
  unfold has_id, full_annotation. cbn [get_member_opt get_member].
  rewrite obj_get_set_ne by discriminate. rewrite obj_get_set_eq.
  cbn [strict_eq]. apply String.eqb_refl.
Qed.

Lemma removed_added o slug items full :
  obj_get o slug = match items with [] => None | _ => Some (JArr items) end ->
  removed (added o slug items full) slug items = o.
Proof.
  intros Hentry. unfold removed, added. rewrite obj_set_set.
  destruct items as [|a items]; cbn [is_nil].
  - apply obj_delete_set_absent, Hentry.
  - apply obj_set_same, Hentry.
Qed.

(** Removing the highlight that was just added gives the store back, when
    its [id] is new to the document and the document had no entry or had
    a list of highlights that is not empty, none of them [null]. *)
Theorem add_then_remove_restores w o slug annotation uuid now items :
  holds w o ->
  wfb (JObj annotation) = true ->
  obj_get o slug = match items with [] => None | _ => Some (JArr items) end ->
  ~ In JNull items ->
  Forall (fun a => has_id uuid a = false) items ->
  exists w1 w2,
    addAnnotation slug annotation uuid now w
    = (Ok (full_annotation annotation uuid now), w1)
    /\ removeAnnotation slug uuid w1 = (Ok tt, w2)
    /\ holds w2 o
    /\ stored w2 STORAGE_KEY = Some (JSON_stringify (JObj o))
    /\ root w2 = root w.
Proof.
  intros Hw Ha Hentry Hnull Hfresh.
  assert (Hl : listed o slug = Some items).
  { unfold listed. rewrite Hentry. destruct items; reflexivity. }
  destruct (addAnnotation_holds w o slug annotation uuid now items Hw Ha Hl)
    as (w1 & Hadd & Hw1 & Hroot1).
  set (full := full_annotation annotation uuid now) in *.
  assert (Hkept : without_id uuid (items ++ [JObj full]) = items).
  { unfold without_id. rewrite List.filter_app. cbn [List.filter].
    unfold full. rewrite has_id_full. cbn [negb].
    rewrite app_nil_r. apply without_id_all, Hfresh. }
  destruct (removeAnnotation_holds w1 (added o slug items full) slug uuid
              (items ++ [JObj full]) Hw1) as (w2 & Hrm & Hw2 & Hstored & Hroot2).
  { unfold added. apply obj_get_set_eq. }
  { intros Hin. apply in_app_iff in Hin as [Hin|[Hin|[]]]; [auto|discriminate]. }
  rewrite Hkept, (removed_added o slug items full Hentry) in Hw2, Hstored.
  exists w1, w2. split; [exact Hadd|]. split; [exact Hrm|]. split; [exact Hw2|].
  split; [exact Hstored|congruence].
Qed.

Lemma add_then_remove_restores_witness :
  exists w1 w2,
    addAnnotation "hp" sample_highlight "c1e0" "2026-02-10T09:00:00.000Z" sample_page
    = (Ok (full_annotation sample_highlight "c1e0" "2026-02-10T09:00:00.000Z"), w1)
    /\ removeAnnotation "hp" "c1e0" w1 = (Ok tt, w2)
    /\ holds w2 sample_objects
    /\ stored w2 STORAGE_KEY = Some (JSON_stringify (JObj sample_objects))
    /\ root w2 = root sample_page.
Proof.
  refine (add_then_remove_restores sample_page sample_objects "hp" sample_highlight
            "c1e0" "2026-02-10T09:00:00.000Z" [] sample_page_holds eq_refl eq_refl _ _).
  - intros [].
  - constructor.
Defined.


End Annotations.

(** ** The three stores together: loading never fails *)

Module Stores.
Import Json Js Browser.

(** The text stored under [key] cannot be read, is missing, or does not parse. *)
Definition unreadable (w : world) (key : string) : Prop :=
  storage w = Denied \/ stored w key = None \/
  exists text e, stored w key = Some text /\ JSON_parse text = Throw e.

Lemma parse_or_empty_unreadable (m : gmap string string) (key : string) :
  m !! key = None \/ (exists text e, m !! key = Some text /\ JSON_parse text = Throw e) ->
  match JSON_parse (or_empty_object (m !! key)) with
  | Ok v => v = JObj []
  | Throw _ => True
  end.
Proof.
  intros [-> | (text & e & -> & Hp)]; [reflexivity|].
  unfold or_empty_object. destruct text as [|c text]; [reflexivity|].
  cbn [is_empty]. rewrite Hp. exact I.
Qed.

(** C9: every load operation returns normally on every state of the storage,
    whatever text is stored; and when the storage cannot be read, the item is
    missing, or its text does not parse, [loadSettings] returns the default
    record and [getHistory] and [getStore] return the empty store. *)
Theorem loads_never_fail (w : world) :
  (exists settings, ReaderSettings.loadSettings w = (Ok settings, w)) /\
  (exists history, ReadingHistory.getHistory w = (Ok history, w)) /\
  (exists store, Annotations.getStore w = (Ok store, w) /\
                 Annotations.getAllAnnotations w = (Ok store, w)) /\
  (unreadable w ReaderSettings.STORAGE_KEY ->
   ReaderSettings.loadSettings w = (Ok ReaderSettings.DEFAULTS, w)) /\
  (unreadable w ReadingHistory.HISTORY_KEY ->
   ReadingHistory.getHistory w = (Ok (JObj []), w)) /\
  (unreadable w Annotations.STORAGE_KEY ->
   Annotations.getStore w = (Ok (JObj []), w)).
Proof.
  split; [eexists; apply ReaderSettings.loadSettings_loaded|].
  split; [destruct (ReadingHistory.getHistory_outcome w) as (h & E & _); eauto|].
  split; [destruct (Annotations.getStore_outcome w) as (a & E & _); eauto|].
  split; [|split].
  - intros Hu. rewrite ReaderSettings.loadSettings_loaded. f_equal. f_equal.
    unfold ReaderSettings.loaded.
    destruct Hu as [Hd | [Hn | (text & e & Hs & Hp)]].
    + unfold stored. rewrite Hd. reflexivity.
    + rewrite Hn. reflexivity.
    + rewrite Hs, Hp. reflexivity.
  - intros Hu.
    unfold ReadingHistory.getHistory, try_catchM, getItem, mbind, M_bind, mret, M_ret, lift.
    unfold unreadable, stored in Hu.
    destruct (storage w) as [|m]; [reflexivity|].
    destruct Hu as [Hd | Hu]; [discriminate|].
    pose proof (parse_or_empty_unreadable m _ Hu) as H.
    destruct (JSON_parse _); [subst|]; reflexivity.
  - intros Hu.
    unfold Annotations.getStore, try_catchM, getItem, mbind, M_bind, mret, M_ret, lift.
    unfold unreadable, stored in Hu.
    destruct (storage w) as [|m]; [reflexivity|].
    destruct Hu as [Hd | Hu]; [discriminate|].
    pose proof (parse_or_empty_unreadable m _ Hu) as H.
    destruct (JSON_parse _); [subst|]; reflexivity.
Qed.


(** *** Writing needs the storage *)

(** On a storage that refuses access every operation that saves throws the
    SecurityError of [setItem] and changes nothing: [cycleTheme] and
    [adjustFontSize] throw before they apply the new look, and every frame
    of the scroll handler throws.  [removeAnnotation] finds nothing to
    remove and returns normally, [getStats] counts nothing, and
    [initSettings] applies the defaults. *)
Theorem writes_need_storage
    (w : world) (delta : Z) (slug : string) (wordCount position : Z) (now : string)
    (scrollHeight innerHeight : Z) (annotation : list (string * json)) (uuid id : string) :
  storage w = Denied ->
  ReaderSettings.cycleTheme w = (Throw SecurityError, w)
  /\ ReaderSettings.adjustFontSize delta w = Some (Throw SecurityError, w)
  /\ ReadingHistory.markAsRead slug wordCount now w = (Throw SecurityError, w)
  /\ ReadingHistory.saveScrollPosition slug position now w = (Throw SecurityError, w)
  /\ ReadingHistory.scroll_frame slug wordCount position scrollHeight innerHeight now w
     = (Throw SecurityError, w)
  /\ Annotations.addAnnotation slug annotation uuid now w = (Throw SecurityError, w)
  /\ Annotations.removeAnnotation slug id w = (Ok tt, w)
  /\ ReadingHistory.getStats w = (Ok (Some (0, 0)%Z), w)
  /\ ReaderSettings.initSettings w = ReaderSettings.applySettings ReaderSettings.DEFAULTS w.
Proof.
  intros Hd.
  assert (Hloaded : ReaderSettings.loaded w = ReaderSettings.DEFAULTS).
  { unfold ReaderSettings.loaded, stored. rewrite Hd. reflexivity. }
  assert (Hhistory : ReadingHistory.getHistory w = (Ok (JObj []), w)).
  { unfold ReadingHistory.getHistory, try_catchM, getItem, mbind, M_bind. rewrite Hd.
    reflexivity. }
  assert (Hstore : Annotations.getStore w = (Ok (JObj []), w)).
  { unfold Annotations.getStore, try_catchM, getItem, mbind, M_bind. rewrite Hd.
    reflexivity. }
  assert (Hsave : ReadingHistory.saveScrollPosition slug position now w
                  = (Throw SecurityError, w)).
  { unfold ReadingHistory.saveScrollPosition, mbind, M_bind. rewrite Hhistory.
    cbn [lift get_member assign_record]. unfold ReadingHistory.saveHistory, setItem.
    rewrite Hd. reflexivity. }
  split.
  { unfold ReaderSettings.cycleTheme, mbind, M_bind.
    rewrite ReaderSettings.loadSettings_loaded, Hloaded. cbv zeta.
    unfold ReaderSettings.saveSettings, mbind, M_bind, setItem. rewrite Hd. reflexivity. }
  split.
  { unfold ReaderSettings.adjustFontSize.
    rewrite ReaderSettings.loadSettings_loaded, Hloaded.
    cbn [obj_get ReaderSettings.DEFAULTS String.eqb Ascii.eqb Bool.eqb
         ReaderSettings.add_level].
    unfold ReaderSettings.saveSettings, mbind, M_bind, setItem. rewrite Hd. reflexivity. }
  split.
  { unfold ReadingHistory.markAsRead, mbind, M_bind. rewrite Hhistory.
    cbn [lift get_member assign_record]. unfold ReadingHistory.saveHistory, setItem.
    rewrite Hd. reflexivity. }
  split; [exact Hsave|]. split.
  { unfold ReadingHistory.scroll_frame, mbind, M_bind. rewrite Hsave. reflexivity. }
  split.
  { unfold Annotations.addAnnotation, mbind, M_bind. rewrite Hstore.
    cbn [lift Annotations.push_annotation obj_get].
    unfold Annotations.saveStore, setItem. rewrite Hd. reflexivity. }
  split.
  { unfold Annotations.removeAnnotation, mbind, M_bind. rewrite Hstore. reflexivity. }
  split.
  { unfold ReadingHistory.getStats, mbind, M_bind. rewrite Hhistory. reflexivity. }
  unfold ReaderSettings.initSettings, mbind, M_bind.
  rewrite ReaderSettings.loadSettings_loaded, Hloaded. reflexivity.
Qed.

Lemma writes_need_storage_witness :
  ReaderSettings.cycleTheme {| storage := Denied; root := empty_root |}
  = (Throw SecurityError, {| storage := Denied; root := empty_root |})
  /\ Annotations.removeAnnotation "avg" "c1e0" {| storage := Denied; root := empty_root |}
     = (Ok tt, {| storage := Denied; root := empty_root |})
  /\ fst (ReaderSettings.initSettings {| storage := Denied; root := empty_root |}) = Ok tt.
Proof.
  destruct (writes_need_storage {| storage := Denied; root := empty_root |}
              1 "avg" 3000 10 "2026-02-09T10:00:00.000Z" 1500 500 [] "c1e0" "c1e0" eq_refl)
    as (H1 & _ & _ & _ & _ & _ & H7 & _ & H9).
  split; [exact H1|]. split; [exact H7|]. rewrite H9. reflexivity.
Defined.

End Stores.

(** ** The rendered document *)

Module Dom.

(** A node of the rendered prose: a text node or an element with its
    attributes and children.  The tag is the local name, in lower case. *)
#[warnings="-register-all"]
Inductive node : Type :=
| Text (data : string)
| Elem (tag : string) (attrs : list (string * string)) (children : list node).

Fixpoint get_attr (name : string) (attrs : list (string * string)) : option string :=
  match attrs with
  | [] => None
  | (k, v) :: r => if String.eqb k name then Some v else get_attr name r
  end.

Definition has_attr (name : string) (attrs : list (string * string)) : bool :=
  match get_attr name attrs with Some _ => true | None => false end.

(** ASCII white space of HTML, which separates the tokens of [class] *)
Definition is_html_space (c : ascii) : bool :=
  let n := code c in
  (n =? 9) || (n =? 10) || (n =? 12) || (n =? 13) || (n =? 32).

(** The tokens of a [class] attribute: [cur] is the token being read. *)
Fixpoint class_tokens (cur : string) (s : string) : list string :=
  match s with
  | EmptyString => if is_empty cur then [] else [cur]
  | String c r =>
      if is_html_space c
      then (if is_empty cur then [] else [cur]) ++ class_tokens EmptyString r
      else class_tokens (cur +:+ String c EmptyString) r
  end.

Definition has_class (name : string) (attrs : list (string * string)) : bool :=
  match get_attr "class" attrs with
  | Some v => existsb (String.eqb name) (class_tokens EmptyString v)
  | None => false
  end.

Fixpoint starts_with (p s : string) : bool :=
  match p with
  | EmptyString => true
  | String a p' =>
      match s with
      | String b s' => Ascii.eqb a b && starts_with p' s'
      | EmptyString => false
      end
  end.

(** [node.textContent] *)
Fixpoint textContent (n : node) : string :=
  match n with
  | Text data => data
  | Elem _ _ children => sconcat (map textContent children)
  end.

(** The selector [div.text-xs] *)
Definition is_notes_div (tag : string) (attrs : list (string * string)) : bool :=
  String.eqb tag "div" && has_class "text-xs" attrs.

(** The selector [[data-fn]] *)
Definition is_control (attrs : list (string * string)) : bool := has_attr "data-fn" attrs.

(** The selector [a[href^="#f"]] *)
Definition is_footnote_link (tag : string) (attrs : list (string * string)) : bool :=
  String.eqb tag "a" &&
  match get_attr "href" attrs with
  | Some href => starts_with "#f" href
  | None => false
  end.

(** The element [n], when [sel] matches it, and its descendants that [sel]
    matches, in document order *)
Fixpoint matching (sel : string -> list (string * string) -> bool) (n : node)
  : list node :=
  match n with
  | Text _ => []
  | Elem tag attrs children =>
      (if sel tag attrs then [n] else []) ++ flat_map (matching sel) children
  end.

Definition children_of (n : node) : list node :=
  match n with
  | Text _ => []
  | Elem _ _ children => children
  end.

(** [root.querySelectorAll(sel)] *)
Definition querySelectorAll (sel : string -> list (string * string) -> bool)
    (root : node) : list node :=
  flat_map (matching sel) (children_of root).

(** [root.querySelector(sel)] *)
Definition querySelector (sel : string -> list (string * string) -> bool)
    (root : node) : option node :=
  head (querySelectorAll sel root).

(** What the ancestors of the prose container say of the selectors that
    [closest] tests: whether one of them is a [div.text-xs], whether one of
    them carries [data-fn]. *)
Record context : Type := {
  in_notes : bool;
  in_control : bool
}.

Definition enter (ctx : context) (tag : string) (attrs : list (string * string))
  : context :=
  {| in_notes := in_notes ctx || is_notes_div tag attrs;
     in_control := in_control ctx || is_control attrs |}.

(** [n.getAttribute(name)] *)
Definition getAttribute (name : string) (n : node) : option string :=
  match n with
  | Text _ => None
  | Elem _ attrs _ => get_attr name attrs
  end.


(** The controls of a tree: [querySelectorAll("[data-fn]")], the root
    included *)
Definition controls (n : node) : list node :=
  matching (fun _ attrs => is_control attrs) n.

Lemma node_ind' (P : node -> Prop) :
  (forall data, P (Text data)) ->
  (forall tag attrs children, Forall P children -> P (Elem tag attrs children)) ->
  forall n, P n.
Proof.
  intros Htext Helem.
  refine (fix IH (n : node) : P n :=
    match n with
    | Text data => Htext data
    | Elem tag attrs children =>
        Helem tag attrs children
          ((fix go (l : list node) : Forall P l :=
              match l with
              | [] => @List.Forall_nil _ _
              | x :: r => @List.Forall_cons _ _ _ _ (IH x) (go r)
              end) children)
    end).
Qed.

Lemma flat_map_singletons {A} (f : A -> list A) (l : list A) :
  Forall (fun x => f x = [x]) l -> flat_map f l = l.
Proof.
  induction 1 as [|x l Hx Hl IH]; [reflexivity|]. simpl. rewrite Hx, IH. reflexivity.
Qed.

Lemma flat_map_idem {A} (f : A -> list A) (l : list A) :
  Forall (fun x => flat_map f (f x) = f x) l ->
  flat_map f (flat_map f l) = flat_map f l.
Proof.
  induction 1 as [|x l Hx Hl IH]; [reflexivity|].
  simpl. rewrite flat_map_app, Hx, IH. reflexivity.
Qed.

End Dom.

(** ** Footnote Engine: parsing and discovery *)

Module Footnotes.
Import Dom.

(** *** The regular expression [\[(\d+)\]] *)

Definition marker (num : string) : string := "[" +:+ num +:+ "]".
Arguments marker : simpl never.

(** A match at the start of [s]: the captured number and what follows.  The
    digits are taken greedily; giving some back cannot help, since the
    character after them would still be a digit. *)
Definition match_marker (s : string) : option (string * string) :=
  match s with
  | String c r =>
      if Ascii.eqb c "[" then
        let num := take_while is_digit r in
        match drop_while is_digit r with
        | String c' rest =>
            if Ascii.eqb c' "]" && negb (is_empty num) then Some (num, rest) else None
        | EmptyString => None
        end
      else None
  | EmptyString => None
  end.

Arguments match_marker : simpl never.

(** A scanned text: its matches, and the characters outside them *)
Inductive piece : Type :=
| Lit (c : ascii)
| Mark (num : string).

(** The matches of the global expression, leftmost first: after a match the
    scan goes on behind it, otherwise one character further. *)
Fixpoint tokenize_fuel (fuel : nat) (s : string) : list piece :=
  match fuel with
  | O => []
  | S fuel' =>
      match s with
      | EmptyString => []
      | String c r =>
          match match_marker s with
          | Some (num, rest) => Mark num :: tokenize_fuel fuel' rest
          | None => Lit c :: tokenize_fuel fuel' r
          end
      end
  end.

Definition tokenize (s : string) : list piece := tokenize_fuel (String.length s) s.

Definition is_mark (p : piece) : bool :=
  match p with Mark _ => true | Lit _ => false end.

(** [/\[\d+\]/.test(s)] *)
Definition regex_test (s : string) : bool := existsb is_mark (tokenize s).

(** The results of the successive calls [regex.exec(text)]: [match.index]
    and [match[1]] *)
Fixpoint exec_results (pos : nat) (ps : list piece) : list (nat * string) :=
  match ps with
  | [] => []
  | Lit _ :: r => exec_results (S pos) r
  | Mark num :: r => (pos, num) :: exec_results (pos + String.length (marker num)) r
  end.

(** [s.split(/\[(\d+)\]/)]: the texts between the matches, each match
    leaving its captured number between them *)
Fixpoint split (ps : list piece) : list string :=
  match ps with
  | [] => [EmptyString]
  | Lit c :: r =>
      match split r with
      | seg :: rest => String c seg :: rest
      | [] => [String c EmptyString]
      end
  | Mark num :: r => EmptyString :: num :: split r
  end.

(** [s.slice(from, to)] for [from <= to] *)
Definition slice (s : string) (from to : nat) : string := substring from (to - from) s.

(** *** Definitions: [parseFootnotes] *)

(** The loop [for (i = 1; i < parts.length; i += 2)]: [parts[i]] with
    [parts[i + 1] || ""], for the parts from index 1 on *)
Fixpoint numbered (parts : list string) : list (string * string) :=
  match parts with
  | [] => []
  | [num] => [(num, EmptyString)]
  | num :: rawHtml :: rest => (num, rawHtml) :: numbered rest
  end.

Section Parse.

(** [element.innerHTML], the serialisation of the children of an element by
    the browser *)
Variable innerHTML : list node -> string.

(** The text content of the fragment the browser parses from a string:
    [temp.innerHTML = rawHtml; temp.textContent] *)
Variable html_text : string -> string.

(** A notes block: its first [strong] has a text that starts with [Notes]. *)
Definition is_notes_section (section : node) : bool :=
  match querySelector (fun tag _ => String.eqb tag "strong") section with
  | Some strong => starts_with "Notes" (textContent strong)
  | None => false
  end.

Definition section_parts (section : node) : list string :=
  split (tokenize (innerHTML (children_of section))).

Definition set_definition (map : gmap string string) (d : string * string)
  : gmap string string :=
  let text := trim (html_text (snd d)) in
  if is_empty text then map else <[fst d := text]> map.

Definition parse_section (map : gmap string string) (section : node)
  : gmap string string :=
  if is_notes_section section
  then fold_left set_definition (numbered (tail (section_parts section))) map
  else map.

Definition parseFootnotes (prose : node) : gmap string string :=
  fold_left parse_section (querySelectorAll is_notes_div prose) ∅.

End Parse.

(** *** Discovery: [wrapPlainTextNotes] and [wrapLinkedNotes] *)

(** [footnotes.has(num)] *)
Definition has (footnotes : gmap string string) (num : string) : bool :=
  bool_decide (is_Some (footnotes !! num)).

(** The interactive control of a citation.  Its inline style and hover
    listeners ([styleRef]) are presentation and not part of the embedding. *)
Definition button (num : string) : node :=
  Elem "button" [("data-fn", num); ("aria-label", "Footnote " +:+ num)]
       [Text (marker num)].

Section Wrap.

Variable footnotes : gmap string string.

(** The body of the loop [while ((match = regex.exec(text)) !== null)]:
    the state is the fragment built so far and [lastIndex]. *)
Definition wrap_match (text : string) (st : list node * nat) (m : nat * string)
  : list node * nat :=
  let '(frag, lastIndex) := st in
  let '(index, num) := m in
  if negb (has footnotes num) then st
  else
    let frag :=
      if lastIndex <? index then frag ++ [Text (slice text lastIndex index)] else frag in
    (frag ++ [button num], index + String.length (marker num)).

(** The fragment that replaces a text node, or [None] when the node stays. *)
Definition wrapText (text : string) : option (list node) :=
  let '(frag, lastIndex) :=
    fold_left (wrap_match text) (exec_results 0 (tokenize text)) ([], 0) in
  if lastIndex =? 0 then None
  else if lastIndex <? String.length text
       then Some (frag ++ [Text (slice text lastIndex (String.length text))])
       else Some frag.

(** The tree walker accepts the text nodes outside [div.text-xs] and outside
    [[data-fn]] whose text has a match; each accepted node is replaced by its
    fragment. *)
Fixpoint wrap_plain (ctx : context) (n : node) : list node :=
  match n with
  | Text data =>
      if in_notes ctx || in_control ctx || negb (regex_test data) then [n]
      else match wrapText data with
           | Some frag => frag
           | None => [n]
           end
  | Elem tag attrs children =>
      [Elem tag attrs (flat_map (wrap_plain (enter ctx tag attrs)) children)]
  end.

(** [ctx] describes the ancestors of [prose]. *)
Definition wrapPlainTextNotes (ctx : context) (prose : node) : node :=
  match prose with
  | Text _ => prose
  | Elem tag attrs children =>
      Elem tag attrs (flat_map (wrap_plain (enter ctx tag attrs)) children)
  end.

(** [text.replace(/\[\s*$/, "")]: the leftmost bracket that only white space
    follows is removed with it. *)
Fixpoint strip_open_bracket (s : string) : string :=
  match s with
  | EmptyString => EmptyString
  | String c r =>
      if Ascii.eqb c "[" && all_chars is_space r then EmptyString
      else String c (strip_open_bracket r)
  end.

(** [text.replace(/^\s*\]/, "")] *)
Definition strip_close_bracket (s : string) : string :=
  match drop_while is_space s with
  | String c r => if Ascii.eqb c "]" then r else s
  | EmptyString => s
  end.

(** The number of a link that the loop of [wrapLinkedNotes] converts: a
    link [a[href^="#f"]] whose trimmed text is a key of the map and whose
    parent is not inside a control. *)
Definition converted_link (inside_control : bool) (n : node) : option string :=
  match n with
  | Elem tag attrs children =>
      let num := trim (textContent n) in
      if is_footnote_link tag attrs && negb (is_empty num) && has footnotes num
         && negb inside_control
      then Some num else None
  | Text _ => None
  end.

(** The previous sibling, when it is a text node, loses its closing [[]. *)
Definition strip_previous (done : list node) : list node :=
  match done with
  | Text data :: r => Text (strip_open_bracket data) :: r
  | _ => done
  end.

(** The links are visited in document order.  [done] holds the siblings
    already visited, the last one first; [after_link] says that the previous
    sibling was a converted link, whose next sibling, when it is a text
    node, loses its opening []]; [inside] says that the parent is inside a
    control, and [descend] is the visit of the links below a sibling. *)
Fixpoint visit (descend : node -> node) (inside : bool)
    (todo done : list node) (after_link : bool) : list node :=
  match todo with
  | [] => rev done
  | k :: todo' =>
      match k with
      | Text data =>
          visit descend inside todo'
            (Text (if after_link then strip_close_bracket data else data) :: done)
            false
      | Elem _ _ _ =>
          match converted_link inside k with
          | Some num => visit descend inside todo' (button num :: strip_previous done) true
          | None => visit descend inside todo' (descend k :: done) false
          end
      end
  end.

Fixpoint wrap_linked (ctx : context) (n : node) : node :=
  match n with
  | Text _ => n
  | Elem tag attrs children =>
      Elem tag attrs
        (visit (wrap_linked (enter ctx tag attrs)) (in_control (enter ctx tag attrs))
           children [] false)
  end.

Definition wrapLinkedNotes (ctx : context) (prose : node) : node :=
  wrap_linked ctx prose.

End Wrap.

Section Init.

Variable innerHTML : list node -> string.
Variable html_text : string -> string.

(** [initFootnotes], up to the installation of the click handler: the map
    and the rewritten prose, or [None] when there is nothing to do. *)
Definition initFootnotes (ctx : context) (prose : option node)
  : option (gmap string string * node) :=
  match prose with
  | None => None
  | Some prose =>
      let footnotes := parseFootnotes innerHTML html_text prose in
      if bool_decide (footnotes = ∅) then None
      else Some (footnotes,
                 wrapPlainTextNotes footnotes ctx (wrapLinkedNotes footnotes ctx prose))
  end.

End Init.

(** *** Facts about the scan *)

Definition piece_text (p : piece) : string :=
  match p with
  | Lit c => String c EmptyString
  | Mark num => marker num
  end.

(** The text a list of pieces stands for *)
Definition untokenize (ps : list piece) : string := sconcat (map piece_text ps).

(** The captured numbers, in order *)
Fixpoint marks (ps : list piece) : list string :=
  match ps with
  | [] => []
  | Lit _ :: r => marks r
  | Mark num :: r => num :: marks r
  end.

Definition is_number (num : string) : bool :=
  all_chars is_digit num && negb (is_empty num).

Lemma span_append (p : ascii -> bool) (s : string) :
  take_while p s +:+ drop_while p s = s.
Proof.
  induction s as [|c s IH]; [reflexivity|]. simpl.
  destruct (p c); [|reflexivity]. rewrite sapp_cons, IH. reflexivity.
Qed.

Lemma take_while_all (p : ascii -> bool) (s : string) : all_chars p (take_while p s) = true.
Proof.
  induction s as [|c s IH]; [reflexivity|]. simpl.
  destruct (p c) eqn:E; [|reflexivity]. simpl. rewrite E. exact IH.
Qed.

Lemma match_marker_Some s num rest :
  match_marker s = Some (num, rest) ->
  s = marker num +:+ rest /\ is_number num = true.
Proof.
  destruct s as [|c r]; [discriminate|]. unfold match_marker.
  destruct (Ascii.eqb_spec c "[") as [->|]; [|discriminate].
  pose proof (span_append is_digit r) as Hspan.
  destruct (drop_while is_digit r) as [|c' rest'] eqn:Ed; [discriminate|].
  destruct (Ascii.eqb_spec c' "]") as [->|]; [|discriminate].
  destruct (is_empty (take_while is_digit r)) eqn:Ee; [discriminate|].
  simpl. intros [= <- <-]. split.
  - unfold marker. rewrite !sapp_cons, sapp_nil_l, sapp_assoc, sapp_cons, sapp_nil_l.
    rewrite Hspan. reflexivity.
  - unfold is_number. rewrite take_while_all, Ee. reflexivity.
Qed.

Lemma match_marker_marker num rest :
  is_number num = true -> match_marker (marker num +:+ rest) = Some (num, rest).
Proof.
  unfold is_number. intros H. apply andb_prop in H as [Hd He].
  unfold marker. rewrite !sapp_cons, sapp_nil_l, sapp_assoc, sapp_cons, sapp_nil_l.
  unfold match_marker. rewrite Ascii.eqb_refl.
  rewrite take_while_app, drop_while_app by (assumption || reflexivity).
  rewrite Ascii.eqb_refl, He. reflexivity.
Qed.

Lemma match_marker_not_bracket c r : c <> "["%char -> match_marker (String c r) = None.
Proof.
  intros Hc. unfold match_marker.
  destruct (Ascii.eqb_spec c "["); [contradiction|reflexivity].
Qed.

Lemma match_marker_length s num rest :
  match_marker s = Some (num, rest) -> String.length rest < String.length s.
Proof.
  intros H. apply match_marker_Some in H as [-> _].
  unfold marker. rewrite !slength_app. simpl. lia.
Qed.

Lemma tokenize_fuel_enough fuel : forall s,
  String.length s <= fuel -> tokenize_fuel fuel s = tokenize s.
Proof.
  unfold tokenize.
  induction fuel as [fuel IH] using lt_wf_ind. intros s Hlen.
  destruct s as [|c r]; [destruct fuel; reflexivity|].
  destruct fuel as [|fuel]; [simpl in Hlen; lia|].
  simpl String.length. simpl tokenize_fuel.
  destruct (match_marker (String c r)) as [[num rest]|] eqn:Em.
  - apply match_marker_length in Em. simpl in *.
    rewrite (IH fuel ltac:(lia) rest ltac:(lia)).
    rewrite (IH (String.length r) ltac:(lia) rest ltac:(lia)). reflexivity.
  - simpl in Hlen. rewrite (IH fuel ltac:(lia) r ltac:(lia)). reflexivity.
Qed.

(** The scan, without fuel *)
Lemma tokenize_eq s :
  tokenize s =
  match s with
  | EmptyString => []
  | String c r =>
      match match_marker s with
      | Some (num, rest) => Mark num :: tokenize rest
      | None => Lit c :: tokenize r
      end
  end.
Proof.
  destruct s as [|c r]; [reflexivity|].
  unfold tokenize at 1. simpl String.length. simpl tokenize_fuel.
  destruct (match_marker (String c r)) as [[num rest]|] eqn:Em.
  - apply match_marker_length in Em. simpl in Em.
    rewrite tokenize_fuel_enough by lia. reflexivity.
  - reflexivity.
Qed.

Lemma tokenize_marker num rest :
  is_number num = true -> tokenize (marker num +:+ rest) = Mark num :: tokenize rest.
Proof.
  intros H. rewrite tokenize_eq. rewrite (match_marker_marker num rest H).
  unfold marker. rewrite !sapp_cons. reflexivity.
Qed.

Lemma tokenize_lit c r : c <> "["%char -> tokenize (String c r) = Lit c :: tokenize r.
Proof.
  intros Hc. rewrite tokenize_eq, match_marker_not_bracket by exact Hc. reflexivity.
Qed.

(** Induction along the scan *)
Lemma tokenize_ind (P : string -> Prop) :
  P EmptyString ->
  (forall num rest, is_number num = true -> P rest -> P (marker num +:+ rest)) ->
  (forall c r, match_marker (String c r) = None -> P r -> P (String c r)) ->
  forall s, P s.
Proof.
  intros Hnil Hmark Hlit s.
  remember (String.length s) as n eqn:Hn. revert s Hn.
  induction n as [n IH] using lt_wf_ind. intros s Hn.
  destruct s as [|c r]; [exact Hnil|].
  destruct (match_marker (String c r)) as [[num rest]|] eqn:Em.
  - pose proof (match_marker_length _ _ _ Em) as Hlen.
    apply match_marker_Some in Em as [E Hnum]. rewrite E.
    apply Hmark; [exact Hnum|]. apply (IH (String.length rest)); [lia|reflexivity].
  - apply Hlit; [exact Em|]. apply (IH (String.length r)); [simpl in Hn; lia|reflexivity].
Qed.

Lemma untokenize_tokenize s : untokenize (tokenize s) = s.
Proof.
  induction s as [|num rest Hnum IH|c r Hm IH] using tokenize_ind.
  - reflexivity.
  - rewrite tokenize_marker by exact Hnum. unfold untokenize in *. simpl.
    rewrite IH. reflexivity.
  - rewrite tokenize_eq, Hm. unfold untokenize in *. simpl. rewrite IH. reflexivity.
Qed.

Lemma marks_are_numbers s : Forall (fun num => is_number num = true) (marks (tokenize s)).
Proof.
  induction s as [|num rest Hnum IH|c r Hm IH] using tokenize_ind.
  - constructor.
  - rewrite tokenize_marker by exact Hnum. simpl. constructor; assumption.
  - rewrite tokenize_eq, Hm. exact IH.
Qed.

(** A text [b] that cannot complete a match begun before it: it is empty or
    starts with a character that is neither a digit nor a closing bracket. *)
Definition boundary (b : string) : bool :=
  stops (fun c => is_digit c || Ascii.eqb c "]") b.

Lemma span_app_stops (p : ascii -> bool) (r b : string) :
  stops p b = true ->
  take_while p (r +:+ b) = take_while p r /\
  drop_while p (r +:+ b) = drop_while p r +:+ b.
Proof.
  intros Hb. induction r as [|c r [IH1 IH2]].
  - rewrite !sapp_nil_l. destruct b as [|c b]; [auto|]. simpl in *.
    destruct (p c); [discriminate|auto].
  - rewrite sapp_cons. simpl. destruct (p c).
    + rewrite IH1, IH2. auto.
    + rewrite sapp_cons. auto.
Qed.

Lemma boundary_stops_digit b : boundary b = true -> stops is_digit b = true.
Proof.
  destruct b as [|c b]; [reflexivity|]. unfold boundary. simpl.
  destruct (is_digit c); [discriminate|reflexivity].
Qed.

Lemma match_marker_app c r b :
  boundary b = true ->
  match_marker (String c r +:+ b)
  = match match_marker (String c r) with
    | Some (num, rest) => Some (num, rest +:+ b)
    | None => None
    end.
Proof.
  intros Hb. rewrite sapp_cons. unfold match_marker.
  destruct (Ascii.eqb c "["); [|reflexivity].
  destruct (span_app_stops is_digit r b (boundary_stops_digit b Hb)) as [-> ->].
  destruct (drop_while is_digit r) as [|c' rest].
  - rewrite sapp_nil_l. destruct b as [|c' b']; [reflexivity|].
    unfold boundary in Hb. simpl in Hb.
    destruct (Ascii.eqb c' "]"); [|reflexivity].
    rewrite orb_true_r in Hb. discriminate.
  - rewrite sapp_cons.
    destruct (Ascii.eqb c' "]" && negb (is_empty (take_while is_digit r))); reflexivity.
Qed.

(** The scan of a text stops at a boundary and starts afresh behind it. *)
Lemma tokenize_app a b :
  boundary b = true -> tokenize (a +:+ b) = tokenize a ++ tokenize b.
Proof.
  intros Hb. induction a as [|num rest Hnum IH|c r Hm IH] using tokenize_ind.
  - reflexivity.
  - rewrite sapp_assoc, !tokenize_marker by exact Hnum. rewrite IH. reflexivity.
  - rewrite (tokenize_eq (String c r)), Hm.
    pose proof (match_marker_app c r b Hb) as Happ. rewrite Hm in Happ.
    rewrite tokenize_eq. rewrite sapp_cons in *. rewrite Happ, IH. reflexivity.
Qed.

Lemma untokenize_app a b : untokenize (a ++ b) = untokenize a +:+ untokenize b.
Proof.
  unfold untokenize. induction a as [|p a IH]; [reflexivity|].
  simpl. rewrite IH, sapp_assoc. reflexivity.
Qed.

(** Every occurrence of a marker is a match: the scan around it is the scan
    of what stands before it, the marker, and the scan of what follows. *)
Lemma tokenize_occurrence before num after :
  is_number num = true ->
  tokenize (before +:+ marker num +:+ after)
  = tokenize before ++ Mark num :: tokenize after.
Proof.
  intros Hnum. rewrite tokenize_app by reflexivity.
  rewrite tokenize_marker by exact Hnum. reflexivity.
Qed.

(** A list of pieces that is the scan of its own text *)
Definition valid (ps : list piece) : Prop := tokenize (untokenize ps) = ps.

Lemma valid_tokenize s : valid (tokenize s).
Proof. unfold valid. rewrite untokenize_tokenize. reflexivity. Qed.

Lemma valid_tail p ps : valid (p :: ps) -> valid ps.
Proof.
  unfold valid. intros H. destruct p as [c|num].
  - change (untokenize (Lit c :: ps)) with (String c (untokenize ps)) in H.
    rewrite tokenize_eq in H.
    destruct (match_marker (String c (untokenize ps))) as [[num rest]|];
      [discriminate|]. injection H as H. exact H.
  - assert (Hnum : is_number num = true).
    { pose proof (marks_are_numbers (untokenize (Mark num :: ps))) as Hall.
      rewrite H in Hall. simpl in Hall. inversion Hall. assumption. }
    change (untokenize (Mark num :: ps)) with (marker num +:+ untokenize ps) in H.
    rewrite tokenize_marker in H by exact Hnum. injection H as H. exact H.
Qed.

Lemma valid_suffix ps1 ps2 : valid (ps1 ++ ps2) -> valid ps2.
Proof.
  induction ps1 as [|p ps1 IH]; [auto|]. intros H. apply IH. exact (valid_tail _ _ H).
Qed.

Definition starts_with_mark (ps : list piece) : bool :=
  match ps with
  | [] | Mark _ :: _ => true
  | Lit _ :: _ => false
  end.

Lemma valid_prefix ps1 ps2 :
  valid (ps1 ++ ps2) -> starts_with_mark ps2 = true -> valid ps1.
Proof.
  intros H Hstart. pose proof (valid_suffix _ _ H) as H2.
  unfold valid in *. rewrite untokenize_app in H.
  rewrite tokenize_app in H.
  - rewrite H2 in H. apply app_inv_tail in H. exact H.
  - destruct ps2 as [|[c|num] ps2]; try discriminate; reflexivity.
Qed.

(** *** The fragment of a text node, piece by piece *)

Lemma substring_prefix b c : substring 0 (String.length b) (b +:+ c) = b.
Proof.
  induction b as [|x b IH].
  - rewrite sapp_nil_l. destruct c; reflexivity.
  - rewrite sapp_cons. simpl. rewrite IH. reflexivity.
Qed.

Lemma slice_middle a b c :
  slice (a +:+ b +:+ c) (String.length a) (String.length a + String.length b) = b.
Proof.
  unfold slice. replace (String.length a + String.length b - String.length a)
    with (String.length b) by lia.
  induction a as [|x a IH].
  - rewrite sapp_nil_l. apply substring_prefix.
  - rewrite sapp_cons. simpl. exact IH.
Qed.

Section WrapFacts.

Variable footnotes : gmap string string.

(** A match that becomes a control *)
Definition converted (p : piece) : bool :=
  match p with
  | Mark num => has footnotes num
  | Lit _ => false
  end.

Definition flush (pending : string) : list node :=
  if is_empty pending then [] else [Text pending].

(** The fragment, read off the pieces: [pending] is the text since the last
    control. *)
Fixpoint chunks (ps : list piece) (pending : string) : list node :=
  match ps with
  | [] => flush pending
  | Lit c :: r => chunks r (pending +:+ String c EmptyString)
  | Mark num :: r =>
      if has footnotes num then flush pending ++ button num :: chunks r EmptyString
      else chunks r (pending +:+ marker num)
  end.

Lemma flush_slice pre pending rest frag :
  (if String.length pre <? String.length pre + String.length pending
   then frag ++ [Text (slice (pre +:+ pending +:+ rest) (String.length pre)
                         (String.length pre + String.length pending))]
   else frag)
  = frag ++ flush pending.
Proof.
  rewrite slice_middle. unfold flush. destruct pending as [|c pending]; simpl.
  - replace (String.length pre + 0) with (String.length pre) by lia.
    rewrite Nat.ltb_irrefl, app_nil_r. reflexivity.
  - destruct (Nat.ltb_spec (String.length pre) (String.length pre + S (String.length pending)));
      [reflexivity|lia].
Qed.

Lemma wrap_match_skip text st index num :
  has footnotes num = false -> wrap_match footnotes text st (index, num) = st.
Proof. intros H. unfold wrap_match. destruct st. rewrite H. reflexivity. Qed.

Lemma wrap_match_emit text frag last index num :
  has footnotes num = true ->
  wrap_match footnotes text (frag, last) (index, num)
  = ((if last <? index then frag ++ [Text (slice text last index)] else frag)
       ++ [button num],
     index + String.length (marker num)).
Proof. intros H. unfold wrap_match. rewrite H. reflexivity. Qed.

Lemma wrap_loop text ps : forall pre pending frag,
  text = pre +:+ pending +:+ untokenize ps ->
  let st := fold_left (wrap_match footnotes text)
              (exec_results (String.length pre + String.length pending) ps)
              (frag, String.length pre) in
  (if snd st <? String.length text
   then fst st ++ [Text (slice text (snd st) (String.length text))]
   else fst st) = frag ++ chunks ps pending
  /\ (existsb converted ps = false -> snd st = String.length pre)
  /\ (existsb converted ps = true -> 0 < snd st).
Proof.
  induction ps as [|[c|num] ps IH]; intros pre pending frag Htext; cbv zeta.
  - simpl. split; [|split; [reflexivity|discriminate]].
    change (untokenize []) with EmptyString in Htext.
    pose proof (flush_slice pre pending EmptyString frag) as H.
    rewrite <- Htext in H.
    replace (String.length text) with (String.length pre + String.length pending)
      by (rewrite Htext, !slength_app; simpl; lia).
    exact H.
  - cbn [exec_results chunks existsb converted orb].
    specialize (IH pre (pending +:+ String c EmptyString) frag).
    rewrite slength_app in IH. simpl String.length in IH.
    replace (String.length pre + (String.length pending + 1))
      with (S (String.length pre + String.length pending)) in IH by lia.
    apply IH. rewrite Htext. change (untokenize (Lit c :: ps))
      with (String c EmptyString +:+ untokenize ps).
    rewrite !sapp_assoc. reflexivity.
  - cbn [exec_results chunks existsb converted fold_left].
    destruct (has footnotes num) eqn:Hhas;
      [rewrite wrap_match_emit by exact Hhas|rewrite wrap_match_skip by exact Hhas];
      cbn [orb].
    + pose proof (flush_slice pre pending (untokenize (Mark num :: ps)) frag) as Hflush.
      rewrite <- Htext in Hflush. rewrite Hflush.
      specialize (IH (pre +:+ pending +:+ marker num) EmptyString
                     ((frag ++ flush pending) ++ [button num])).
      rewrite !slength_app in IH. simpl (String.length EmptyString) in IH.
      replace (String.length pre + (String.length pending + String.length (marker num)) + 0)
        with (String.length pre + String.length pending + String.length (marker num))
        in IH by lia.
      replace (String.length pre + (String.length pending + String.length (marker num)))
        with (String.length pre + String.length pending + String.length (marker num))
        in IH by lia.
      destruct IH as (IH1 & IH2 & IH3).
      { rewrite Htext. change (untokenize (Mark num :: ps))
          with (marker num +:+ untokenize ps).
        rewrite !sapp_assoc. reflexivity. }
      split; [|split].
      * rewrite IH1, <- !app_assoc. reflexivity.
      * discriminate.
      * intros _. destruct (existsb converted ps) eqn:E; [auto|].
        rewrite IH2 by reflexivity. unfold marker. rewrite !slength_app. simpl. lia.
    + specialize (IH pre (pending +:+ marker num) frag).
      rewrite slength_app in IH.
      replace (String.length pre + (String.length pending + String.length (marker num)))
        with (String.length pre + String.length pending + String.length (marker num))
        in IH by lia.
      apply IH. rewrite Htext. change (untokenize (Mark num :: ps))
        with (marker num +:+ untokenize ps).
      rewrite !sapp_assoc. reflexivity.
Qed.

(** [wrapText] returns the fragment of the pieces, when one of them is a
    control. *)
Lemma wrapText_chunks text :
  wrapText footnotes text
  = if existsb converted (tokenize text)
    then Some (chunks (tokenize text) EmptyString) else None.
Proof.
  unfold wrapText.
  pose proof (wrap_loop text (tokenize text) EmptyString EmptyString []) as H.
  cbv zeta in H. simpl String.length in H. simpl Nat.add in H.
  rewrite !sapp_nil_l, untokenize_tokenize in H. specialize (H eq_refl).
  destruct (fold_left (wrap_match footnotes text) (exec_results 0 (tokenize text)) ([], 0))
    as [frag last]. simpl fst in H. simpl snd in H. simpl app in H.
  destruct H as (H1 & H2 & H3).
  destruct (existsb converted (tokenize text)).
  - specialize (H3 eq_refl). destruct last as [|last]; [lia|]. simpl Nat.eqb. cbv iota.
    rewrite <- H1. destruct (S last <? String.length text); reflexivity.
  - rewrite (H2 eq_refl). reflexivity.
Qed.

Lemma controls_button num : controls (button num) = [button num].
Proof. reflexivity. Qed.

Lemma button_text num : textContent (button num) = marker num.
Proof. unfold button. simpl. apply sapp_nil_r. Qed.

Lemma controls_flush pending : flat_map controls (flush pending) = [].
Proof. unfold flush. destruct (is_empty pending); reflexivity. Qed.

(** The controls of a fragment are the buttons of its converted matches. *)
Lemma controls_chunks ps : forall pending,
  flat_map controls (chunks ps pending)
  = map button (List.filter (has footnotes) (marks ps)).
Proof.
  induction ps as [|[c|num] ps IH]; intros pending; cbn [chunks marks].
  - apply controls_flush.
  - apply IH.
  - cbn [List.filter]. destruct (has footnotes num).
    + rewrite flat_map_app, controls_flush. cbn [flat_map map app].
      rewrite controls_button, IH. reflexivity.
    + apply IH.
Qed.

Lemma text_flush pending : sconcat (map textContent (flush pending)) = pending.
Proof.
  unfold flush. destruct pending; [reflexivity|]. simpl. apply sapp_nil_r.
Qed.

Lemma sconcat_app a b : sconcat (a ++ b) = sconcat a +:+ sconcat b.
Proof.
  induction a as [|x a IH]; [reflexivity|]. simpl. rewrite IH, sapp_assoc. reflexivity.
Qed.

(** The text of a fragment is the text of the node it replaces. *)
Lemma text_chunks ps : forall pending,
  sconcat (map textContent (chunks ps pending)) = pending +:+ untokenize ps.
Proof.
  induction ps as [|[c|num] ps IH]; intros pending; cbn [chunks].
  - rewrite text_flush. unfold untokenize. simpl. rewrite sapp_nil_r. reflexivity.
  - rewrite IH, sapp_assoc. reflexivity.
  - destruct (has footnotes num).
    + rewrite map_app, sconcat_app, text_flush. cbn [map sconcat].
      rewrite button_text, IH, sapp_nil_l. reflexivity.
    + rewrite IH, sapp_assoc. reflexivity.
Qed.

(** Without a converted match the text stays in one piece. *)
Lemma chunks_calm ps : forall pending,
  existsb converted ps = false ->
  chunks ps pending = flush (pending +:+ untokenize ps).
Proof.
  induction ps as [|[c|num] ps IH]; intros pending H; cbn [chunks].
  - unfold untokenize. simpl. rewrite sapp_nil_r. reflexivity.
  - rewrite IH by exact H. rewrite sapp_assoc. reflexivity.
  - simpl in H. apply orb_false_elim in H as [Hnum H]. rewrite Hnum.
    rewrite IH by exact H. rewrite sapp_assoc. reflexivity.
Qed.

(** A node of a fragment: a button, or a text without converted match *)
Definition settled (n : node) : Prop :=
  match n with
  | Text data => existsb converted (tokenize data) = false
  | Elem _ _ _ => exists num, n = button num /\ has footnotes num = true
  end.

Lemma settled_flush run :
  valid run -> existsb converted run = false -> Forall settled (flush (untokenize run)).
Proof.
  intros Hv Hc. unfold flush. destruct (is_empty (untokenize run)); constructor;
    [|constructor]. simpl. rewrite Hv. exact Hc.
Qed.

Lemma untokenize_snoc run p : untokenize (run ++ [p]) = untokenize run +:+ piece_text p.
Proof. rewrite untokenize_app. unfold untokenize. simpl. rewrite sapp_nil_r. reflexivity. Qed.

Lemma chunks_settled ps : forall run,
  valid (run ++ ps) -> existsb converted run = false ->
  Forall settled (chunks ps (untokenize run)).
Proof.
  induction ps as [|[c|num] ps IH]; intros run Hv Hrun; cbn [chunks].
  - rewrite app_nil_r in Hv. apply settled_flush; assumption.
  - replace (untokenize run +:+ String c EmptyString)
      with (untokenize (run ++ [Lit c])) by apply untokenize_snoc.
    apply IH.
    + rewrite <- app_assoc. exact Hv.
    + rewrite existsb_app, Hrun. reflexivity.
  - destruct (has footnotes num) eqn:Hnum.
    + apply Forall_app. split.
      * apply settled_flush; [|exact Hrun].
        exact (valid_prefix run (Mark num :: ps) Hv eq_refl).
      * constructor; [exists num; auto|].
        apply (IH []); [|reflexivity].
        exact (valid_suffix (run ++ [Mark num]) ps
                 ltac:(rewrite <- app_assoc; exact Hv)).
    + replace (untokenize run +:+ marker num)
        with (untokenize (run ++ [Mark num])) by apply untokenize_snoc.
      apply IH.
      * rewrite <- app_assoc. exact Hv.
      * rewrite existsb_app, Hrun. simpl. rewrite Hnum. reflexivity.
Qed.

(** *** The plain-text pass on trees *)

Lemma wrap_plain_inside_control n : forall ctx,
  in_control ctx = true -> wrap_plain footnotes ctx n = [n].
Proof.
  induction n as [data|tag attrs children IH] using node_ind'; intros ctx Hctx.
  - simpl. rewrite Hctx, orb_true_r. reflexivity.
  - simpl. f_equal. f_equal. apply flat_map_singletons.
    eapply Forall_impl; [exact IH|]. cbv beta. intros k Hk. apply Hk.
    simpl. rewrite Hctx. reflexivity.
Qed.

Lemma wrap_plain_settled ctx n : settled n -> wrap_plain footnotes ctx n = [n].
Proof.
  destruct n as [data|tag attrs children]; simpl.
  - intros Hcalm. destruct (in_notes ctx || in_control ctx || negb (regex_test data));
      [reflexivity|].
    rewrite wrapText_chunks, Hcalm. reflexivity.
  - intros (num & E & _). injection E as -> -> ->. cbn [wrap_plain flat_map enter in_control in_notes].
    replace (is_control [("data-fn", num); ("aria-label", "Footnote " +:+ num)])
      with true by reflexivity.
    rewrite !orb_true_r. reflexivity.
Qed.

Lemma wrap_plain_idempotent n : forall ctx,
  flat_map (wrap_plain footnotes ctx) (wrap_plain footnotes ctx n)
  = wrap_plain footnotes ctx n.
Proof.
  induction n as [data|tag attrs children IH] using node_ind'; intros ctx.
  - cbn [wrap_plain].
    destruct (in_notes ctx || in_control ctx || negb (regex_test data)) eqn:Erej.
    + cbn [flat_map wrap_plain]. rewrite Erej. reflexivity.
    + rewrite wrapText_chunks.
      destruct (existsb converted (tokenize data)) eqn:Econv.
      * apply flat_map_singletons.
        eapply Forall_impl; [apply (chunks_settled (tokenize data) [])|].
        -- apply valid_tokenize.
        -- reflexivity.
        -- cbv beta. intros k Hk. apply wrap_plain_settled, Hk.
      * cbn [flat_map wrap_plain]. rewrite Erej, wrapText_chunks, Econv. reflexivity.
  - cbn [wrap_plain flat_map]. rewrite app_nil_r. f_equal. f_equal.
    apply flat_map_idem. eapply Forall_impl; [exact IH|]. cbv beta. auto.
Qed.

Lemma wrapPlainTextNotes_idempotent ctx prose :
  wrapPlainTextNotes footnotes ctx (wrapPlainTextNotes footnotes ctx prose)
  = wrapPlainTextNotes footnotes ctx prose.
Proof.
  destruct prose as [data|tag attrs children]; [reflexivity|].
  cbn [wrapPlainTextNotes]. f_equal. apply flat_map_idem.
  apply Forall_forall. intros k _. apply wrap_plain_idempotent.
Qed.

Lemma text_flat_map (f : node -> list node) (l : list node) :
  Forall (fun k => sconcat (map textContent (f k)) = textContent k) l ->
  sconcat (map textContent (flat_map f l)) = sconcat (map textContent l).
Proof.
  induction 1 as [|k l Hk Hl IH]; [reflexivity|].
  simpl. rewrite map_app, sconcat_app, Hk, IH. reflexivity.
Qed.

Lemma wrap_plain_text n : forall ctx,
  sconcat (map textContent (wrap_plain footnotes ctx n)) = textContent n.
Proof.
  induction n as [data|tag attrs children IH] using node_ind'; intros ctx.
  - cbn [wrap_plain].
    destruct (in_notes ctx || in_control ctx || negb (regex_test data));
      [simpl; apply sapp_nil_r|].
    rewrite wrapText_chunks. destruct (existsb converted (tokenize data)).
    + rewrite text_chunks, sapp_nil_l. apply untokenize_tokenize.
    + simpl. apply sapp_nil_r.
  - cbn [wrap_plain map sconcat textContent]. rewrite sapp_nil_r.
    apply text_flat_map. eapply Forall_impl; [exact IH|]. cbv beta. auto.
Qed.

Lemma wrapPlainTextNotes_text ctx prose :
  textContent (wrapPlainTextNotes footnotes ctx prose) = textContent prose.
Proof.
  destruct prose as [data|tag attrs children]; [reflexivity|].
  cbn [wrapPlainTextNotes textContent]. apply text_flat_map.
  apply Forall_forall. intros k _. apply wrap_plain_text.
Qed.

(** With text pending, the fragment starts with the text node that holds
    it. *)
Lemma chunks_pending ps : forall pending,
  is_empty pending = false ->
  exists y rest,
    chunks ps pending = Text (pending +:+ y) :: rest
    /\ y +:+ sconcat (map textContent rest) = untokenize ps.
Proof.
  induction ps as [|[c|num] ps IH]; intros pending Hp; cbn [chunks].
  - exists EmptyString, []. unfold flush. rewrite Hp, sapp_nil_r. auto.
  - destruct (IH (pending +:+ String c EmptyString)) as (y & rest & E & Ht).
    { destruct pending; [discriminate|reflexivity]. }
    exists (String c y), rest. rewrite E, sapp_assoc. split; [reflexivity|].
    rewrite sapp_cons, Ht. reflexivity.
  - destruct (has footnotes num).
    + exists EmptyString, (button num :: chunks ps EmptyString).
      unfold flush. rewrite Hp, sapp_nil_r. split; [reflexivity|].
      cbn [map sconcat]. rewrite button_text, text_chunks, !sapp_nil_l. reflexivity.
    + destruct (IH (pending +:+ marker num)) as (y & rest & E & Ht).
      { destruct pending; [discriminate|reflexivity]. }
      exists (marker num +:+ y), rest. rewrite E, sapp_assoc. split; [reflexivity|].
      rewrite sapp_assoc, Ht. reflexivity.
Qed.

(** A match whose number has no definition stays, whole and in place, in a
    text node of the fragment. *)
Lemma chunks_keeps num ps2 ps1 : forall pending,
  has footnotes num = false ->
  exists l1 x y l2,
    chunks (ps1 ++ Mark num :: ps2) pending = l1 ++ Text (x +:+ marker num +:+ y) :: l2
    /\ sconcat (map textContent l1) +:+ x = pending +:+ untokenize ps1
    /\ y +:+ sconcat (map textContent l2) = untokenize ps2.
Proof.
  intros pending Hnum. revert pending.
  induction ps1 as [|[c|m] ps1 IH]; intros pending; cbn [app chunks].
  - rewrite Hnum.
    destruct (chunks_pending ps2 (pending +:+ marker num)) as (y & rest & E & Ht).
    { destruct pending; reflexivity. }
    exists [], pending, y, rest. rewrite E, sapp_assoc.
    repeat split; [|exact Ht]. unfold untokenize. simpl.
    rewrite sapp_nil_l, sapp_nil_r. reflexivity.
  - destruct (IH (pending +:+ String c EmptyString)) as (l1 & x & y & l2 & E & H1 & H2).
    exists l1, x, y, l2. rewrite E, H1. repeat split; [|exact H2].
    rewrite sapp_assoc. reflexivity.
  - destruct (has footnotes m).
    + destruct (IH EmptyString) as (l1 & x & y & l2 & E & H1 & H2).
      exists (flush pending ++ button m :: l1), x, y, l2. rewrite E, <- app_assoc.
      repeat split; [|exact H2].
      rewrite map_app, sconcat_app, text_flush. cbn [map sconcat].
      rewrite button_text, !sapp_assoc, H1, sapp_nil_l. reflexivity.
    + destruct (IH (pending +:+ marker m)) as (l1 & x & y & l2 & E & H1 & H2).
      exists l1, x, y, l2. rewrite E, H1. repeat split; [|exact H2].
      rewrite sapp_assoc. reflexivity.
Qed.

(** *** Both passes: the controls of the rewritten prose *)

Lemma marks_app a b : marks (a ++ b) = marks a ++ marks b.
Proof.
  induction a as [|[c|num] a IH]; simpl; [reflexivity|exact IH|].
  rewrite IH. reflexivity.
Qed.

Lemma marks_no_match ps : existsb is_mark ps = false -> marks ps = [].
Proof.
  induction ps as [|[c|num] ps IH]; simpl; [reflexivity|exact IH|discriminate].
Qed.

Lemma marks_not_converted ps :
  existsb converted ps = false -> List.filter (has footnotes) (marks ps) = [].
Proof.
  induction ps as [|[c|num] ps IH]; simpl; [reflexivity|exact IH|].
  intros H. apply orb_false_elim in H as [Hnum H]. rewrite Hnum. exact (IH H).
Qed.

Lemma space_not_bracket c : is_space c = true -> c <> "["%char.
Proof. intros H ->. discriminate H. Qed.

Lemma marks_spaces ws : all_chars is_space ws = true -> marks (tokenize ws) = [].
Proof.
  induction ws as [|c ws IH]; [reflexivity|]. simpl. intros H.
  apply andb_prop in H as [Hc H].
  rewrite tokenize_lit by exact (space_not_bracket c Hc). exact (IH H).
Qed.

Lemma space_not_digit c : is_space c = true -> is_digit c = false.
Proof.
  unfold is_space, is_digit. generalize (code c). intros n H.
  destruct (48 <=? n)%nat eqn:E1; [|reflexivity].
  destruct (n <=? 57)%nat eqn:E2; [|reflexivity].
  apply Nat.leb_le in E1, E2.
  destruct (Nat.leb_spec 9 n), (Nat.leb_spec n 13), (Nat.eqb_spec n 32),
    (Nat.eqb_spec n 160); simpl in H; try discriminate; lia.
Qed.

Lemma marks_bracket_spaces ws :
  all_chars is_space ws = true -> marks (tokenize (String "[" ws)) = [].
Proof.
  intros Hws. rewrite tokenize_eq.
  assert (E : match_marker (String "[" ws) = None).
  { unfold match_marker. simpl. destruct ws as [|c ws]; [reflexivity|].
    simpl in Hws. apply andb_prop in Hws as [Hc _].
    simpl. rewrite (space_not_digit c Hc). simpl. rewrite andb_false_r. reflexivity. }
  rewrite E. simpl. apply marks_spaces, Hws.
Qed.

(** [replace(/^\s*\]/, "")] removes no match. *)
Lemma marks_strip_close s :
  marks (tokenize (strip_close_bracket s)) = marks (tokenize s).
Proof.
  unfold strip_close_bracket.
  assert (H : forall r, drop_while is_space s = String "]" r ->
                        marks (tokenize r) = marks (tokenize s)).
  { induction s as [|c s IH]; intros r; [discriminate|]. simpl.
    destruct (is_space c) eqn:Hc.
    - intros E. rewrite tokenize_lit by exact (space_not_bracket c Hc).
      exact (IH r E).
    - intros E. injection E as -> ->. rewrite tokenize_lit by discriminate.
      reflexivity. }
  destruct (drop_while is_space s) as [|c r]; [reflexivity|].
  destruct (Ascii.eqb c "]") eqn:Ec; [|reflexivity].
  apply Ascii.eqb_eq in Ec. subst c. exact (H r eq_refl).
Qed.

(** What [replace(/\[\s*$/, "")] removes *)
Lemma strip_open_bracket_removed s :
  exists b, s = strip_open_bracket s +:+ b
            /\ (b = EmptyString
                \/ exists ws, b = String "[" ws /\ all_chars is_space ws = true).
Proof.
  induction s as [|c s (b & E & Hb)].
  - exists EmptyString. auto.
  - simpl. destruct (Ascii.eqb c "[" && all_chars is_space s) eqn:Ec.
    + apply andb_prop in Ec as [Ec Hs]. apply Ascii.eqb_eq in Ec. subst c.
      exists (String "[" s). rewrite sapp_nil_l. eauto.
    + exists b. rewrite sapp_cons, <- E. auto.
Qed.

(** [replace(/\[\s*$/, "")] removes no match. *)
Lemma marks_strip_open s :
  marks (tokenize (strip_open_bracket s)) = marks (tokenize s).
Proof.
  destruct (strip_open_bracket_removed s) as (b & E & [->|(ws & -> & Hws)]).
  - rewrite sapp_nil_r in E. rewrite <- E. reflexivity.
  - rewrite E at 2. rewrite tokenize_app by reflexivity.
    rewrite marks_app, (marks_bracket_spaces ws Hws), app_nil_r. reflexivity.
Qed.

(** A linked citation: a link [a[href^="#f"]] whose text, white space
    aside, is a number of the map *)
Definition linked_citation (n : node) : option string :=
  match n with
  | Elem tag attrs _ =>
      let num := trim (textContent n) in
      if is_footnote_link tag attrs && has footnotes num then Some num else None
  | Text _ => None
  end.

(** The citations of a tree without controls, in document order: the linked
    citations, and outside them the matches of the texts outside the notes
    whose number is in the map.  [notes] says that the tree is inside a
    [div.text-xs]. *)
Fixpoint cited (notes : bool) (n : node) : list string :=
  match n with
  | Text data =>
      if notes then [] else List.filter (has footnotes) (marks (tokenize data))
  | Elem tag attrs children =>
      match linked_citation n with
      | Some num => [num]
      | None => flat_map (cited (notes || is_notes_div tag attrs)) children
      end
  end.

(** The citations below the prose container *)
Definition citations (ctx : context) (prose : node) : list string :=
  match prose with
  | Text _ => []
  | Elem tag attrs children =>
      flat_map (cited (in_notes (enter ctx tag attrs))) children
  end.

Lemma converted_link_citation n :
  has footnotes EmptyString = false ->
  converted_link footnotes false n = linked_citation n.
Proof.
  intros Hempty. destruct n as [data|tag attrs children]; [reflexivity|].
  unfold converted_link, linked_citation. cbv zeta.
  destruct (trim (textContent (Elem tag attrs children))) as [|c num] eqn:E.
  - rewrite Hempty, !andb_false_r. reflexivity.
  - cbn [is_empty negb]. rewrite !andb_true_r. reflexivity.
Qed.

Lemma controls_wrap_plain_text ctx data :
  flat_map controls (wrap_plain footnotes ctx (Text data))
  = if in_notes ctx || in_control ctx then []
    else map button (List.filter (has footnotes) (marks (tokenize data))).
Proof.
  cbn [wrap_plain]. destruct (in_notes ctx || in_control ctx); [reflexivity|].
  cbn [orb]. unfold regex_test.
  destruct (existsb is_mark (tokenize data)) eqn:Ematch; cbn [negb].
  - rewrite wrapText_chunks.
    destruct (existsb converted (tokenize data)) eqn:Econv.
    + apply controls_chunks.
    + rewrite (marks_not_converted _ Econv). reflexivity.
  - rewrite (marks_no_match _ Ematch). reflexivity.
Qed.

Lemma flat_map_comp {A B C} (f : A -> list B) (g : B -> list C) (l : list A) :
  flat_map g (flat_map f l) = flat_map (fun x => flat_map g (f x)) l.
Proof.
  induction l as [|x l IH]; [reflexivity|]. simpl. rewrite flat_map_app, IH. reflexivity.
Qed.

Section Siblings.

Variable ctx : context.
Hypothesis outside : in_control ctx = false.
Hypothesis no_empty_key : has footnotes EmptyString = false.

(** The controls that the plain-text pass leaves below a sibling *)
Definition plain_controls (k : node) : list node :=
  flat_map controls (wrap_plain footnotes ctx k).

Lemma plain_controls_text data :
  plain_controls (Text data) = map button (cited (in_notes ctx) (Text data)).
Proof.
  unfold plain_controls. rewrite controls_wrap_plain_text, outside, orb_false_r.
  cbn [cited]. destruct (in_notes ctx); reflexivity.
Qed.

Lemma plain_controls_strip_previous done :
  flat_map plain_controls (rev (strip_previous done)) = flat_map plain_controls (rev done).
Proof.
  destruct done as [|[data|tag attrs children] done]; try reflexivity.
  cbn [strip_previous rev]. rewrite !flat_map_app. f_equal.
  cbn [flat_map]. rewrite !plain_controls_text. cbn [cited].
  rewrite marks_strip_open. reflexivity.
Qed.

Lemma plain_controls_visit descend todo : forall done after_link,
  Forall (fun k => linked_citation k = None ->
                   plain_controls (descend k) = map button (cited (in_notes ctx) k)) todo ->
  flat_map plain_controls (visit footnotes descend false todo done after_link)
  = flat_map plain_controls (rev done)
    ++ map button (flat_map (cited (in_notes ctx)) todo).
Proof.
  induction todo as [|k todo IH]; intros done after_link Htodo.
  - cbn [visit flat_map map]. rewrite app_nil_r. reflexivity.
  - inversion Htodo as [|? ? Hk Htodo']; subst.
    destruct k as [data|tag attrs children].
    + cbn [visit]. rewrite IH by exact Htodo'. cbn [rev flat_map].
      rewrite flat_map_app, map_app, <- app_assoc. f_equal. f_equal.
      cbn [flat_map]. rewrite app_nil_r, !plain_controls_text. cbn [cited].
      destruct after_link; [rewrite marks_strip_close|]; reflexivity.
    + cbn [visit]. rewrite converted_link_citation by exact no_empty_key.
      destruct (linked_citation (Elem tag attrs children)) as [num|] eqn:Ecit.
      * rewrite IH by exact Htodo'. cbn [rev flat_map].
        rewrite flat_map_app, plain_controls_strip_previous, map_app, <- app_assoc.
        f_equal. f_equal. cbn [flat_map cited]. rewrite Ecit, app_nil_r.
        unfold plain_controls. rewrite wrap_plain_settled; [reflexivity|].
        exists num. split; [reflexivity|].
        unfold linked_citation in Ecit. cbv zeta in Ecit.
        destruct (is_footnote_link tag attrs); [|discriminate].
        destruct (has footnotes (trim (textContent (Elem tag attrs children)))) eqn:Eh;
          [|discriminate].
        injection Ecit as <-. exact Eh.
      * rewrite IH by exact Htodo'. cbn [rev flat_map].
        rewrite flat_map_app, map_app, <- app_assoc. f_equal. f_equal.
        cbn [flat_map]. rewrite app_nil_r. apply Hk. reflexivity.
Qed.

End Siblings.

Lemma flat_map_nil {A B} (f : A -> list B) (l : list A) :
  flat_map f l = [] -> Forall (fun x => f x = []) l.
Proof.
  induction l as [|x l IH]; [constructor|]. simpl. intros H.
  apply app_eq_nil in H as [Hx Hl]. constructor; auto.
Qed.

Lemma controls_nil tag attrs children :
  controls (Elem tag attrs children) = [] ->
  is_control attrs = false /\ Forall (fun k => controls k = []) children.
Proof.
  unfold controls. cbn [matching]. intros H. apply app_eq_nil in H as [Hself Hkids].
  split; [destruct (is_control attrs); [discriminate|reflexivity]|].
  apply flat_map_nil, Hkids.
Qed.

(** Below an element that is no linked citation, the two passes leave one
    control for each citation. *)
Lemma both_passes_controls n : forall ctx,
  in_control ctx = false -> has footnotes EmptyString = false ->
  controls n = [] -> linked_citation n = None ->
  flat_map controls (wrap_plain footnotes ctx (wrap_linked footnotes ctx n))
  = map button (cited (in_notes ctx) n).
Proof.
  induction n as [data|tag attrs children IH] using node_ind';
    intros ctx Hctx Hempty Hnone Hcit.
  - cbn [wrap_linked]. exact (plain_controls_text ctx Hctx data).
  - apply controls_nil in Hnone as [Hattrs Hkids].
    cbn [wrap_linked wrap_plain flat_map cited]. rewrite Hcit, app_nil_r.
    unfold controls at 1. cbn [matching]. rewrite Hattrs. cbn [app].
    change (matching (fun _ attrs0 => is_control attrs0)) with controls.
    assert (Hin : in_control (enter ctx tag attrs) = false).
    { cbn [enter in_control]. rewrite Hctx, Hattrs. reflexivity. }
    rewrite Hin, flat_map_comp.
    change (fun x => flat_map controls (wrap_plain footnotes (enter ctx tag attrs) x))
      with (plain_controls (enter ctx tag attrs)).
    rewrite (plain_controls_visit (enter ctx tag attrs) Hin Hempty).
    + reflexivity.
    + rewrite Forall_forall in IH, Hkids |- *. intros k Hk Hnot.
      exact (IH k Hk (enter ctx tag attrs) Hin Hempty (Hkids k Hk) Hnot).
Qed.

Lemma both_passes_citations ctx prose :
  in_control ctx = false -> has footnotes EmptyString = false ->
  controls prose = [] ->
  querySelectorAll (fun _ attrs => is_control attrs)
    (wrapPlainTextNotes footnotes ctx (wrapLinkedNotes footnotes ctx prose))
  = map button (citations ctx prose).
Proof.
  intros Hctx Hempty Hnone. destruct prose as [data|tag attrs children]; [reflexivity|].
  apply controls_nil in Hnone as [Hattrs Hkids].
  unfold wrapLinkedNotes, querySelectorAll.
  cbn [wrap_linked wrapPlainTextNotes children_of citations].
  change (matching (fun _ attrs0 => is_control attrs0)) with controls.
  assert (Hin : in_control (enter ctx tag attrs) = false).
  { cbn [enter in_control]. rewrite Hctx, Hattrs. reflexivity. }
  rewrite Hin, flat_map_comp.
  change (fun x => flat_map controls (wrap_plain footnotes (enter ctx tag attrs) x))
    with (plain_controls (enter ctx tag attrs)).
  rewrite (plain_controls_visit (enter ctx tag attrs) Hin Hempty); [reflexivity|].
  rewrite Forall_forall in Hkids |- *. intros k Hk Hnot.
  exact (both_passes_controls k (enter ctx tag attrs) Hin Hempty (Hkids k Hk) Hnot).
Qed.

End WrapFacts.


(** *** Definitions: the map of [parseFootnotes] *)

(** The text up to the first match *)
Fixpoint segment (ps : list piece) : string :=
  match ps with
  | Lit c :: r => String c (segment r)
  | _ => EmptyString
  end.

(** Each match with the text between it and the next match *)
Fixpoint bodies (ps : list piece) : list (string * string) :=
  match ps with
  | [] => []
  | Lit _ :: r => bodies r
  | Mark num :: r => (num, segment r) :: bodies r
  end.

Lemma split_bodies ps :
  split ps = segment ps :: flat_map (fun d => [fst d; snd d]) (bodies ps).
Proof.
  induction ps as [|[c|num] ps IH]; simpl; [reflexivity| |].
  - rewrite IH. reflexivity.
  - rewrite IH. reflexivity.
Qed.

Lemma numbered_bodies (l : list (string * string)) :
  numbered (flat_map (fun d => [fst d; snd d]) l) = l.
Proof.
  induction l as [|[num raw] l IH]; [reflexivity|]. simpl. rewrite IH. reflexivity.
Qed.

(** The loop of [parseFootnotes] runs over the matches of the block, each
    with the text behind it. *)
Lemma numbered_split ps : numbered (tail (split ps)) = bodies ps.
Proof. rewrite split_bodies. apply numbered_bodies. Qed.

Lemma bodies_marks ps : map fst (bodies ps) = marks ps.
Proof.
  induction ps as [|[c|num] ps IH]; simpl; [reflexivity|exact IH|].
  rewrite IH. reflexivity.
Qed.

Lemma bodies_numbers s num raw :
  In (num, raw) (bodies (tokenize s)) -> is_number num = true.
Proof.
  intros Hin. pose proof (marks_are_numbers s) as Hall.
  rewrite <- bodies_marks in Hall. rewrite List.Forall_forall in Hall.
  apply (Hall num). apply in_map_iff. exists (num, raw). auto.
Qed.

Section ParseFacts.

Variable innerHTML : list node -> string.
Variable html_text : string -> string.

(** The definitions of a block, as [parseFootnotes] reads them *)
Definition definitions (section : node) : list (string * string) :=
  if is_notes_section section
  then bodies (tokenize (innerHTML (children_of section)))
  else [].

Lemma parse_section_definitions map section :
  parse_section innerHTML html_text map section
  = fold_left (set_definition html_text) (definitions section) map.
Proof.
  unfold parse_section, definitions, section_parts.
  destruct (is_notes_section section); [|reflexivity].
  rewrite numbered_split. reflexivity.
Qed.

Lemma parseFootnotes_definitions prose :
  parseFootnotes innerHTML html_text prose
  = fold_left (set_definition html_text)
      (flat_map definitions (querySelectorAll is_notes_div prose)) ∅.
Proof.
  unfold parseFootnotes. generalize (∅ : gmap string string).
  induction (querySelectorAll is_notes_div prose) as [|section l IH]; intros map.
  - reflexivity.
  - cbn [fold_left flat_map]. rewrite fold_left_app, IH, parse_section_definitions.
    reflexivity.
Qed.

(** An entry of the map is an entry of the start or the trimmed text of a
    definition that is not empty. *)
Lemma set_definitions_sound defs : forall (map : gmap string string) k v,
  fold_left (set_definition html_text) defs map !! k = Some v ->
  map !! k = Some v
  \/ exists raw, In (k, raw) defs /\ v = trim (html_text raw) /\ v <> EmptyString.
Proof.
  induction defs as [|[num raw] defs IH]; intros map k v H; [auto|].
  cbn [fold_left] in H. apply IH in H as [H|(raw' & Hin & Hv)].
  - unfold set_definition in H. cbn [fst snd] in H.
    destruct (trim (html_text raw)) as [|c t] eqn:Et; cbn [is_empty] in H; [auto|].
    apply lookup_insert_Some in H as [[<- <-]|[_ H]]; [|auto].
    right. exists raw. rewrite Et. split; [left; reflexivity|]. split; [reflexivity|discriminate].
  - right. exists raw'. split; [right; exact Hin|exact Hv].
Qed.

Lemma set_definitions_keep defs : forall (map : gmap string string) k,
  is_Some (map !! k) -> is_Some (fold_left (set_definition html_text) defs map !! k).
Proof.
  induction defs as [|d defs IH]; intros map k H; [exact H|].
  cbn [fold_left]. apply IH. unfold set_definition.
  destruct (is_empty (trim (html_text (snd d)))); [exact H|].
  destruct (decide (fst d = k)) as [->|Hne].
  - rewrite lookup_insert_eq. eauto.
  - rewrite lookup_insert_ne by exact Hne. exact H.
Qed.

(** A definition that is not empty gives its number an entry. *)
Lemma set_definitions_complete defs : forall (map : gmap string string) k raw,
  In (k, raw) defs -> trim (html_text raw) <> EmptyString ->
  is_Some (fold_left (set_definition html_text) defs map !! k).
Proof.
  induction defs as [|d defs IH]; intros map k raw Hin Hne; [destruct Hin|].
  cbn [fold_left]. destruct Hin as [->|Hin]; [|exact (IH _ k raw Hin Hne)].
  apply set_definitions_keep. unfold set_definition. cbn [fst snd].
  destruct (trim (html_text raw)) as [|c t]; [contradiction|].
  cbn [is_empty]. rewrite lookup_insert_eq. eauto.
Qed.

End ParseFacts.


(** The definitions of all the blocks of the container, in document order *)
Definition all_definitions (innerHTML : list node -> string) (prose : node)
  : list (string * string) :=
  flat_map (definitions innerHTML) (querySelectorAll is_notes_div prose).

(** A browser for the examples: a serialisation without escapes, and the
    text of a fragment as its source without the tags. *)
Fixpoint outerHTML (n : node) : string :=
  match n with
  | Text data => data
  | Elem tag attrs children =>
      "<" +:+ tag
      +:+ sconcat (map (fun a => " " +:+ fst a +:+ "="
                                 +:+ String dquote (snd a +:+ String dquote EmptyString))
                       attrs)
      +:+ ">" +:+ sconcat (map outerHTML children) +:+ "</" +:+ tag +:+ ">"
  end.

Definition sample_innerHTML (children : list node) : string :=
  sconcat (map outerHTML children).

Fixpoint strip_tags (in_tag : bool) (s : string) : string :=
  match s with
  | EmptyString => EmptyString
  | String c r =>
      if in_tag then strip_tags (negb (Ascii.eqb c ">")) r
      else if Ascii.eqb c "<" then strip_tags true r
      else String c (strip_tags false r)
  end.

Definition sample_html_text (s : string) : string := strip_tags false s.


(** *** The result of the discovery, node by node *)

(** Whether [wrapLinkedNotes] converts the sibling at the head of
    [siblings] *)
Definition link_ahead (footnotes : gmap string string) (inside : bool)
    (siblings : list node) : bool :=
  match siblings with
  | k :: _ => match converted_link footnotes inside k with
              | Some _ => true
              | None => false
              end
  | [] => false
  end.

(** The text of a node between its siblings: behind a converted link it
    loses its opening []], before one its closing [[]. *)
Definition without_brackets (after_link before_link : bool) (data : string) : string :=
  let data := if after_link then strip_close_bracket data else data in
  if before_link then strip_open_bracket data else data.

(** The nodes [frag] stand for a text node with the text [data] below
    [ctx].  Inside the notes and inside a control the text node is kept.
    Elsewhere [frag] reads as [data]; it consists of buttons of numbers of
    the map and of texts in which no match has a number of the map; and its
    buttons are those of the matches of [data] with a number of the map, in
    their order. *)
Definition stands_for (footnotes : gmap string string) (ctx : context)
    (data : string) (frag : list node) : Prop :=
  if in_notes ctx || in_control ctx then frag = [Text data]
  else sconcat (map textContent frag) = data
       /\ Forall (settled footnotes) frag
       /\ flat_map controls frag
          = map button (List.filter (has footnotes) (marks (tokenize data))).

(** [replaced footnotes ctx after_link siblings results]: the nodes
    [results] are the siblings [siblings], children of an element with the
    context [ctx], in which every citation is replaced by its control.  A
    link that [wrapLinkedNotes] converts is replaced by the button of its
    number, by nothing else; a text node by a fragment that stands for its
    text without the brackets next to a converted link; any other element
    keeps its tag and its attributes, and its children are replaced in the
    same way.  [after_link] says that the sibling before [siblings] is a
    converted link. *)
Inductive replaced (footnotes : gmap string string)
  : context -> bool -> list node -> list node -> Prop :=
| replaced_nil ctx after_link : replaced footnotes ctx after_link [] []
| replaced_link ctx after_link link num siblings results :
    converted_link footnotes (in_control ctx) link = Some num ->
    replaced footnotes ctx true siblings results ->
    replaced footnotes ctx after_link (link :: siblings) (button num :: results)
| replaced_text ctx after_link data siblings frag results :
    stands_for footnotes ctx
      (without_brackets after_link (link_ahead footnotes (in_control ctx) siblings) data)
      frag ->
    replaced footnotes ctx false siblings results ->
    replaced footnotes ctx after_link (Text data :: siblings) (frag ++ results)
| replaced_element ctx after_link tag attrs children siblings below results :
    converted_link footnotes (in_control ctx) (Elem tag attrs children) = None ->
    replaced footnotes (enter ctx tag attrs) false children below ->
    replaced footnotes ctx false siblings results ->
    replaced footnotes ctx after_link
      (Elem tag attrs children :: siblings) (Elem tag attrs below :: results).

(** The prose container [result] is the container [prose] with every
    citation below it replaced by its control. *)
Definition citations_replaced (footnotes : gmap string string) (ctx : context)
    (prose result : node) : Prop :=
  match prose with
  | Text _ => result = prose
  | Elem tag attrs children =>
      exists results,
        result = Elem tag attrs results
        /\ replaced footnotes (enter ctx tag attrs) false children results
  end.

(** The siblings that [visit] leaves, read from the first one on: what
    [visit] does to the previous sibling of a converted link is done when
    that sibling is met. *)
Fixpoint linked_siblings (footnotes : gmap string string) (descend : node -> node)
    (inside : bool) (after_link : bool) (todo : list node) : list node :=
  match todo with
  | [] => []
  | k :: todo' =>
      match k with
      | Text data =>
          Text (without_brackets after_link (link_ahead footnotes inside todo') data)
          :: linked_siblings footnotes descend inside false todo'
      | Elem _ _ _ =>
          match converted_link footnotes inside k with
          | Some num => button num :: linked_siblings footnotes descend inside true todo'
          | None => descend k :: linked_siblings footnotes descend inside false todo'
          end
      end
  end.

Lemma visit_linked_siblings footnotes descend inside todo :
  (forall tag attrs children,
     exists children', descend (Elem tag attrs children) = Elem tag attrs children') ->
  forall done after_link,
    visit footnotes descend inside todo done after_link
    = rev (if link_ahead footnotes inside todo then strip_previous done else done)
      ++ linked_siblings footnotes descend inside after_link todo.
Proof.
  intros Hdescend. induction todo as [|k todo IH]; intros done after_link.
  - cbn [visit link_ahead linked_siblings]. rewrite app_nil_r. reflexivity.
  - destruct k as [data|tag attrs children].
    + cbn [visit link_ahead linked_siblings converted_link]. rewrite IH.
      unfold without_brackets.
      destruct (link_ahead footnotes inside todo); cbn [strip_previous rev];
        rewrite <- app_assoc; reflexivity.
    + cbn [visit link_ahead linked_siblings].
      destruct (converted_link footnotes inside (Elem tag attrs children)) as [num|].
      * rewrite IH.
        replace (if link_ahead footnotes inside todo
                 then strip_previous (button num :: strip_previous done)
                 else button num :: strip_previous done)
          with (button num :: strip_previous done)
          by (destruct (link_ahead footnotes inside todo); reflexivity).
        cbn [rev]. rewrite <- app_assoc. reflexivity.
      * rewrite IH. destruct (Hdescend tag attrs children) as (children' & ->).
        replace (if link_ahead footnotes inside todo
                 then strip_previous (Elem tag attrs children' :: done)
                 else Elem tag attrs children' :: done)
          with (Elem tag attrs children' :: done)
          by (destruct (link_ahead footnotes inside todo); reflexivity).
        cbn [rev]. rewrite <- app_assoc. reflexivity.
Qed.

Lemma wrap_linked_element footnotes ctx tag attrs children :
  exists children',
    wrap_linked footnotes ctx (Elem tag attrs children) = Elem tag attrs children'.
Proof. eexists. reflexivity. Qed.

(** What [wrapPlainTextNotes] puts in the place of a text node stands for
    its text. *)
Lemma wrap_plain_stands_for footnotes ctx data :
  stands_for footnotes ctx data (wrap_plain footnotes ctx (Text data)).
Proof.
  unfold stands_for.
  destruct (in_notes ctx || in_control ctx) eqn:Ectx.
  - cbn [wrap_plain]. rewrite Ectx. reflexivity.
  - split; [apply wrap_plain_text|]. split.
    + cbn [wrap_plain]. rewrite Ectx. cbn [orb]. unfold regex_test.
      destruct (existsb is_mark (tokenize data)) eqn:Ematch; cbn [negb].
      * rewrite wrapText_chunks.
        destruct (existsb (converted footnotes) (tokenize data)) eqn:Econv.
        -- apply (chunks_settled footnotes (tokenize data) []);
             [apply valid_tokenize|reflexivity].
        -- constructor; [exact Econv|constructor].
      * constructor; [|constructor]. cbn [settled].
        induction (tokenize data) as [|[c|num] ps IHps]; [reflexivity| |discriminate].
        cbn [existsb is_mark converted orb] in *. exact (IHps Ematch).
    + rewrite controls_wrap_plain_text, Ectx. reflexivity.
Qed.

(** Below an element, the two passes replace every citation. *)
Lemma both_passes_replaced footnotes n : forall ctx,
  match n with
  | Text _ => True
  | Elem tag attrs children =>
      replaced footnotes (enter ctx tag attrs) false children
        (flat_map (wrap_plain footnotes (enter ctx tag attrs))
           (visit footnotes (wrap_linked footnotes (enter ctx tag attrs))
              (in_control (enter ctx tag attrs)) children [] false))
  end.
Proof.
  induction n as [data|tag attrs children IH] using node_ind'; intros ctx; [exact I|].
  set (inner := enter ctx tag attrs).
  rewrite (visit_linked_siblings footnotes _ _ children (wrap_linked_element footnotes inner)).
  replace (if link_ahead footnotes (in_control inner) children
           then strip_previous [] else [])
    with (@nil node) by (destruct (link_ahead _ _ _); reflexivity).
  cbn [rev app]. generalize false.
  induction IH as [|k rest Hk _ IHrest]; intros after_link; [constructor|].
  destruct k as [data|tag' attrs' children'].
  - cbn [linked_siblings flat_map]. apply replaced_text; [|apply IHrest].
    apply wrap_plain_stands_for.
  - cbn [linked_siblings].
    destruct (converted_link footnotes (in_control inner) (Elem tag' attrs' children'))
      as [num|] eqn:Elink.
    + cbn [flat_map]. rewrite wrap_plain_settled.
      * cbn [app]. apply replaced_link; [exact Elink|apply IHrest].
      * exists num. split; [reflexivity|].
        unfold converted_link in Elink. cbv zeta in Elink.
        destruct (is_footnote_link tag' attrs'); [|discriminate].
        destruct (is_empty (trim (textContent (Elem tag' attrs' children'))));
          [discriminate|].
        destruct (has footnotes (trim (textContent (Elem tag' attrs' children'))))
          eqn:Eh; [|discriminate].
        destruct (in_control inner); [discriminate|].
        injection Elink as <-. exact Eh.
    + cbn [flat_map wrap_linked wrap_plain app].
      apply replaced_element; [exact Elink|exact (Hk inner)|apply IHrest].
Qed.

Lemma both_passes_citations_replaced footnotes ctx prose :
  citations_replaced footnotes ctx prose
    (wrapPlainTextNotes footnotes ctx (wrapLinkedNotes footnotes ctx prose)).
Proof.
  destruct prose as [data|tag attrs children]; [reflexivity|].
  eexists. split; [reflexivity|].
  exact (both_passes_replaced footnotes (Elem tag attrs children) ctx).
Qed.


(** *** Discovery: the claims *)

Definition sample_footnotes : gmap string string :=
  <["1" := "First note."]> (<["2" := "Second note."]> ∅).

Definition sample_prose : node :=
  Elem "div" [("class", "prose")]
    [ Elem "p" []
        [ Text "Growth ["; Elem "a" [("href", "#f1n")] [Text "1"];
          Text "] is a rate [2], not a size [3]." ];
      Elem "div" [("class", "text-xs")]
        [ Elem "strong" [] [Text "Notes"];
          Text "[1] First note. [2] Second note." ] ].

Definition page_context : context := {| in_notes := false; in_control := false |}.

Lemma sample_footnotes_keys k :
  has sample_footnotes k = true -> is_number k = true.
Proof.
  unfold has, sample_footnotes. intros H. apply bool_decide_eq_true_1 in H as [v Hv].
  apply lookup_insert_Some in Hv as [[<- _]|[_ Hv]]; [reflexivity|].
  apply lookup_insert_Some in Hv as [[<- _]|[_ Hv]]; [reflexivity|].
  rewrite lookup_empty in Hv. discriminate.
Qed.

(** C1.  After [wrapLinkedNotes] and then [wrapPlainTextNotes] the prose
    container is the container it was with every citation replaced by its
    control: a link [a[href^="#f"]] whose trimmed text is a number of the
    map is replaced by the button of that number and by nothing else, a
    text node outside [div.text-xs] by a fragment that reads as the text
    did, in which the button of [N] stands for each match [[N]] with [N] in
    the map, and every other node stays where it is.  When the keys of the
    map are numbers and the container holds no control yet and does not lie
    inside one, its controls are then, in document order, exactly one
    button for each citation, of either style.  The button of a citation
    carries its number in [data-fn] and in its [aria-label]. *)
Theorem citations_become_controls
    (footnotes : gmap string string) (ctx : context) (prose : node) :
  (forall k, has footnotes k = true -> is_number k = true) ->
  in_control ctx = false ->
  controls prose = [] ->
  querySelectorAll (fun _ attrs => is_control attrs)
    (wrapPlainTextNotes footnotes ctx (wrapLinkedNotes footnotes ctx prose))
  = map button (citations footnotes ctx prose)
  /\ (forall num,
        getAttribute "data-fn" (button num) = Some num
        /\ getAttribute "aria-label" (button num) = Some ("Footnote " +:+ num))
  /\ citations_replaced footnotes ctx prose
       (wrapPlainTextNotes footnotes ctx (wrapLinkedNotes footnotes ctx prose)).
Proof.
  intros Hkeys Hctx Hnone. split; [|split; [intros num; split; reflexivity|]].
  - apply both_passes_citations; [exact Hctx| |exact Hnone].
    destruct (has footnotes EmptyString) eqn:E; [|reflexivity].
    apply Hkeys in E. discriminate E.
  - apply both_passes_citations_replaced.
Qed.

Lemma citations_become_controls_witness :
  querySelectorAll (fun _ attrs => is_control attrs)
    (wrapPlainTextNotes sample_footnotes page_context
       (wrapLinkedNotes sample_footnotes page_context sample_prose))
  = map button ["1"; "2"]
  /\ (forall num,
        getAttribute "data-fn" (button num) = Some num
        /\ getAttribute "aria-label" (button num) = Some ("Footnote " +:+ num))
  /\ citations_replaced sample_footnotes page_context sample_prose
       (wrapPlainTextNotes sample_footnotes page_context
          (wrapLinkedNotes sample_footnotes page_context sample_prose)).
Proof.
  exact (citations_become_controls sample_footnotes page_context sample_prose
           sample_footnotes_keys eq_refl eq_refl).
Defined.

(** C5.  A match [[N]] of a text node whose number has no entry in the map
    stays where it is, inside a text node, with the text before and after
    it; the controls that [wrapPlainTextNotes] creates in a text node are
    the buttons of the matches whose number is in the map; the text of the
    container is unchanged; and a second run of [wrapPlainTextNotes]
    changes nothing. *)
Theorem undefined_citation_stays_text
    (footnotes : gmap string string) (ctx : context) (prose : node)
    (before num after : string) :
  is_number num = true ->
  has footnotes num = false ->
  (exists l1 x y l2,
      wrap_plain footnotes ctx (Text (before +:+ marker num +:+ after))
      = l1 ++ Text (x +:+ marker num +:+ y) :: l2
      /\ sconcat (map textContent l1) +:+ x = before
      /\ y +:+ sconcat (map textContent l2) = after)
  /\ (forall data,
        flat_map controls (wrap_plain footnotes ctx (Text data))
        = if in_notes ctx || in_control ctx then []
          else map button (List.filter (has footnotes) (marks (tokenize data))))
  /\ textContent (wrapPlainTextNotes footnotes ctx prose) = textContent prose
  /\ wrapPlainTextNotes footnotes ctx (wrapPlainTextNotes footnotes ctx prose)
     = wrapPlainTextNotes footnotes ctx prose.
Proof.
  intros Hnum Hundef.
  split; [|split; [|split]].
  - assert (Hstay : exists l1 x y l2,
               [Text (before +:+ marker num +:+ after)]
               = l1 ++ Text (x +:+ marker num +:+ y) :: l2
               /\ sconcat (map textContent l1) +:+ x = before
               /\ y +:+ sconcat (map textContent l2) = after).
    { exists [], before, after, []. simpl. rewrite sapp_nil_l, sapp_nil_r. auto. }
    cbn [wrap_plain].
    destruct (in_notes ctx || in_control ctx
              || negb (regex_test (before +:+ marker num +:+ after)));
      [exact Hstay|].
    rewrite wrapText_chunks, tokenize_occurrence by exact Hnum.
    destruct (existsb (converted footnotes) (tokenize before ++ Mark num :: tokenize after));
      [|exact Hstay].
    destruct (chunks_keeps footnotes num (tokenize after) (tokenize before)
                EmptyString Hundef) as (l1 & x & y & l2 & E & H1 & H2).
    exists l1, x, y, l2. rewrite sapp_nil_l, untokenize_tokenize in H1.
    rewrite untokenize_tokenize in H2. auto.
  - intros data. apply controls_wrap_plain_text.
  - apply wrapPlainTextNotes_text.
  - apply wrapPlainTextNotes_idempotent.
Qed.

Lemma undefined_citation_stays_text_witness :
  (exists l1 x y l2,
      wrap_plain sample_footnotes page_context
        (Text ("a rate [2], not a size " +:+ marker "3" +:+ "."))
      = l1 ++ Text (x +:+ marker "3" +:+ y) :: l2
      /\ sconcat (map textContent l1) +:+ x = "a rate [2], not a size "
      /\ y +:+ sconcat (map textContent l2) = ".")
  /\ (forall data,
        flat_map controls (wrap_plain sample_footnotes page_context (Text data))
        = map button (List.filter (has sample_footnotes) (marks (tokenize data))))
  /\ textContent (wrapPlainTextNotes sample_footnotes page_context sample_prose)
     = textContent sample_prose
  /\ wrapPlainTextNotes sample_footnotes page_context
       (wrapPlainTextNotes sample_footnotes page_context sample_prose)
     = wrapPlainTextNotes sample_footnotes page_context sample_prose.
Proof.
  exact (undefined_citation_stays_text sample_footnotes page_context sample_prose
           "a rate [2], not a size " "3" "." eq_refl eq_refl).
Defined.


Lemma sample_prose_footnotes :
  parseFootnotes sample_innerHTML sample_html_text sample_prose = sample_footnotes.
Proof. vm_compute. reflexivity. Qed.

(** C4.  The map of [parseFootnotes] is read off the blocks [div.text-xs]
    whose first [strong] has a text that starts with [Notes]: the content
    of a block is split at its matches [[N]], and the text between a match
    and the next one is the definition of its number.  An entry of the map
    has a number as key, and as value the text of one of the definitions of
    that number, trimmed; the value is not empty and trimming it again
    changes nothing.  A number has no entry only when it has no definition
    or all its definitions are empty. *)
Theorem parseFootnotes_entries
    (innerHTML : list node -> string) (html_text : string -> string)
    (prose : node) (k : string) :
  match parseFootnotes innerHTML html_text prose !! k with
  | Some v =>
      is_number k = true /\ v <> EmptyString /\ trim v = v
      /\ exists raw, In (k, raw) (all_definitions innerHTML prose)
                     /\ v = trim (html_text raw)
  | None =>
      forall raw, In (k, raw) (all_definitions innerHTML prose) ->
                  trim (html_text raw) = EmptyString
  end.
Proof.
  rewrite parseFootnotes_definitions. fold (all_definitions innerHTML prose).
  destruct (fold_left (set_definition html_text) (all_definitions innerHTML prose) ∅ !! k)
    as [v|] eqn:E.
  - apply set_definitions_sound in E as [E|(raw & Hin & Hv & Hne)].
    { rewrite lookup_empty in E. discriminate. }
    split; [|split; [exact Hne|split; [|eauto]]].
    + unfold all_definitions in Hin. apply in_flat_map in Hin as (section & _ & Hin).
      unfold definitions in Hin. destruct (is_notes_section section); [|destruct Hin].
      exact (bodies_numbers _ _ _ Hin).
    + rewrite Hv. apply trim_idempotent.
  - intros raw Hin. destruct (trim (html_text raw)) as [|c t] eqn:Et; [reflexivity|].
    exfalso.
    assert (Hsome : is_Some (fold_left (set_definition html_text)
                               (all_definitions innerHTML prose) ∅ !! k)).
    { apply (set_definitions_complete html_text _ _ k raw Hin). rewrite Et. discriminate. }
    rewrite E in Hsome. destruct Hsome as [v Hv]. discriminate.
Qed.

Lemma parseFootnotes_entries_witness :
  is_number "1" = true /\ "First note." <> EmptyString
  /\ trim "First note." = "First note."
  /\ exists raw, In ("1", raw) (all_definitions sample_innerHTML sample_prose)
                 /\ "First note." = trim (sample_html_text raw).
Proof.
  exact (parseFootnotes_entries sample_innerHTML sample_html_text sample_prose "1").
Defined.




(** *** The brackets around a linked citation *)

Lemma strip_open_bracket_last a ws :
  all_chars is_space ws = true ->
  strip_open_bracket (a +:+ String "[" ws) = a.
Proof.
  intros Hws. induction a as [|c a IH].
  - rewrite sapp_nil_l. simpl. rewrite Hws. reflexivity.
  - rewrite sapp_cons. cbn [strip_open_bracket].
    rewrite Json.all_chars_app. cbn [all_chars].
    replace (is_space "[") with false by reflexivity.
    rewrite andb_false_r, andb_false_r. rewrite IH. reflexivity.
Qed.

Lemma strip_close_bracket_first ws b :
  all_chars is_space ws = true ->
  strip_close_bracket (ws +:+ String "]" b) = b.
Proof.
  intros Hws. unfold strip_close_bracket.
  rewrite (drop_while_app is_space ws (String "]" b) Hws eq_refl). reflexivity.
Qed.

(** A paragraph that cites a note as [[<a href="#f1n">1</a>]]: the link
    becomes the control, and the bracket before it and the bracket behind
    it, with the white space between them and the link, leave the texts;
    the control brings its own brackets, so the paragraph reads as the text
    before, the citation in brackets and the text behind. *)
Theorem linked_citation_loses_brackets
    (footnotes : gmap string string) (ctx : context)
    (tag : string) (attrs : list (string * string))
    (link : node) (num before after ws1 ws2 : string) :
  converted_link footnotes (in_control (enter ctx tag attrs)) link = Some num ->
  all_chars is_space ws1 = true ->
  all_chars is_space ws2 = true ->
  wrapLinkedNotes footnotes ctx
    (Elem tag attrs [Text (before +:+ String "[" ws1); link;
                     Text (ws2 +:+ String "]" after)])
  = Elem tag attrs [Text before; button num; Text after]
  /\ textContent (wrapLinkedNotes footnotes ctx
       (Elem tag attrs [Text (before +:+ String "[" ws1); link;
                        Text (ws2 +:+ String "]" after)]))
     = before +:+ marker num +:+ after.
Proof.
  intros Hlink Hws1 Hws2.
  assert (Hkind : exists ltag lattrs lkids, link = Elem ltag lattrs lkids).
  { destruct link as [data|ltag lattrs lkids]; [discriminate|eauto]. }
  destruct Hkind as (ltag & lattrs & lkids & ->).
  assert (E : wrapLinkedNotes footnotes ctx
                (Elem tag attrs [Text (before +:+ String "[" ws1); Elem ltag lattrs lkids;
                                 Text (ws2 +:+ String "]" after)])
              = Elem tag attrs [Text before; button num; Text after]).
  { unfold wrapLinkedNotes. cbn [wrap_linked visit]. rewrite Hlink.
    cbn [visit strip_previous rev app].
    rewrite (strip_open_bracket_last before ws1 Hws1).
    rewrite (strip_close_bracket_first ws2 after Hws2). reflexivity. }
  split; [exact E|]. rewrite E. cbn [textContent map sconcat].
  rewrite button_text, sapp_nil_r. reflexivity.
Qed.

Lemma linked_citation_loses_brackets_witness :
  wrapLinkedNotes sample_footnotes page_context
    (Elem "p" [] [Text ("Growth " +:+ String "[" EmptyString);
                  Elem "a" [("href", "#f1n")] [Text "1"];
                  Text (" " +:+ String "]" " is a rate.")])
  = Elem "p" [] [Text "Growth "; button "1"; Text " is a rate."]
  /\ textContent (wrapLinkedNotes sample_footnotes page_context
       (Elem "p" [] [Text ("Growth " +:+ String "[" EmptyString);
                     Elem "a" [("href", "#f1n")] [Text "1"];
                     Text (" " +:+ String "]" " is a rate.")]))
     = "Growth " +:+ marker "1" +:+ " is a rate.".
Proof.
  apply (linked_citation_loses_brackets sample_footnotes page_context "p" []
           (Elem "a" [("href", "#f1n")] [Text "1"]) "1" "Growth " " is a rate."
           EmptyString " "); reflexivity.
Defined.

(** *** The notes and the controls stay as they are *)

Lemma wrap_plain_inside_notes footnotes n : forall ctx,
  in_notes ctx = true -> wrap_plain footnotes ctx n = [n].
Proof.
  induction n as [data|tag attrs children IH] using node_ind'; intros ctx Hctx.
  - simpl. rewrite Hctx. reflexivity.
  - simpl. f_equal. f_equal. apply flat_map_singletons.
    eapply Forall_impl; [exact IH|]. cbv beta. intros k Hk. apply Hk.
    simpl. rewrite Hctx. reflexivity.
Qed.

(** [wrapPlainTextNotes] changes nothing in an element that is a
    [div.text-xs] or carries [data-fn], or that lies inside one, whatever
    matches its texts hold. *)
Theorem plain_pass_skips_notes_and_controls
    (footnotes : gmap string string) (ctx : context)
    (tag : string) (attrs : list (string * string)) (children : list node) :
  in_notes (enter ctx tag attrs) || in_control (enter ctx tag attrs) = true ->
  wrap_plain footnotes ctx (Elem tag attrs children) = [Elem tag attrs children].
Proof.
  intros Hskip. cbn [wrap_plain]. f_equal. f_equal. apply flat_map_singletons.
  apply List.Forall_forall. intros k _.
  apply orb_true_iff in Hskip as [H|H].
  - apply wrap_plain_inside_notes, H.
  - apply wrap_plain_inside_control, H.
Qed.

Lemma plain_pass_skips_notes_and_controls_witness :
  wrap_plain sample_footnotes page_context
    (Elem "div" [("class", "text-xs")]
       [Elem "strong" [] [Text "Notes"]; Text "[1] First note. [2] Second note."])
  = [Elem "div" [("class", "text-xs")]
       [Elem "strong" [] [Text "Notes"]; Text "[1] First note. [2] Second note."]].
Proof.
  apply (plain_pass_skips_notes_and_controls sample_footnotes page_context
           "div" [("class", "text-xs")]
           [Elem "strong" [] [Text "Notes"]; Text "[1] First note. [2] Second note."]).
  reflexivity.
Defined.

(** *** Which definition a number gets *)

Lemma set_definitions_skip html_text defs : forall (map : gmap string string) k,
  Forall (fun d => fst d = k -> trim (html_text (snd d)) = EmptyString) defs ->
  fold_left (set_definition html_text) defs map !! k = map !! k.
Proof.
  induction defs as [|[num raw] defs IH]; intros map k Hall; [reflexivity|].
  inversion Hall as [|? ? Hd Hrest]; subst. cbn [fold_left]. rewrite (IH _ k Hrest).
  unfold set_definition. cbn [fst snd] in *.
  destruct (trim (html_text raw)) as [|c t] eqn:Et; [reflexivity|]. cbn [is_empty].
  destruct (decide (num = k)) as [->|Hne].
  - specialize (Hd eq_refl). discriminate.
  - apply lookup_insert_ne, Hne.
Qed.

(** When a number is defined more than once, in one block or in several,
    the map holds its last definition that is not empty: the trimmed text
    of a definition behind which every definition of the number is
    empty. *)
Theorem parseFootnotes_last_definition
    (innerHTML : list node -> string) (html_text : string -> string)
    (prose : node) (earlier later : list (string * string)) (k raw : string) :
  all_definitions innerHTML prose = earlier ++ (k, raw) :: later ->
  trim (html_text raw) <> EmptyString ->
  Forall (fun d => fst d = k -> trim (html_text (snd d)) = EmptyString) later ->
  parseFootnotes innerHTML html_text prose !! k = Some (trim (html_text raw)).
Proof.
  intros Hdefs Hne Hlater. rewrite parseFootnotes_definitions.
  fold (all_definitions innerHTML prose). rewrite Hdefs, fold_left_app.
  cbn [fold_left]. rewrite (set_definitions_skip html_text later _ k Hlater).
  unfold set_definition. cbn [fst snd].
  destruct (trim (html_text raw)) as [|c t]; [contradiction|].
  cbn [is_empty]. apply lookup_insert_eq.
Qed.

(** A block that defines the first note twice *)
Definition redefined_prose : node :=
  Elem "div" [("class", "prose")]
    [ Elem "div" [("class", "text-xs")]
        [ Elem "strong" [] [Text "Notes"];
          Text "[1] A draft. [2] Second note. [1] First note. " ] ].

Lemma parseFootnotes_last_definition_witness :
  parseFootnotes sample_innerHTML sample_html_text redefined_prose !! "1"
  = Some (trim (sample_html_text " First note. ")).
Proof.
  apply (parseFootnotes_last_definition sample_innerHTML sample_html_text redefined_prose
           [("1", " A draft. "); ("2", " Second note. ")] [] "1" " First note. ").
  - vm_compute. reflexivity.
  - vm_compute. discriminate.
  - constructor.
Defined.

Lemma set_definitions_empty html_text defs : forall (map : gmap string string),
  Forall (fun d => trim (html_text (snd d)) = EmptyString) defs ->
  fold_left (set_definition html_text) defs map = map.
Proof.
  induction defs as [|d defs IH]; intros map Hall; [reflexivity|].
  inversion Hall as [|? ? Hd Hrest]; subst. cbn [fold_left]. rewrite (IH _ Hrest).
  unfold set_definition. rewrite Hd. reflexivity.
Qed.

(** [initFootnotes] leaves the page alone exactly when there is no prose
    container or no definition with a text: no block [div.text-xs] whose
    first [strong] starts with [Notes], no match in the blocks, or only
    empty definitions.  Otherwise it returns the map of the definitions and
    the container after both passes. *)
Theorem initFootnotes_needs_definitions
    (innerHTML : list node -> string) (html_text : string -> string)
    (ctx : context) (prose : node) :
  initFootnotes innerHTML html_text ctx None = None
  /\ (initFootnotes innerHTML html_text ctx (Some prose) = None
      <-> Forall (fun d => trim (html_text (snd d)) = EmptyString)
            (all_definitions innerHTML prose))
  /\ (initFootnotes innerHTML html_text ctx (Some prose) <> None ->
      initFootnotes innerHTML html_text ctx (Some prose)
      = Some (parseFootnotes innerHTML html_text prose,
              wrapPlainTextNotes (parseFootnotes innerHTML html_text prose) ctx
                (wrapLinkedNotes (parseFootnotes innerHTML html_text prose) ctx prose))).
Proof.
  split; [reflexivity|]. split.
  - unfold initFootnotes. rewrite parseFootnotes_definitions.
    fold (all_definitions innerHTML prose). split.
    + intros Hnone. apply List.Forall_forall. intros [k raw] Hin. cbn [snd].
      destruct (trim (html_text raw)) as [|c t] eqn:Et; [reflexivity|]. exfalso.
      destruct (set_definitions_complete html_text (all_definitions innerHTML prose)
                  ∅ k raw Hin) as [v Hv].
      { rewrite Et. discriminate. }
      destruct (bool_decide (fold_left (set_definition html_text)
                               (all_definitions innerHTML prose) ∅ = ∅)) eqn:Eb;
        [|discriminate].
      apply bool_decide_eq_true_1 in Eb. rewrite Eb, lookup_empty in Hv. discriminate.
    + intros Hall. rewrite (set_definitions_empty html_text _ ∅ Hall).
      rewrite bool_decide_eq_true_2 by reflexivity. reflexivity.
  - unfold initFootnotes.
    destruct (bool_decide (parseFootnotes innerHTML html_text prose = ∅));
      [intros H; contradiction|reflexivity].
Qed.

(** *** Running the discovery again *)

Fixpoint has_bracket (s : string) : bool :=
  match s with
  | EmptyString => false
  | String c r => Ascii.eqb c "[" || has_bracket r
  end.

Lemma has_bracket_app a b : has_bracket (a +:+ b) = has_bracket a || has_bracket b.
Proof.
  induction a as [|c a IH]; [rewrite sapp_nil_l; reflexivity|].
  rewrite sapp_cons. simpl. rewrite IH, orb_assoc. reflexivity.
Qed.

Lemma space_eqb_bracket c : is_space c = true -> Ascii.eqb c "[" = false.
Proof.
  intros Hc. apply Ascii.eqb_neq. exact (space_not_bracket c Hc).
Qed.

Lemma has_bracket_trim_start s : has_bracket (trim_start s) = has_bracket s.
Proof.
  unfold trim_start. induction s as [|c s IH]; [reflexivity|]. simpl.
  destruct (is_space c) eqn:Hc; [|reflexivity].
  rewrite IH, (space_eqb_bracket c Hc). reflexivity.
Qed.

Lemma has_bracket_trim_end s : has_bracket (trim_end s) = has_bracket s.
Proof.
  induction s as [|c s IH]; [reflexivity|]. simpl.
  destruct (is_space c) eqn:Hc; cbn [andb].
  - destruct (trim_end s) as [|c' r] eqn:Er; cbn [is_empty].
    + rewrite <- IH, (space_eqb_bracket c Hc). reflexivity.
    + simpl. simpl in IH. rewrite IH. reflexivity.
  - simpl. rewrite IH. reflexivity.
Qed.

Lemma has_bracket_trim s : has_bracket (trim s) = has_bracket s.
Proof. unfold trim. rewrite has_bracket_trim_end. apply has_bracket_trim_start. Qed.

Lemma digits_no_bracket s : all_chars is_digit s = true -> has_bracket s = false.
Proof.
  induction s as [|c s IH]; [reflexivity|]. simpl. intros H.
  apply andb_prop in H as [Hc Hs]. rewrite (IH Hs), orb_false_r.
  apply Ascii.eqb_neq. intros ->. discriminate Hc.
Qed.

Lemma button_has_bracket num : has_bracket (textContent (button num)) = true.
Proof. rewrite button_text. reflexivity. Qed.

(** The text of a list of siblings *)
Definition texts (l : list node) : string := sconcat (map textContent l).

Lemma texts_app a b : texts (a ++ b) = texts a +:+ texts b.
Proof. unfold texts. rewrite map_app. apply sconcat_app. Qed.

Lemma texts_has_bracket l :
  has_bracket (texts l) = existsb (fun x => has_bracket (textContent x)) l.
Proof.
  induction l as [|x l IH]; [reflexivity|].
  change (texts (x :: l)) with (textContent x +:+ texts l).
  rewrite has_bracket_app, IH. reflexivity.
Qed.

Lemma existsb_reversed {A} (f : A -> bool) (l : list A) :
  existsb f (rev l) = existsb f l.
Proof.
  induction l as [|x l IH]; [reflexivity|].
  cbn [rev existsb]. rewrite existsb_app, IH. cbn [existsb].
  rewrite orb_false_r. apply orb_comm.
Qed.

(** No link below the children of [n] is converted by [wrapLinkedNotes]. *)
Fixpoint calm (footnotes : gmap string string) (ctx : context) (n : node) : bool :=
  match n with
  | Text _ => true
  | Elem tag attrs children =>
      forallb (fun k =>
                 match converted_link footnotes (in_control (enter ctx tag attrs)) k with
                 | Some _ => false
                 | None => calm footnotes (enter ctx tag attrs) k
                 end) children
  end.

Section Again.

Variable footnotes : gmap string string.
Hypothesis keys_are_numbers : forall k, has footnotes k = true -> is_number k = true.

Lemma bracket_not_converted inside tag attrs children :
  has_bracket (textContent (Elem tag attrs children)) = true ->
  converted_link footnotes inside (Elem tag attrs children) = None.
Proof.
  intros Hb. unfold converted_link. cbv zeta.
  destruct (has footnotes (trim (textContent (Elem tag attrs children)))) eqn:Eh.
  - apply keys_are_numbers in Eh. unfold is_number in Eh.
    apply andb_prop in Eh as [Eh _]. apply digits_no_bracket in Eh.
    rewrite has_bracket_trim, Hb in Eh. discriminate.
  - rewrite andb_false_r. reflexivity.
Qed.

Lemma button_not_converted inside num :
  converted_link footnotes inside (button num) = None.
Proof. reflexivity. Qed.

Section Visit.

Variable descend : node -> node.
Variable inside : bool.

Lemma visit_bracket todo : forall done after_link,
  existsb (fun x => has_bracket (textContent x)) done = true ->
  has_bracket (texts (visit footnotes descend inside todo done after_link)) = true.
Proof.
  induction todo as [|k todo IH]; intros done after_link Hdone.
  - cbn [visit]. rewrite texts_has_bracket, existsb_reversed. exact Hdone.
  - destruct k as [data|tag attrs children]; cbn [visit].
    + apply IH. cbn [existsb]. rewrite Hdone. apply orb_true_r.
    + destruct (converted_link footnotes inside (Elem tag attrs children)) as [num|].
      * apply IH. cbn [existsb]. rewrite button_has_bracket. reflexivity.
      * apply IH. cbn [existsb]. rewrite Hdone. apply orb_true_r.
Qed.

Lemma visit_same_or_bracket todo : forall done,
  Forall (fun k => descend k = k \/ has_bracket (textContent (descend k)) = true) todo ->
  visit footnotes descend inside todo done false = rev done ++ todo
  \/ has_bracket (texts (visit footnotes descend inside todo done false)) = true.
Proof.
  induction todo as [|k todo IH]; intros done Htodo.
  - left. cbn [visit]. rewrite app_nil_r. reflexivity.
  - inversion Htodo as [|? ? Hk Hrest]; subst.
    destruct k as [data|tag attrs children]; cbn [visit].
    + destruct (IH (Text data :: done) Hrest) as [E|Hb]; [left|right; exact Hb].
      rewrite E. cbn [rev]. rewrite <- app_assoc. reflexivity.
    + destruct (converted_link footnotes inside (Elem tag attrs children)) as [num|].
      * right. apply visit_bracket. cbn [existsb]. rewrite button_has_bracket. reflexivity.
      * destruct Hk as [Hk|Hk].
        -- rewrite Hk. destruct (IH (Elem tag attrs children :: done) Hrest) as [E|Hb];
             [left|right; exact Hb].
           rewrite E. cbn [rev]. rewrite <- app_assoc. reflexivity.
        -- right. apply visit_bracket. cbn [existsb]. rewrite Hk. reflexivity.
Qed.

(** An element that the visit leaves as it is *)
Definition stable (x : node) : Prop :=
  converted_link footnotes inside x = None /\ descend x = x.

Lemma visit_stable l : forall done,
  Forall stable l ->
  visit footnotes descend inside l done false = rev done ++ l.
Proof.
  induction l as [|k l IH]; intros done Hl.
  - cbn [visit]. rewrite app_nil_r. reflexivity.
  - inversion Hl as [|? ? [Hk1 Hk2] Hrest]; subst.
    destruct k as [data|tag attrs children]; cbn [visit].
    + rewrite (IH _ Hrest). cbn [rev]. rewrite <- app_assoc. reflexivity.
    + rewrite Hk1, Hk2, (IH _ Hrest). cbn [rev]. rewrite <- app_assoc. reflexivity.
Qed.

End Visit.

Lemma wrap_linked_same_or_bracket n : forall ctx,
  wrap_linked footnotes ctx n = n
  \/ has_bracket (textContent (wrap_linked footnotes ctx n)) = true.
Proof.
  induction n as [data|tag attrs children IH] using node_ind'; intros ctx.
  - left. reflexivity.
  - cbn [wrap_linked textContent].
    destruct (visit_same_or_bracket (wrap_linked footnotes (enter ctx tag attrs))
                (in_control (enter ctx tag attrs)) children []) as [E|Hb].
    + eapply Forall_impl; [exact IH|]. cbv beta. intros k Hk. apply Hk.
    + left. rewrite E. reflexivity.
    + right. exact Hb.
Qed.

Lemma descend_not_converted ctx inside k :
  converted_link footnotes inside k = None ->
  converted_link footnotes inside (wrap_linked footnotes ctx k) = None.
Proof.
  intros Hk. destruct (wrap_linked_same_or_bracket k ctx) as [E|Hb].
  - rewrite E. exact Hk.
  - destruct k as [data|tag attrs children]; [reflexivity|].
    cbn [wrap_linked] in *. apply bracket_not_converted, Hb.
Qed.

Lemma calm_button ctx num : calm footnotes ctx (button num) = true.
Proof. reflexivity. Qed.

(** The siblings that the visit returns are calm, when the siblings it has
    visited are. *)
Lemma visit_calm ctx inside todo : forall done after_link,
  Forall (fun x => converted_link footnotes inside x = None
                   /\ calm footnotes ctx x = true) done ->
  Forall (fun k => calm footnotes ctx (wrap_linked footnotes ctx k) = true) todo ->
  Forall (fun x => converted_link footnotes inside x = None
                   /\ calm footnotes ctx x = true)
    (visit footnotes (wrap_linked footnotes ctx) inside todo done after_link).
Proof.
  induction todo as [|k todo IH]; intros done after_link Hdone Htodo.
  - cbn [visit]. apply Forall_rev, Hdone.
  - inversion Htodo as [|? ? Hk Hrest]; subst.
    destruct k as [data|tag attrs children]; cbn [visit].
    + apply IH; [|exact Hrest]. constructor; [split; reflexivity|exact Hdone].
    + destruct (converted_link footnotes inside (Elem tag attrs children)) as [num|] eqn:Ec.
      * apply IH; [|exact Hrest]. constructor; [split; reflexivity|].
        destruct done as [|[d|t a c] done]; try exact Hdone.
        inversion Hdone; subst. constructor; [split; reflexivity|assumption].
      * apply IH; [|exact Hrest]. constructor; [|exact Hdone].
        split; [apply descend_not_converted, Ec|exact Hk].
Qed.

Lemma calm_children ctx tag attrs children :
  calm footnotes ctx (Elem tag attrs children) = true
  <-> Forall (fun x => converted_link footnotes (in_control (enter ctx tag attrs)) x = None
                       /\ calm footnotes (enter ctx tag attrs) x = true) children.
Proof.
  cbn [calm]. rewrite forallb_forall, List.Forall_forall. split.
  - intros H x Hx. specialize (H x Hx).
    destruct (converted_link _ _ x); [discriminate|auto].
  - intros H x Hx. destruct (H x Hx) as [-> Hc]. exact Hc.
Qed.

(** What [wrapLinkedNotes] returns holds no link that it would convert. *)
Lemma wrap_linked_calm n : forall ctx, calm footnotes ctx (wrap_linked footnotes ctx n) = true.
Proof.
  induction n as [data|tag attrs children IH] using node_ind'; intros ctx;
    [reflexivity|].
  cbn [wrap_linked]. apply calm_children. apply visit_calm; [constructor|].
  eapply Forall_impl; [exact IH|]. cbv beta. auto.
Qed.

(** [wrapLinkedNotes] returns a calm tree as it is. *)
Lemma calm_wrap_linked n : forall ctx,
  calm footnotes ctx n = true -> wrap_linked footnotes ctx n = n.
Proof.
  induction n as [data|tag attrs children IH] using node_ind'; intros ctx Hcalm;
    [reflexivity|].
  cbn [wrap_linked]. f_equal. apply calm_children in Hcalm.
  rewrite visit_stable; [reflexivity|].
  rewrite List.Forall_forall in IH, Hcalm |- *. intros k Hk.
  destruct (Hcalm k Hk) as [Hc1 Hc2]. split; [exact Hc1|]. apply (IH k Hk), Hc2.
Qed.

End Again.

Lemma same_text_converted footnotes inside tag attrs children children' :
  texts children' = texts children ->
  converted_link footnotes inside (Elem tag attrs children')
  = converted_link footnotes inside (Elem tag attrs children).
Proof.
  intros Ht. unfold converted_link. cbn [textContent]. unfold texts in Ht.
  rewrite Ht. reflexivity.
Qed.

Lemma flat_map_Forall {A B} (P : B -> Prop) (f : A -> list B) (l : list A) :
  Forall (fun x => Forall P (f x)) l -> Forall P (flat_map f l).
Proof.
  induction 1 as [|x l Hx Hl IH]; [constructor|]. simpl. apply Forall_app. auto.
Qed.

(** [wrapPlainTextNotes] makes no link convertible: the nodes it puts in
    the place of a calm node are calm. *)
Lemma wrap_plain_calm footnotes n : forall ctx inside,
  converted_link footnotes inside n = None ->
  calm footnotes ctx n = true ->
  Forall (fun m => converted_link footnotes inside m = None
                   /\ calm footnotes ctx m = true)
    (wrap_plain footnotes ctx n).
Proof.
  induction n as [data|tag attrs children IH] using node_ind'; intros ctx inside Hc Hcalm.
  - assert (Hself : Forall (fun m => converted_link footnotes inside m = None
                                     /\ calm footnotes ctx m = true) [Text data])
      by (constructor; [split; reflexivity|constructor]).
    cbn [wrap_plain].
    destruct (in_notes ctx || in_control ctx || negb (regex_test data)); [exact Hself|].
    rewrite wrapText_chunks.
    destruct (existsb (converted footnotes) (tokenize data)); [|exact Hself].
    eapply Forall_impl; [apply (chunks_settled footnotes (tokenize data) [])|].
    + apply valid_tokenize.
    + reflexivity.
    + cbv beta. intros m Hm. destruct m as [d|t a c]; [split; reflexivity|].
      destruct Hm as (num & -> & _). split; reflexivity.
  - cbn [wrap_plain]. constructor; [|constructor].
    assert (Hkids : Forall (fun m => converted_link footnotes
                                       (in_control (enter ctx tag attrs)) m = None
                                     /\ calm footnotes (enter ctx tag attrs) m = true)
                      (flat_map (wrap_plain footnotes (enter ctx tag attrs)) children)).
    { apply calm_children in Hcalm. apply flat_map_Forall.
      rewrite List.Forall_forall in IH, Hcalm |- *. intros k Hk.
      destruct (Hcalm k Hk) as [Hk1 Hk2]. exact (IH k Hk _ _ Hk1 Hk2). }
    split; [|apply calm_children, Hkids].
    rewrite (same_text_converted footnotes inside tag attrs children); [exact Hc|].
    unfold texts. apply text_flat_map. apply List.Forall_forall. intros k _.
    apply wrap_plain_text.
Qed.

(** Running the discovery again changes nothing, when the keys of the map
    are numbers: [wrapLinkedNotes] returns its own result as it is, and so
    does [wrapLinkedNotes] followed by [wrapPlainTextNotes], the two passes
    of [initFootnotes]. *)
Theorem discovery_idempotent
    (footnotes : gmap string string) (ctx : context) (prose : node) :
  (forall k, has footnotes k = true -> is_number k = true) ->
  wrapLinkedNotes footnotes ctx (wrapLinkedNotes footnotes ctx prose)
  = wrapLinkedNotes footnotes ctx prose
  /\ wrapPlainTextNotes footnotes ctx
       (wrapLinkedNotes footnotes ctx
          (wrapPlainTextNotes footnotes ctx (wrapLinkedNotes footnotes ctx prose)))
     = wrapPlainTextNotes footnotes ctx (wrapLinkedNotes footnotes ctx prose).
Proof.
  intros Hkeys. unfold wrapLinkedNotes.
  pose proof (wrap_linked_calm footnotes Hkeys prose ctx) as Hcalm.
  split; [apply calm_wrap_linked, Hcalm|].
  assert (Hplain : calm footnotes ctx
                     (wrapPlainTextNotes footnotes ctx (wrap_linked footnotes ctx prose))
                   = true).
  { destruct (wrap_linked footnotes ctx prose) as [data|tag attrs children];
      [reflexivity|].
    cbn [wrapPlainTextNotes]. apply calm_children. apply calm_children in Hcalm.
    apply flat_map_Forall. rewrite List.Forall_forall in Hcalm |- *. intros k Hk.
    destruct (Hcalm k Hk) as [Hk1 Hk2]. exact (wrap_plain_calm footnotes k _ _ Hk1 Hk2). }
  rewrite (calm_wrap_linked footnotes _ ctx Hplain).
  apply wrapPlainTextNotes_idempotent.
Qed.

Lemma discovery_idempotent_witness :
  wrapLinkedNotes sample_footnotes page_context
    (wrapLinkedNotes sample_footnotes page_context sample_prose)
  = wrapLinkedNotes sample_footnotes page_context sample_prose
  /\ wrapPlainTextNotes sample_footnotes page_context
       (wrapLinkedNotes sample_footnotes page_context
          (wrapPlainTextNotes sample_footnotes page_context
             (wrapLinkedNotes sample_footnotes page_context sample_prose)))
     = wrapPlainTextNotes sample_footnotes page_context
         (wrapLinkedNotes sample_footnotes page_context sample_prose).
Proof.
  exact (discovery_idempotent sample_footnotes page_context sample_prose
           sample_footnotes_keys).
Defined.

End Footnotes.

(** ** Footnote Engine: tooltip and bottom sheet *)

Module Popover.

(** The elements that the engine appends to [document.body] *)
Inductive kind : Type := Tooltip | Backdrop | Sheet.

(** An element of the engine: [ident] stands for the identity of the DOM
    object, [label] for the text of the label of a sheet and [content] for
    the text of a tooltip or of the body of a sheet. *)
Record element : Type := {
  ident : nat;
  what : kind;
  label : string;
  content : string
}.

(** The variables [activeTooltip], [activeSheet] and [backdrop] of the
    module, the children that the engine gave to [document.body], the
    elements whose removal is scheduled (a [transitionend] listener and a
    timer of 300 ms), and the number of elements created so far. *)
Record state : Type := {
  body : list element;
  activeTooltip : option nat;
  activeSheet : option nat;
  backdrop : option nat;
  leaving : list nat;
  created : nat
}.

Definition initial : state :=
  {| body := []; activeTooltip := None; activeSheet := None; backdrop := None;
     leaving := []; created := 0 |}.

(** [element.remove()] *)
Definition remove (i : nat) (children : list element) : list element :=
  List.filter (fun e => negb (ident e =? i)) children.

(** [dismissAll]: the tooltip leaves the document at once; the sheet and the
    backdrop start their transition and leave the document when it ends or
    when the timer fires. *)
Definition dismissAll (st : state) : state :=
  let st :=
    match activeTooltip st with
    | Some t =>
        {| body := remove t (body st); activeTooltip := None;
           activeSheet := activeSheet st; backdrop := backdrop st;
           leaving := leaving st; created := created st |}
    | None => st
    end in
  let st :=
    match activeSheet st with
    | Some s =>
        {| body := body st; activeTooltip := activeTooltip st;
           activeSheet := None; backdrop := backdrop st;
           leaving := s :: leaving st; created := created st |}
    | None => st
    end in
  match backdrop st with
  | Some b =>
      {| body := body st; activeTooltip := activeTooltip st;
         activeSheet := activeSheet st; backdrop := None;
         leaving := b :: leaving st; created := created st |}
  | None => st
  end.

Definition showTooltip (text : string) (st : state) : state :=
  let st := dismissAll st in
  let t := created st in
  {| body := body st ++ [{| ident := t; what := Tooltip; label := EmptyString;
                            content := text |}];
     activeTooltip := Some t; activeSheet := activeSheet st; backdrop := backdrop st;
     leaving := leaving st; created := S t |}.

Definition showBottomSheet (num text : string) (st : state) : state :=
  let st := dismissAll st in
  let b := created st in
  let s := S b in
  {| body := body st
             ++ [{| ident := b; what := Backdrop; label := EmptyString;
                    content := EmptyString |};
                 {| ident := s; what := Sheet; label := "Note " +:+ num;
                    content := text |}];
     activeTooltip := activeTooltip st; activeSheet := Some s; backdrop := Some b;
     leaving := leaving st; created := S s |}.

(** The callback [() => s.remove()] of a dismissed element, run by its
    [transitionend] event or by its timer *)
Definition removal_fires (i : nat) (st : state) : state :=
  if existsb (Nat.eqb i) (leaving st)
  then {| body := remove i (body st); activeTooltip := activeTooltip st;
          activeSheet := activeSheet st; backdrop := backdrop st;
          leaving := leaving st; created := created st |}
  else st.

(** What happens on the page: a click on the control of [num], on a narrow
    window ([isMobile()]) or not; a dismissal (the Escape key, a click on the
    backdrop or outside the tooltip, a swipe down); the removal of a
    dismissed element. *)
Inductive event : Type :=
| Click (mobile : bool) (num : string)
| Dismiss
| RemovalFires (i : nat).

(** The click handler of [initFootnotes] *)
Definition click (footnotes : gmap string string) (mobile : bool) (num : string)
    (st : state) : state :=
  if is_empty num then st
  else match footnotes !! num with
       | Some text => if mobile then showBottomSheet num text st else showTooltip text st
       | None => st
       end.

Definition handle (footnotes : gmap string string) (st : state) (ev : event) : state :=
  match ev with
  | Click mobile num => click footnotes mobile num st
  | Dismiss => dismissAll st
  | RemovalFires i => removal_fires i st
  end.

Definition run (footnotes : gmap string string) (events : list event) : state :=
  fold_left (handle footnotes) events initial.

(** The popovers of the document: its tooltips and its sheets *)
Definition is_popover (e : element) : bool :=
  match what e with
  | Tooltip | Sheet => true
  | Backdrop => false
  end.

Definition popovers (st : state) : list element := List.filter is_popover (body st).

(** The popover that the engine holds as open *)
Definition is_active (st : state) (e : element) : bool :=
  match what e with
  | Tooltip => bool_decide (activeTooltip st = Some (ident e))
  | Sheet => bool_decide (activeSheet st = Some (ident e))
  | Backdrop => false
  end.

Definition active_popovers (st : state) : list element :=
  List.filter (is_active st) (body st).

(** The state once all the scheduled removals have run *)
Definition settle (st : state) : state :=
  fold_left (fun st i => removal_fires i st) (leaving st) st.

(** *** The open popover and the dismissed ones *)

(** What the engine holds as open: nothing, a tooltip, or a backdrop with
    its sheet, created one after the other *)
Inductive shape : Type :=
| Closed
| TooltipOpen (t : nat) (text : string)
| SheetOpen (b : nat) (num text : string).

Definition current (sh : shape) : list element :=
  match sh with
  | Closed => []
  | TooltipOpen t text =>
      [{| ident := t; what := Tooltip; label := EmptyString; content := text |}]
  | SheetOpen b num text =>
      [{| ident := b; what := Backdrop; label := EmptyString; content := EmptyString |};
       {| ident := S b; what := Sheet; label := "Note " +:+ num; content := text |}]
  end.

Definition idents (sh : shape) : list nat := map ident (current sh).

(** The document holds dismissed sheets and backdrops, whose removal is
    scheduled, and behind them what the engine holds as open. *)
Record invariant (st : state) (old : list element) (sh : shape) : Prop := {
  inv_body : body st = old ++ current sh;
  inv_tooltip :
    activeTooltip st = match sh with TooltipOpen t _ => Some t | _ => None end;
  inv_sheet :
    activeSheet st = match sh with SheetOpen b _ _ => Some (S b) | _ => None end;
  inv_backdrop :
    backdrop st = match sh with SheetOpen b _ _ => Some b | _ => None end;
  inv_old : Forall (fun e => In (ident e) (leaving st) /\ what e <> Tooltip) old;
  inv_fresh : Forall (fun i => ~ In i (leaving st)) (idents sh);
  inv_created : Forall (fun i => i < created st) (leaving st ++ idents sh)
}.

Lemma remove_other (i : nat) (l : list element) :
  Forall (fun e => ident e <> i) l -> remove i l = l.
Proof.
  induction 1 as [|e l He Hl IH]; [reflexivity|]. unfold remove in *. simpl.
  destruct (Nat.eqb_spec (ident e) i); [contradiction|]. simpl. rewrite IH. reflexivity.
Qed.

Lemma remove_app (i : nat) (a b : list element) :
  remove i (a ++ b) = remove i a ++ remove i b.
Proof.
  unfold remove. induction a as [|e a IH]; [reflexivity|]. simpl.
  destruct (negb (ident e =? i)); simpl; rewrite IH; reflexivity.
Qed.

Lemma old_not_fresh st old i :
  Forall (fun e => In (ident e) (leaving st) /\ what e <> Tooltip) old ->
  ~ In i (leaving st) -> Forall (fun e => ident e <> i) old.
Proof.
  intros Hold Hi. eapply Forall_impl; [exact Hold|]. cbv beta.
  intros e [He _] E. rewrite E in He. contradiction.
Qed.

Lemma invariant_initial : invariant initial [] Closed.
Proof. constructor; simpl; auto. Qed.

Lemma invariant_dismissAll st old sh :
  invariant st old sh ->
  exists old', invariant (dismissAll st) old' Closed.
Proof.
  intros [Hbody Htool Hsheet Hback Hold Hfresh Hcreated].
  destruct sh as [|t text|b num text]; unfold dismissAll; rewrite Htool.
  - cbn [activeSheet backdrop]. rewrite Hsheet, Hback.
    exists old. constructor; auto.
  - cbn [activeSheet backdrop]. rewrite Hsheet, Hback.
    exists old. inversion Hfresh as [|? ? Ht _]; subst.
    constructor; cbn [body activeTooltip activeSheet backdrop leaving created current idents map];
      auto.
    + rewrite Hbody, remove_app, (remove_other t old (old_not_fresh st old t Hold Ht)).
      unfold remove. simpl. rewrite Nat.eqb_refl. reflexivity.
    + apply Forall_app in Hcreated as [Hl _]. rewrite app_nil_r. exact Hl.
  - cbn [activeSheet backdrop]. rewrite Hsheet. cbn [activeSheet backdrop]. rewrite Hback.
    exists (old ++ current (SheetOpen b num text)).
    constructor; cbn [body activeTooltip activeSheet backdrop leaving created idents map];
      auto.
    + rewrite Hbody, app_nil_r. reflexivity.
    + apply Forall_app. split.
      * eapply Forall_impl; [exact Hold|]. cbv beta. intros e [He Hw].
        split; [right; right; exact He|exact Hw].
      * repeat constructor; simpl; auto; discriminate.
    + apply Forall_app in Hcreated as [Hl Hids]. simpl in Hids.
      inversion Hids as [|? ? Hb Hids']; subst. inversion Hids' as [|? ? Hs _]; subst.
      simpl. rewrite app_nil_r. repeat constructor; assumption.
Qed.

Lemma created_fresh st old i :
  invariant st old Closed -> created st <= i -> ~ In i (leaving st).
Proof.
  intros [_ _ _ _ _ _ Hcreated] Hi Hin. rewrite List.Forall_forall in Hcreated.
  specialize (Hcreated i). rewrite in_app_iff in Hcreated.
  specialize (Hcreated (or_introl Hin)). lia.
Qed.

Lemma created_later st old (n : nat) :
  invariant st old Closed ->
  Forall (fun i => i < created st + S n) (leaving st).
Proof.
  intros [_ _ _ _ _ _ Hcreated]. simpl in Hcreated. rewrite app_nil_r in Hcreated.
  eapply Forall_impl; [exact Hcreated|]. cbv beta. intros; lia.
Qed.

Lemma invariant_showTooltip st old sh text :
  invariant st old sh ->
  exists old' t, invariant (showTooltip text st) old' (TooltipOpen t text).
Proof.
  intros Hinv. destruct (invariant_dismissAll st old sh Hinv) as [old' Hd].
  exists old', (created (dismissAll st)). unfold showTooltip.
  pose proof (created_fresh _ _ (created (dismissAll st)) Hd ltac:(lia)) as Hfresh.
  pose proof (created_later _ _ 0 Hd) as Hlater.
  destruct Hd as [Hbody Htool Hsheet Hback Hold _ _].
  constructor; cbn [body activeTooltip activeSheet backdrop leaving created current idents map];
    auto.
  - rewrite Hbody, app_nil_r. reflexivity.
  - apply Forall_app. split.
    + eapply Forall_impl; [exact Hlater|]. cbv beta. intros; lia.
    + repeat constructor.
Qed.

Lemma invariant_showBottomSheet st old sh num text :
  invariant st old sh ->
  exists old' b, invariant (showBottomSheet num text st) old' (SheetOpen b num text).
Proof.
  intros Hinv. destruct (invariant_dismissAll st old sh Hinv) as [old' Hd].
  exists old', (created (dismissAll st)). unfold showBottomSheet.
  pose proof (created_fresh _ _ (created (dismissAll st)) Hd ltac:(lia)) as Hb.
  pose proof (created_fresh _ _ (S (created (dismissAll st))) Hd ltac:(lia)) as Hs.
  pose proof (created_later _ _ 1 Hd) as Hlater.
  destruct Hd as [Hbody Htool Hsheet Hback Hold _ _].
  constructor; cbn [body activeTooltip activeSheet backdrop leaving created current idents map];
    auto.
  - rewrite Hbody, app_nil_r. reflexivity.
  - apply Forall_app. split.
    + eapply Forall_impl; [exact Hlater|]. cbv beta. intros; lia.
    + repeat constructor.
Qed.

Lemma invariant_removal_fires st old sh i :
  invariant st old sh ->
  exists old', invariant (removal_fires i st) old' sh
               /\ leaving (removal_fires i st) = leaving st
               /\ forall e, In e old' ->
                            In e old /\ (In i (leaving st) -> ident e <> i).
Proof.
  intros Hinv. unfold removal_fires.
  destruct (existsb (Nat.eqb i) (leaving st)) eqn:Ei.
  - apply existsb_exists in Ei as (j & Hj & Eij). apply Nat.eqb_eq in Eij. subst j.
    destruct Hinv as [Hbody Htool Hsheet Hback Hold Hfresh Hcreated].
    exists (remove i old). split; [|split; [reflexivity|]].
    + constructor; cbn [body activeTooltip activeSheet backdrop leaving created]; auto.
      * rewrite Hbody, remove_app. f_equal. apply remove_other.
        unfold idents in Hfresh. rewrite Forall_map in Hfresh.
        eapply Forall_impl; [exact Hfresh|]. cbv beta. intros e He E.
        rewrite E in He. contradiction.
      * unfold remove. rewrite List.Forall_forall in Hold |- *.
        intros e He. apply filter_In in He as [He _]. exact (Hold e He).
    + intros e He. apply filter_In in He as [He Hne]. split; [exact He|].
      intros _ E. rewrite E, Nat.eqb_refl in Hne. discriminate.
  - exists old. split; [exact Hinv|]. split; [reflexivity|].
    intros e He. split; [exact He|]. intros Hin. exfalso.
    assert (Hex : existsb (Nat.eqb i) (leaving st) = true)
      by (apply existsb_exists; exists i; split; [exact Hin|apply Nat.eqb_refl]).
    rewrite Ei in Hex. discriminate.
Qed.

Lemma invariant_handle footnotes st old sh ev :
  invariant st old sh ->
  exists old' sh', invariant (handle footnotes st ev) old' sh'.
Proof.
  intros Hinv. destruct ev as [mobile num| |i]; cbn [handle].
  - unfold click. destruct (is_empty num); [eauto|].
    destruct (footnotes !! num) as [text|]; [|eauto].
    destruct mobile.
    + destruct (invariant_showBottomSheet st old sh num text Hinv) as (old' & b & H). eauto.
    + destruct (invariant_showTooltip st old sh text Hinv) as (old' & t & H). eauto.
  - destruct (invariant_dismissAll st old sh Hinv) as (old' & H). eauto.
  - destruct (invariant_removal_fires st old sh i Hinv) as (old' & H & _). eauto.
Qed.

Lemma invariant_run footnotes events :
  exists old sh, invariant (run footnotes events) old sh.
Proof.
  unfold run.
  assert (H : forall st, (exists old sh, invariant st old sh) ->
                         exists old sh, invariant (fold_left (handle footnotes) events st) old sh).
  { induction events as [|ev events IH]; intros st Hst; [exact Hst|].
    cbn [fold_left]. apply IH. destruct Hst as (old & sh & Hinv).
    exact (invariant_handle footnotes st old sh ev Hinv). }
  apply H. exists [], Closed. exact invariant_initial.
Qed.


Lemma filter_none {A} (f : A -> bool) (l : list A) :
  Forall (fun x => f x = false) l -> List.filter f l = [].
Proof.
  induction 1 as [|x l Hx Hl IH]; [reflexivity|]. simpl. rewrite Hx. exact IH.
Qed.

(** The engine holds no dismissed element as open. *)
Lemma old_not_active st old sh :
  invariant st old sh -> List.filter (is_active st) old = [].
Proof.
  intros [Hbody Htool Hsheet Hback Hold Hfresh Hcreated]. apply filter_none.
  eapply Forall_impl; [exact Hold|]. cbv beta. intros e [He Hw].
  unfold is_active. destruct (what e); [contradiction|reflexivity|].
  apply bool_decide_eq_false_2. rewrite Hsheet.
  destruct sh as [|t text|b num text]; try discriminate.
  intros E. injection E as E. unfold idents in Hfresh. simpl in Hfresh.
  inversion Hfresh as [|? ? _ Hfresh']; subst. inversion Hfresh' as [|? ? Hs _]; subst.
  rewrite <- E in He. contradiction.
Qed.

(** The active popover is the tooltip or the sheet that the engine holds. *)
Lemma active_popovers_shape st old sh :
  invariant st old sh -> active_popovers st = List.filter is_popover (current sh).
Proof.
  intros Hinv. pose proof (old_not_active st old sh Hinv) as Hold.
  destruct Hinv as [Hbody Htool Hsheet Hback _ _ _].
  unfold active_popovers. rewrite Hbody, List.filter_app, Hold. cbn [app].
  destruct sh as [|t text|b num text]; [reflexivity| |].
  - simpl. unfold is_active. simpl. rewrite Htool.
    rewrite bool_decide_eq_true_2 by reflexivity. reflexivity.
  - simpl. unfold is_active. simpl. rewrite Hsheet.
    rewrite bool_decide_eq_true_2 by reflexivity. reflexivity.
Qed.

Lemma settle_steps l : forall st old sh,
  invariant st old sh ->
  (forall i, In i l -> In i (leaving st)) ->
  exists old',
    invariant (fold_left (fun st i => removal_fires i st) l st) old' sh
    /\ leaving (fold_left (fun st i => removal_fires i st) l st) = leaving st
    /\ forall e, In e old' -> In e old /\ ~ In (ident e) l.
Proof.
  induction l as [|i l IH]; intros st old sh Hinv Hl.
  - exists old. cbn [fold_left]. split; [exact Hinv|]. split; [reflexivity|].
    intros e He. split; [exact He|]. intros [].
  - cbn [fold_left].
    destruct (invariant_removal_fires st old sh i Hinv) as (old1 & Hinv1 & Hleave & Hold1).
    destruct (IH (removal_fires i st) old1 sh Hinv1) as (old' & Hinv' & Hleave' & Hold').
    { intros j Hj. rewrite Hleave. apply Hl. right. exact Hj. }
    exists old'. split; [exact Hinv'|]. split; [congruence|].
    intros e He. destruct (Hold' e He) as [He1 Hnot].
    destruct (Hold1 e He1) as [He0 Hne]. split; [exact He0|].
    intros [E|Hin]; [|exact (Hnot Hin)].
    apply (Hne (Hl i (or_introl eq_refl))). symmetry. exact E.
Qed.

(** Once the scheduled removals have run, the document holds what the
    engine holds as open and nothing else. *)
Lemma settle_body st old sh : invariant st old sh -> body (settle st) = current sh.
Proof.
  intros Hinv. unfold settle.
  destruct (settle_steps (leaving st) st old sh Hinv ltac:(auto))
    as (old' & Hinv' & Hleave & Hold').
  destruct Hinv' as [Hbody _ _ _ Hold _ _]. rewrite Hbody.
  destruct old' as [|e old']; [reflexivity|]. exfalso.
  inversion Hold as [|? ? [He _] _]; subst. rewrite Hleave in He.
  destruct (Hold' e (or_introl eq_refl)) as [_ Hnot]. exact (Hnot He).
Qed.

Lemma popovers_present st old sh :
  invariant st old sh ->
  Forall (fun e => is_active st e = true
                   \/ (what e = Sheet /\ In (ident e) (leaving st))) (popovers st).
Proof.
  intros Hinv. pose proof (active_popovers_shape st old sh Hinv) as Hactive.
  apply List.Forall_forall. intros e He. unfold popovers in He.
  apply filter_In in He as [He Hpop].
  rewrite (inv_body st old sh Hinv) in He. apply in_app_iff in He as [He|He].
  - right. pose proof (inv_old st old sh Hinv) as Hold.
    rewrite List.Forall_forall in Hold. destruct (Hold e He) as [Hin Hw].
    split; [|exact Hin]. unfold is_popover in Hpop.
    destruct (what e); [contradiction|discriminate|reflexivity].
  - left. assert (Hin : In e (active_popovers st)).
    { rewrite Hactive. apply filter_In. auto. }
    unfold active_popovers in Hin. apply filter_In in Hin as [_ Hin]. exact Hin.
Qed.

Lemma run_snoc footnotes events ev :
  run footnotes (events ++ [ev]) = handle footnotes (run footnotes events) ev.
Proof. unfold run. rewrite fold_left_app. reflexivity. Qed.

(** C2, counterexample: the sheet of a first citation is open when a
    second citation is activated on a narrow window.  [dismissAll] starts
    the closing transition of the first sheet and leaves it in the document,
    so the document holds two sheets. *)
Lemma dismissed_sheet_stays_in_document :
  exists st,
    st = run Footnotes.sample_footnotes [Click true "1"; Click true "2"]
    /\ map content (popovers st) = ["First note."; "Second note."]
    /\ ~ length (popovers st) <= 1.
Proof.
  eexists. split; [reflexivity|]. split; [vm_compute; reflexivity|].
  vm_compute. lia.
Qed.

(** C2.  After any sequence of clicks, dismissals and removals the engine
    holds at most one popover as open; every popover of the document is
    that one or a dismissed sheet whose removal is scheduled, so a dismissed
    tooltip is gone at once; once the scheduled removals have run the
    document holds the open popover and no other.  A click on the control
    of a number of the map then leaves exactly one open popover, a sheet on
    a narrow window and a tooltip otherwise, with the text of that
    number. *)
Theorem one_open_popover
    (footnotes : gmap string string) (events : list event)
    (mobile : bool) (num text : string) :
  footnotes !! num = Some text ->
  num <> EmptyString ->
  length (active_popovers (run footnotes events)) <= 1
  /\ Forall (fun e => is_active (run footnotes events) e = true
                      \/ (what e = Sheet /\ In (ident e) (leaving (run footnotes events))))
       (popovers (run footnotes events))
  /\ popovers (settle (run footnotes events)) = active_popovers (run footnotes events)
  /\ exists e,
       active_popovers (run footnotes (events ++ [Click mobile num])) = [e]
       /\ what e = (if mobile then Sheet else Tooltip)
       /\ content e = text.
Proof.
  intros Hnum Hne. destruct (invariant_run footnotes events) as (old & sh & Hinv).
  split; [|split; [|split]].
  - rewrite (active_popovers_shape _ old sh Hinv).
    destruct sh; simpl; lia.
  - exact (popovers_present _ old sh Hinv).
  - unfold popovers. rewrite (settle_body _ old sh Hinv).
    symmetry. exact (active_popovers_shape _ old sh Hinv).
  - rewrite run_snoc. cbn [handle]. unfold click.
    destruct num as [|c num]; [contradiction|]. cbn [is_empty]. rewrite Hnum.
    destruct mobile.
    + destruct (invariant_showBottomSheet _ old sh (String c num) text Hinv)
        as (old' & b & Hinv').
      rewrite (active_popovers_shape _ old' _ Hinv'). simpl. eauto.
    + destruct (invariant_showTooltip _ old sh text Hinv) as (old' & t & Hinv').
      rewrite (active_popovers_shape _ old' _ Hinv'). simpl. eauto.
Qed.

Lemma one_open_popover_witness :
  length (active_popovers (run Footnotes.sample_footnotes [Click true "1"])) <= 1
  /\ Forall (fun e => is_active (run Footnotes.sample_footnotes [Click true "1"]) e = true
                      \/ (what e = Sheet
                          /\ In (ident e)
                               (leaving (run Footnotes.sample_footnotes [Click true "1"]))))
       (popovers (run Footnotes.sample_footnotes [Click true "1"]))
  /\ popovers (settle (run Footnotes.sample_footnotes [Click true "1"]))
     = active_popovers (run Footnotes.sample_footnotes [Click true "1"])
  /\ exists e,
       active_popovers
         (run Footnotes.sample_footnotes ([Click true "1"] ++ [Click true "2"])) = [e]
       /\ what e = Sheet
       /\ content e = "Second note.".
Proof.
  exact (one_open_popover Footnotes.sample_footnotes [Click true "1"] true "2"
           "Second note." eq_refl ltac:(discriminate)).
Defined.


(** *** The removal callbacks of dismissed elements *)

Lemma remove_twice i children : remove i (remove i children) = remove i children.
Proof.
  unfold remove. induction children as [|e children IH]; [reflexivity|]. simpl.
  destruct (negb (ident e =? i)) eqn:E; simpl; rewrite ?E, IH; reflexivity.
Qed.

(** A dismissed sheet has two removal callbacks, one on [transitionend] and
    one on a timer.  After any sequence of clicks, dismissals and removals,
    a callback that runs, for whatever element, leaves the variables of the
    engine and the open popover as they are, removes nothing but an element
    whose removal is scheduled, and a callback that runs a second time
    changes nothing. *)
Theorem removal_callbacks_are_harmless
    (footnotes : gmap string string) (events : list event) (i : nat) :
  active_popovers (removal_fires i (run footnotes events))
  = active_popovers (run footnotes events)
  /\ activeTooltip (removal_fires i (run footnotes events))
     = activeTooltip (run footnotes events)
  /\ activeSheet (removal_fires i (run footnotes events))
     = activeSheet (run footnotes events)
  /\ Forall (fun e => In e (body (removal_fires i (run footnotes events)))
                      \/ (ident e = i /\ In i (leaving (run footnotes events))))
       (body (run footnotes events))
  /\ removal_fires i (removal_fires i (run footnotes events))
     = removal_fires i (run footnotes events).
Proof.
  destruct (invariant_run footnotes events) as (old & sh & Hinv).
  destruct (invariant_removal_fires _ old sh i Hinv) as (old' & Hinv' & _ & _).
  split.
  { rewrite (active_popovers_shape _ old' sh Hinv').
    symmetry. exact (active_popovers_shape _ old sh Hinv). }
  unfold removal_fires.
  destruct (existsb (Nat.eqb i) (leaving (run footnotes events))) eqn:Ei;
    cbn [activeTooltip activeSheet body leaving].
  - split; [reflexivity|]. split; [reflexivity|]. split.
    + apply List.Forall_forall. intros e He.
      destruct (Nat.eqb_spec (ident e) i) as [Heq|Hne].
      * right. split; [exact Heq|].
        apply existsb_exists in Ei as (j & Hj & Eij). apply Nat.eqb_eq in Eij.
        subst j. exact Hj.
      * left. apply filter_In. split; [exact He|].
        apply negb_true_iff, Nat.eqb_neq, Hne.
    + rewrite Ei. cbn [body activeTooltip activeSheet backdrop leaving created].
      rewrite remove_twice. reflexivity.
  - split; [reflexivity|]. split; [reflexivity|]. split.
    + apply List.Forall_forall. intros e He. left. exact He.
    + rewrite Ei. reflexivity.
Qed.

End Popover.
